(** * QDQ insertion engine of the ONNX Runtime quantization tool

    A shallow embedding of
    [onnxruntime/python/tools/quantization/qdq_quantizer.py]: the tensor
    registry, the quantized-value store, the graph rewriter for activations
    and initializers, the shared-parameter resolution loop, the bias pass and
    the orchestrating [quantize_model].

    The quantizer object is a record threaded through a state-and-exception
    monad; a raised Python exception keeps the state reached so far.  Graph
    nodes are Python objects shared between the graph and the quantizer's
    bookkeeping lists, so a node is referred to by its position in the graph's
    node store and rewiring updates the store in place. *)

From Stdlib Require Import Floats.
From stdpp Require Import gmap strings list fin_maps pretty.

Open Scope string_scope.
Open Scope list_scope.

(** ** Ordered dictionaries

    [self.tensors_to_quantize] is iterated, so its insertion order is part of
    the behaviour: assigning to a key that is present keeps its position, a new
    key goes last, [del] drops the entry of the key (keys are distinct in a
    dictionary, so there is one). *)
Module odict.

Abbreviation t V := (list (string * V)).

Fixpoint get {V} (k : string) (d : t V) : option V :=
  match d with
  | [] => None
  | (k', v) :: d' => if decide (k' = k) then Some v else get k d'
  end.

Definition mem {V} (k : string) (d : t V) : bool :=
  match get k d with Some _ => true | None => false end.

Fixpoint set {V} (k : string) (v : V) (d : t V) : t V :=
  match d with
  | [] => [(k, v)]
  | (k', v') :: d' =>
      if decide (k' = k) then (k, v) :: d' else (k', v') :: set k v d'
  end.

Definition del {V} (k : string) (d : t V) : t V :=
  filter (λ e, e.1 ≠ k) d.

Definition keys {V} (d : t V) : list string := d.*1.

End odict.

(** ** Data model *)

(** [onnx.TensorProto] element-type codes used by the quantizer. *)
Definition FLOAT : Z := 1.
Definition UINT8 : Z := 2.
Definition INT8 : Z := 3.
Definition FLOAT16 : Z := 10.
Definition BFLOAT16 : Z := 16.

Definition is_float_kind (dt : Z) : bool :=
  bool_decide (dt = FLOAT) || bool_decide (dt = FLOAT16).

Inductive QDQQuantTensorType := ACTIVATION | WEIGHT | BIAS.

Record QDQQuantParamProvider := mkProvider {
  input_name : string;
  node_name : string
}.

Record QDQTensorQuantInfo := mkInfo {
  tensor_type : QDQQuantTensorType;
  quant_para_provider : option QDQQuantParamProvider;
  axis : option Z;
  is_shared : bool;
  data_type : Z
}.

Inductive QuantizedValueType := VInput | VInitializer.

(** Modelled from the spec: the [QuantizedValue] class of [quant_utils]
    (absent), with the field names the quantizer reads: source tensor,
    quantized/dequantized output name, scale and zero-point names, value
    kind, optional axis, emitted node kind and its numeric kind. *)
Record QuantizedValue := mkQV {
  original_name : string;
  q_name : string;
  scale_name : string;
  zp_name : string;
  value_type : QuantizedValueType;
  qv_axis : option Z;
  node_type : option string;
  node_qtype : option Z;
  scale_type : option Z
}.

Record QDQTensorQuantizedValue := mkTQV {
  original : QuantizedValue;
  converted : option QuantizedValue;
  converted_recv_nodes : option (gset string)
}.

Definition get_for_consumer (self : QDQTensorQuantizedValue)
    (consumer_node_name : string) : QuantizedValue :=
  match converted self with
  | None => original self
  | Some conv =>
      match converted_recv_nodes self with
      | None => conv
      | Some recv =>
          if bool_decide (consumer_node_name ∈ recv) then conv
          else original self
      end
  end.

(** ** The graph container

    Modelled from the spec: the model container ([ONNXModel], absent) is the
    external collaborator of section 6.  It stores nodes and initializers,
    tests graph inputs and outputs, adds nodes and initializers, removes a
    batch of nodes, and replaces references to a tensor name in every node
    or in a subset of the nodes. *)

Inductive scalar := SInt (z : Z) | SFloat (f : float).

Record TensorProto := mkTensor {
  tp_name : string;
  tp_data_type : Z;
  tp_dims : list Z;
  tp_vals : list scalar
}.

Record NodeProto := mkNode {
  op_type : string;
  input : list string;
  output : list string;
  name : string;
  attr_axis : option Z;
  attr_to : option Z;
  domain : option string
}.

Record ONNXModel := mkModel {
  graph_node : list NodeProto;
  graph_initializer : list TensorProto;
  graph_input : list string;
  graph_output : list string;
  producer_name : string;
  producer_version : string;
  opset_import : list (string * Z)
}.

Definition find_by_name (item_name : string) (item_list : list TensorProto)
    : option TensorProto :=
  List.find (λ t, bool_decide (tp_name t = item_name)) item_list.

Definition rename (old new : string) (names : list string) : list string :=
  (λ x, if decide (x = old) then new else x) <$> names.

Definition node_replace_input (old new : string) (n : NodeProto) : NodeProto :=
  mkNode (op_type n) (rename old new (input n)) (output n) (name n)
         (attr_axis n) (attr_to n) (domain n).

Definition node_replace_output (old new : string) (n : NodeProto) : NodeProto :=
  mkNode (op_type n) (input n) (rename old new (output n)) (name n)
         (attr_axis n) (attr_to n) (domain n).

Definition with_nodes (f : list NodeProto → list NodeProto) (m : ONNXModel) : ONNXModel :=
  mkModel (f (graph_node m)) (graph_initializer m) (graph_input m)
          (graph_output m) (producer_name m) (producer_version m) (opset_import m).

Definition with_initializers (f : list TensorProto → list TensorProto) (m : ONNXModel)
    : ONNXModel :=
  mkModel (graph_node m) (f (graph_initializer m)) (graph_input m)
          (graph_output m) (producer_name m) (producer_version m) (opset_import m).

Module ONNXModel.

Definition is_graph_output (m : ONNXModel) (t : string) : bool :=
  bool_decide (t ∈ graph_output m).

Definition is_graph_input (m : ONNXModel) (t : string) : bool :=
  bool_decide (t ∈ graph_input m).

Definition add_nodes (ns : list NodeProto) : ONNXModel → ONNXModel :=
  with_nodes (λ l, l ++ ns).

Definition add_node (n : NodeProto) : ONNXModel → ONNXModel := add_nodes [n].

Definition add_initializer (t : TensorProto) : ONNXModel → ONNXModel :=
  with_initializers (λ l, l ++ [t]).

Definition initializer_extend (ts : list TensorProto) : ONNXModel → ONNXModel :=
  with_initializers (λ l, l ++ ts).

Fixpoint remove_first (nm : string) (l : list TensorProto) : list TensorProto :=
  match l with
  | [] => []
  | t :: l' => if decide (tp_name t = nm) then l' else t :: remove_first nm l'
  end.

Definition remove_initializer (t : option TensorProto) : ONNXModel → ONNXModel :=
  match t with
  | Some t => with_initializers (remove_first (tp_name t))
  | None => id
  end.

(** The node at position [i] of the store is rewired in place. *)
Definition replace_node_input (i : nat) (old new : string) : ONNXModel → ONNXModel :=
  with_nodes (alter (node_replace_input old new) i).

Definition replace_input_of_all_nodes (old new : string) : ONNXModel → ONNXModel :=
  with_nodes (fmap (node_replace_input old new)).

Definition replace_output_of_all_nodes (old new : string) : ONNXModel → ONNXModel :=
  with_nodes (fmap (node_replace_output old new)).

Definition replace_input_of_nodes (old new : string) (node_names : gset string)
    : ONNXModel → ONNXModel :=
  with_nodes (fmap (λ n, if bool_decide (name n ∈ node_names)
                         then node_replace_input old new n else n)).

(** Number of (node, input slot) pairs reading [t], as the length of
    [input_name_to_nodes()[t]]; [None] when no node reads it. *)
Definition input_name_to_nodes_len (m : ONNXModel) (t : string) : option nat :=
  let c := length (filter (λ x, x = t) (graph_node m ≫= input)) in
  if decide (c = 0) then None else Some c.

(** The batch removal drops the recorded nodes from the store. *)
Definition remove_nodes (to_remove : list nat) : ONNXModel → ONNXModel :=
  with_nodes (λ l, (filter (λ p, p.1 ∉ to_remove) (imap (λ i n, (i, n)) l)).*2).

(** Initializers that no node reads are dropped. *)
Definition clean_initializers : ONNXModel → ONNXModel :=
  λ m, with_initializers
         (filter (λ t, tp_name t ∈ (graph_node m ≫= input) ∨ tp_name t ∈ graph_output m)) m.

Definition set_producer (nm ver : string) (m : ONNXModel) : ONNXModel :=
  mkModel (graph_node m) (graph_initializer m) (graph_input m) (graph_output m)
          nm ver (opset_import m).

Definition set_opset_import (dom : string) (ver : Z) (m : ONNXModel) : ONNXModel :=
  mkModel (graph_node m) (graph_initializer m) (graph_input m) (graph_output m)
          (producer_name m) (producer_version m)
          ((dom, ver) :: filter (λ p, p.1 ≠ dom) (opset_import m)).

End ONNXModel.

(** ** The quantizer object *)

(** The numpy storage kind of a scale value; a value with no [dtype]
    attribute has none. *)
Inductive np_dtype := np_float16 | np_float32 | np_float64.

Record QuantizationParams := mkQParams {
  zero_point : scalar;
  scale : float;
  scale_dtype : option np_dtype;
  quant_type : option Z
}.

Record QDQTensorQuantParams := mkTQParams {
  tqp_original : QuantizationParams;
  tqp_converted : option QuantizationParams;
  tqp_converted_recv_nodes : option (gset string)
}.

Record QDQQuantParamsInitializers := mkInits {
  init_scale : TensorProto;
  init_zero_point : TensorProto
}.

Record QDQTensorQuantParamsInitializers := mkTInits {
  inits_original : QDQQuantParamsInitializers;
  inits_converted : option QDQQuantParamsInitializers;
  inits_converted_recv_nodes : option (gset string)
}.

(** An entry of [self.bias_to_quantize]. *)
Record PendingBias := mkPendingBias {
  pb_node_name : string;
  pb_bias_name : string;
  pb_input_name : string;
  pb_weight_name : string;
  pb_beta : float
}.

Inductive diagnostic :=
| LogWarning (msg tensor : string)
| LogInfo (msg tensor : string).

Inductive exn :=
| TypeError (msg : string)
| ValueError (msg : string)
| KeyError (key : string)
| RuntimeError (msg : string)
| IndexError
| AttributeError
| AssertionError.

Record QDQQuantizer := mkQuantizer {
  model : ONNXModel;
  value_infos : gmap string (option Z);
  per_channel : bool;
  opset_version : Z;
  weight_qType : Z;
  activation_qType : Z;
  tensor_quant_overrides : gmap string (list (list string));
  tensors_to_quantize : odict.t QDQTensorQuantInfo;
  bias_to_quantize : list PendingBias;
  nodes_to_remove : list nat;
  add_qdq_pair_to_weight : bool;
  quantize_bias : bool;
  dedicated_qdq_pair : bool;
  tensor_to_its_receiving_nodes : gmap string (list nat);
  qdq_op_domain : option string;
  quantization_params : option (gmap string QDQTensorQuantParams);
  quantized_value_map : gmap string QDQTensorQuantizedValue;
  log : list diagnostic
}.

Definition with_model (f : ONNXModel → ONNXModel) (s : QDQQuantizer) : QDQQuantizer :=
  mkQuantizer (f (model s)) (value_infos s) (per_channel s) (opset_version s)
    (weight_qType s) (activation_qType s) (tensor_quant_overrides s)
    (tensors_to_quantize s) (bias_to_quantize s) (nodes_to_remove s)
    (add_qdq_pair_to_weight s) (quantize_bias s) (dedicated_qdq_pair s)
    (tensor_to_its_receiving_nodes s) (qdq_op_domain s) (quantization_params s)
    (quantized_value_map s) (log s).

Definition with_tensors_to_quantize
    (f : odict.t QDQTensorQuantInfo → odict.t QDQTensorQuantInfo)
    (s : QDQQuantizer) : QDQQuantizer :=
  mkQuantizer (model s) (value_infos s) (per_channel s) (opset_version s)
    (weight_qType s) (activation_qType s) (tensor_quant_overrides s)
    (f (tensors_to_quantize s)) (bias_to_quantize s) (nodes_to_remove s)
    (add_qdq_pair_to_weight s) (quantize_bias s) (dedicated_qdq_pair s)
    (tensor_to_its_receiving_nodes s) (qdq_op_domain s) (quantization_params s)
    (quantized_value_map s) (log s).

Definition with_bias_to_quantize (f : list PendingBias → list PendingBias)
    (s : QDQQuantizer) : QDQQuantizer :=
  mkQuantizer (model s) (value_infos s) (per_channel s) (opset_version s)
    (weight_qType s) (activation_qType s) (tensor_quant_overrides s)
    (tensors_to_quantize s) (f (bias_to_quantize s)) (nodes_to_remove s)
    (add_qdq_pair_to_weight s) (quantize_bias s) (dedicated_qdq_pair s)
    (tensor_to_its_receiving_nodes s) (qdq_op_domain s) (quantization_params s)
    (quantized_value_map s) (log s).

Definition with_nodes_to_remove (f : list nat → list nat)
    (s : QDQQuantizer) : QDQQuantizer :=
  mkQuantizer (model s) (value_infos s) (per_channel s) (opset_version s)
    (weight_qType s) (activation_qType s) (tensor_quant_overrides s)
    (tensors_to_quantize s) (bias_to_quantize s) (f (nodes_to_remove s))
    (add_qdq_pair_to_weight s) (quantize_bias s) (dedicated_qdq_pair s)
    (tensor_to_its_receiving_nodes s) (qdq_op_domain s) (quantization_params s)
    (quantized_value_map s) (log s).

Definition with_receiving_nodes
    (f : gmap string (list nat) → gmap string (list nat))
    (s : QDQQuantizer) : QDQQuantizer :=
  mkQuantizer (model s) (value_infos s) (per_channel s) (opset_version s)
    (weight_qType s) (activation_qType s) (tensor_quant_overrides s)
    (tensors_to_quantize s) (bias_to_quantize s) (nodes_to_remove s)
    (add_qdq_pair_to_weight s) (quantize_bias s) (dedicated_qdq_pair s)
    (f (tensor_to_its_receiving_nodes s)) (qdq_op_domain s) (quantization_params s)
    (quantized_value_map s) (log s).

Definition with_quantized_value_map
    (f : gmap string QDQTensorQuantizedValue → gmap string QDQTensorQuantizedValue)
    (s : QDQQuantizer) : QDQQuantizer :=
  mkQuantizer (model s) (value_infos s) (per_channel s) (opset_version s)
    (weight_qType s) (activation_qType s) (tensor_quant_overrides s)
    (tensors_to_quantize s) (bias_to_quantize s) (nodes_to_remove s)
    (add_qdq_pair_to_weight s) (quantize_bias s) (dedicated_qdq_pair s)
    (tensor_to_its_receiving_nodes s) (qdq_op_domain s) (quantization_params s)
    (f (quantized_value_map s)) (log s).

Definition with_log (f : list diagnostic → list diagnostic)
    (s : QDQQuantizer) : QDQQuantizer :=
  mkQuantizer (model s) (value_infos s) (per_channel s) (opset_version s)
    (weight_qType s) (activation_qType s) (tensor_quant_overrides s)
    (tensors_to_quantize s) (bias_to_quantize s) (nodes_to_remove s)
    (add_qdq_pair_to_weight s) (quantize_bias s) (dedicated_qdq_pair s)
    (tensor_to_its_receiving_nodes s) (qdq_op_domain s) (quantization_params s)
    (quantized_value_map s) (f (log s)).

(** ** State and exceptions

    A method either returns a value and the mutated object, or raises with
    the object as mutated up to the [raise]; [Timeout] is the outcome of a
    [while] loop that is still running when its fuel is spent. *)
Inductive res (A : Type) :=
| Ok (a : A) (s : QDQQuantizer)
| Raise (e : exn) (s : QDQQuantizer)
| Timeout.
Arguments Ok {A} a s.
Arguments Raise {A} e s.
Arguments Timeout {A}.

Definition M (A : Type) : Type := QDQQuantizer → res A.

Definition M_ret {A} (a : A) : M A := λ s, Ok a s.

Definition M_bind {A B} (f : A → M B) (m : M A) : M B :=
  λ s, match m s with
       | Ok a s' => f a s'
       | Raise e s' => Raise e s'
       | Timeout => Timeout
       end.

#[global] Instance M_mret : MRet M := @M_ret.
#[global] Instance M_mbind : MBind M := @M_bind.

Definition raise {A} (e : exn) : M A := λ s, Raise e s.
Definition gets {A} (f : QDQQuantizer → A) : M A := λ s, Ok (f s) s.
Definition modify (f : QDQQuantizer → QDQQuantizer) : M unit := λ s, Ok tt (f s).

(** [for x in l: body x] *)
Fixpoint for_each {A} (l : list A) (body : A → M unit) : M unit :=
  match l with
  | [] => mret tt
  | x :: l' => body x ;; for_each l' body
  end.

Definition logging_warning (msg tensor : string) : M unit :=
  modify (with_log (λ l, l ++ [LogWarning msg tensor])).

Definition logging_info (msg tensor : string) : M unit :=
  modify (with_log (λ l, l ++ [LogInfo msg tensor])).

(** ** What the file imports

    The helpers of [quant_utils] are taken as parameters: the suffix
    functions that name the inserted tensors and nodes, the contrib-operator
    domain and the producer identity. *)
Class QuantUtils := {
  add_quant_suffix : string → string;
  add_quant_input_suffix : string → string;
  add_quant_output_suffix : string → string;
  add_dequant_suffix : string → string;
  add_dequant_output_suffix : string → string;
  ms_domain : string;
  producer__ : string;
  version__ : string
}.

Definition QUANT_OP_NAME : string := "QuantizeLinear".
Definition DEQUANT_OP_NAME : string := "DequantizeLinear".

(** The program an operator policy runs against the quantizer: the marking
    calls it may make, in order, branching on what the queries return. *)
Inductive policy :=
| Finish
| Quantize_activation_tensor (tensor : string) (k : policy)
| Quantize_output_same_as_input (out inp node : string) (k : policy)
| Quantize_weight_tensor (tensor : string) (k : policy)
| Quantize_weight_tensor_per_channel (tensor : string) (ax : Z) (k : policy)
| Quantize_bias_tensor (node bias inp weight : string) (beta : float) (k : policy)
| Remove_node (node : nat) (k : policy)
| Is_tensor_quantized (tensor : string) (k : bool → policy)
| Try_replacing_upstream_output (upstream out : string) (k : bool → policy).

(** The methods inherited from [BaseQuantizer] and the operator registry
    (absent) are parameters.  The [_impl] helpers quantize data and add
    initializers: they map the initializer list to the returned names and
    the new initializer list, or raise. *)
Class BaseQuantizer := {
  should_quantize_node : NodeProto → bool;
  CreateQDQQuantizer : QDQQuantizer → nat → policy;
  quantize_initializer_impl :
    TensorProto → Z → bool → bool → list TensorProto →
    exn + (string * string * string) * list TensorProto;
  quantize_weight_per_channel_impl :
    string → Z → Z → bool → bool → list TensorProto →
    exn + (string * string * string) * list TensorProto;
  quantize_bias_static_impl :
    string → TensorProto → TensorProto → float → list TensorProto →
    exn + (string * string * string * list float * option string * option Z)
          * list TensorProto
}.

(** Lifts an [_impl] helper to the quantizer object. *)
Definition call_impl {A}
    (f : list TensorProto → exn + A * list TensorProto) : M A :=
  λ s, match f (graph_initializer (model s)) with
       | inl e => Raise e s
       | inr (a, inits) => Ok a (with_model (with_initializers (λ _, inits)) s)
       end.

Section Quantizer.
Context `{!QuantUtils} `{!BaseQuantizer}.

(** ** Tensor registry *)

Definition _get_tensor_type (self : QDQQuantizer) (tensor_name : string) : option Z :=
  match find_by_name tensor_name (graph_initializer (model self)) with
  | Some weight => Some (tp_data_type weight)
  | None =>
      match value_infos self !! tensor_name with
      | Some (Some elem_type) => Some elem_type
      | _ => None
      end
  end.

Definition _is_tensor_quantizable (tensor_name : string) : M bool :=
  weight ← gets (λ self, find_by_name tensor_name (graph_initializer (model self)));
  match weight with
  | Some weight =>
      if is_float_kind (tp_data_type weight) then mret true else mret false
  | None =>
      vi ← gets (λ self, value_infos self !! tensor_name);
      match vi with
      | Some vi =>
          match vi with
          | Some elem_type => if is_float_kind elem_type then mret true else mret false
          | None => mret false
          end
      | None =>
          logging_warning "failed to infer the type of tensor" tensor_name ;;
          mret false
      end
  end.

(** [QDQTensorQuantInfo.__init__], with its assertion on [data_type]. *)
Definition new_QDQTensorQuantInfo (tensor_type : QDQQuantTensorType)
    (quant_para_provider : option QDQQuantParamProvider) (axis : option Z)
    (data_type : option Z) : M QDQTensorQuantInfo :=
  match data_type with
  | None => raise AssertionError
  | Some dt =>
      mret (mkInfo tensor_type quant_para_provider axis
                   (bool_decide (is_Some quant_para_provider)) dt)
  end.

Definition __quantize_tensor (tensor_name : string)
    (quant_sharing_provider : option QDQQuantParamProvider)
    (tensor_type : QDQQuantTensorType) : M unit :=
  quantizable ← _is_tensor_quantizable tensor_name;
  if quantizable : bool then
    match quant_sharing_provider with
    | Some provider =>
        data_type ← gets (λ self, _get_tensor_type self tensor_name);
        info ← new_QDQTensorQuantInfo tensor_type (Some provider) None data_type;
        modify (with_tensors_to_quantize (odict.set tensor_name info))
    | None =>
        registered ← gets (λ self, odict.mem tensor_name (tensors_to_quantize self));
        if registered : bool then mret tt
        else
          data_type ← gets (λ self, _get_tensor_type self tensor_name);
          info ← new_QDQTensorQuantInfo tensor_type None None data_type;
          modify (with_tensors_to_quantize (odict.set tensor_name info))
    end
  else mret tt.

Definition quantize_activation_tensor (tensor_name : string) : M unit :=
  __quantize_tensor tensor_name None ACTIVATION.

Definition quantize_output_same_as_input (output_name input_name node_name : string)
    : M unit :=
  __quantize_tensor output_name (Some (mkProvider input_name node_name)) ACTIVATION.

Definition quantize_weight_tensor (tensor_name : string) : M unit :=
  __quantize_tensor tensor_name None WEIGHT.

Definition quantize_weight_tensor_per_channel (tensor_name : string) (axis : Z)
    : M unit :=
  weight ← gets (λ self, find_by_name tensor_name (graph_initializer (model self)));
  match weight with
  | Some weight =>
      if is_float_kind (tp_data_type weight) then
        info ← new_QDQTensorQuantInfo WEIGHT None (Some axis)
                 (Some (tp_data_type weight));
        modify (with_tensors_to_quantize (odict.set tensor_name info))
      else mret tt
  | None =>
      logging_warning "only support per-channel quantization on weight" tensor_name
  end.

(** A Python list is true when it is not empty. *)
Definition truthy {A} (o : option (list A)) : bool :=
  match o with Some (_ :: _) => true | _ => false end.

Definition quantize_bias_tensor (node_name bias_name input_name weight_name : string)
    (beta : float) : M unit :=
  overrides ← gets (λ self, tensor_quant_overrides self !! bias_name);
  if truthy overrides then
    logging_info "Quantizing bias tensor as a weight" bias_name ;;
    pc ← gets per_channel;
    if pc : bool then quantize_weight_tensor_per_channel bias_name 0
    else quantize_weight_tensor bias_name
  else
    weight ← gets (λ self, find_by_name bias_name (graph_initializer (model self)));
    match weight with
    | Some weight =>
        if is_float_kind (tp_data_type weight) then
          modify (with_bias_to_quantize
                    (λ l, l ++ [mkPendingBias node_name bias_name input_name
                                              weight_name beta]))
        else mret tt
    | None => logging_warning "Expected to be a weight" bias_name
    end.

Definition remove_node (node : nat) : M unit :=
  modify (with_nodes_to_remove (λ l, l ++ [node])).

Definition remove_nodes : M unit :=
  modify (λ self, with_model (ONNXModel.remove_nodes (nodes_to_remove self)) self).

Definition is_tensor_quantized (tensor_name : string) : M bool :=
  gets (λ self, odict.mem tensor_name (tensors_to_quantize self)).

Definition del_tensors_to_quantize (tensor_name : string) : M unit :=
  present ← gets (λ self, odict.mem tensor_name (tensors_to_quantize self));
  if present : bool then modify (with_tensors_to_quantize (odict.del tensor_name))
  else raise (KeyError tensor_name).

Definition try_replacing_upstream_output (upstream_output_name output_name : string)
    : M bool :=
  qparams ← gets quantization_params;
  match qparams with
  | None => raise (TypeError "argument of type NoneType is not iterable")
  | Some qparams =>
      if bool_decide (is_Some (qparams !! output_name)) then
        readers ← gets (λ self,
          ONNXModel.input_name_to_nodes_len (model self) upstream_output_name);
        match readers with
        | None => raise (KeyError upstream_output_name)
        | Some n =>
            is_out ← gets (λ self, ONNXModel.is_graph_output (model self) upstream_output_name);
            is_in ← gets (λ self, ONNXModel.is_graph_input (model self) upstream_output_name);
            if bool_decide (n = 1) && negb is_out && negb is_in then
              modify (with_model (ONNXModel.replace_output_of_all_nodes
                                    upstream_output_name output_name)) ;;
              registered ← is_tensor_quantized upstream_output_name;
              (if registered : bool then del_tensors_to_quantize upstream_output_name
               else mret tt) ;;
              mret true
            else mret false
        end
      else mret false
  end.

(** ** Node emission *)

Definition make_node (op : string) (inputs outputs : list string) (nm : string)
    (axis : option Z) (dom : option string) : NodeProto :=
  mkNode op inputs outputs nm axis None dom.

Definition q_node (self : QDQQuantizer) (q_input q_output quant_node_name
    scale_name zp_name : string) (axis : option Z) : NodeProto :=
  make_node QUANT_OP_NAME [q_input; scale_name; zp_name] [q_output]
            quant_node_name axis (qdq_op_domain self).

Definition dq_node (self : QDQQuantizer) (dq_input dq_output dequant_node_name
    scale_name zp_name : string) (axis : option Z) : NodeProto :=
  make_node DEQUANT_OP_NAME [dq_input; scale_name; zp_name] [dq_output]
            dequant_node_name axis (qdq_op_domain self).

Definition _create_q_node (q_input q_output quant_node_name scale_name zp_name : string)
    (axis : option Z) : M unit :=
  modify (λ self, with_model (ONNXModel.add_nodes
    [q_node self q_input q_output quant_node_name scale_name zp_name axis]) self).

Definition _create_dq_node (dq_input dq_output dequant_node_name scale_name zp_name : string)
    (axis : option Z) : M unit :=
  modify (λ self, with_model (ONNXModel.add_nodes
    [dq_node self dq_input dq_output dequant_node_name scale_name zp_name axis]) self).

Definition _create_qdq_nodes (q_input q_output quant_node_name dq_input dq_output
    dequant_node_name scale_name zp_name : string) (axis : option Z) : M unit :=
  modify (λ self, with_model (ONNXModel.add_nodes
    [q_node self q_input q_output quant_node_name scale_name zp_name axis;
     dq_node self dq_input dq_output dequant_node_name scale_name zp_name axis]) self).

(** ** Quantized-value store: initializers and biases *)

Definition stored_names (qv : QuantizedValue) : string * string * string :=
  (q_name qv, zp_name qv, scale_name qv).

Definition quantize_initializer (weight : TensorProto) (qType : Z)
    (reduce_range keep_float_weight : bool) : M (string * string * string) :=
  stored ← gets (λ self, quantized_value_map self !! tp_name weight);
  match stored with
  | Some stored => mret (stored_names (original stored))
  | None =>
      '(q_weight_name, zp_name, scale_name) ←
        call_impl (quantize_initializer_impl weight qType reduce_range keep_float_weight);
      let quantized_value :=
        mkQV (tp_name weight) q_weight_name scale_name zp_name VInitializer
             None None None None in
      modify (with_quantized_value_map
                (<[tp_name weight := mkTQV quantized_value None None]>)) ;;
      mret (q_weight_name, zp_name, scale_name)
  end.

Definition quantize_weight_per_channel (weight_name : string) (weight_qType : Z)
    (channel_axis : Z) (reduce_range keep_float_weight : bool)
    : M (string * string * string) :=
  stored ← gets (λ self, quantized_value_map self !! weight_name);
  match stored with
  | Some stored => mret (stored_names (original stored))
  | None =>
      '(q_weight_name, zp_name, scale_name) ←
        call_impl (quantize_weight_per_channel_impl weight_name weight_qType
                     channel_axis reduce_range keep_float_weight);
      let quantized_value :=
        mkQV weight_name q_weight_name scale_name zp_name VInitializer
             None None None None in
      modify (with_quantized_value_map
                (<[weight_name := mkTQV quantized_value None None]>)) ;;
      mret (q_weight_name, zp_name, scale_name)
  end.

(** [self.quantized_value_map[k]] *)
Definition quantized_value_map_at (k : string) : M QDQTensorQuantizedValue :=
  stored ← gets (λ self, quantized_value_map self !! k);
  match stored with
  | Some v => mret v
  | None => raise (KeyError k)
  end.

(** [tensor_proto_to_array(find_by_name(name, initializers))] *)
Definition initializer_array (nm : string) : M TensorProto :=
  init ← gets (λ self, find_by_name nm (graph_initializer (model self)));
  match init with
  | Some init => mret init
  | None => raise AttributeError
  end.

Definition quantize_bias_static (node_name bias_name input_name weight_name : string)
    (beta : float) : M string :=
  stored ← gets (λ self, quantized_value_map self !! bias_name);
  match stored with
  | Some stored => mret (q_name (original stored))
  | None =>
      weight_value ← quantized_value_map_at weight_name;
      weight_scale ← initializer_array (scale_name (original weight_value));
      input_value ← quantized_value_map_at input_name;
      input_scale ← initializer_array
                      (scale_name (get_for_consumer input_value node_name));
      '(quantized_bias_name, quantized_bias_scale_name, quantized_bias_zp_name,
        bias_scale_data, node_type, node_qtype) ←
        call_impl (quantize_bias_static_impl bias_name input_scale weight_scale beta);
      let quantized_value :=
        mkQV bias_name quantized_bias_name quantized_bias_scale_name
             quantized_bias_zp_name VInitializer
             (if decide (1 < length bias_scale_data) then Some 0%Z else None)
             node_type node_qtype None in
      modify (with_quantized_value_map
                (<[bias_name := mkTQV quantized_value None None]>)) ;;
      mret quantized_bias_name
  end.

(** ** Quantization-parameter initializers *)

Definition make_tensor (nm : string) (dt : Z) (dims : list Z) (vals : list scalar)
    : TensorProto := mkTensor nm dt dims vals.

Definition __make_initializers (param_name : string) (params : QuantizationParams)
    (init_name_suffix : string) : M QDQQuantParamsInitializers :=
  match scale_dtype params with
  | None | Some np_float64 => raise (ValueError "Unexpected type of scale")
  | Some dtype =>
      act ← gets activation_qType;
      let zero_point_type := default act (quant_type params) in
      let zero_point_name := param_name +:+ "_zero_point" +:+ init_name_suffix in
      let scale_name := param_name +:+ "_scale" +:+ init_name_suffix in
      let init_zp := make_tensor zero_point_name zero_point_type [] [zero_point params] in
      modify (with_model (ONNXModel.add_initializer init_zp)) ;;
      let scale_type := match dtype with np_float32 => FLOAT | _ => FLOAT16 end in
      let init_scale := make_tensor scale_name scale_type [] [SFloat (scale params)] in
      modify (with_model (ONNXModel.add_initializer init_scale)) ;;
      mret (mkInits init_scale init_zp)
  end.

Definition _create_quantization_initializers (param_name : string)
    : M (option QDQTensorQuantParamsInitializers) :=
  qparams ← gets quantization_params;
  match qparams ≫= (λ m, m !! param_name) with
  | None =>
      logging_info "Quantization parameters not specified" param_name ;;
      mret None
  | Some tensor_params =>
      original_inits ← __make_initializers param_name (tqp_original tensor_params) "";
      converted_inits ←
        match tqp_converted tensor_params with
        | Some conv =>
            inits ← __make_initializers param_name conv "_convert"; mret (Some inits)
        | None => mret None
        end;
      mret (Some (mkTInits original_inits converted_inits
                           (tqp_converted_recv_nodes tensor_params)))
  end.

(** ** Graph rewriter *)

Definition _add_qdq_pair_for_initializer (weight_proto : TensorProto)
    (tensor_type : QDQQuantTensorType) (axis : option Z) : M unit :=
  let weight_name := tp_name weight_proto in
  keep ← gets add_qdq_pair_to_weight;
  '(q_weight_name, zp_name, scale_name) ←
    match axis with
    | Some ax =>
        opset ← gets opset_version;
        if decide (opset < 13)%Z then
          raise (ValueError "Per-Channel support with QDQ format requires onnx opset version 13 or above.")
        else
          act ← gets activation_qType;
          let qtype := if decide (act = UINT8) then INT8 else act in
          quantize_weight_per_channel weight_name qtype ax true keep
    | None =>
        qtype ← gets (λ self, match tensor_type with
                              | WEIGHT => weight_qType self
                              | _ => activation_qType self
                              end);
        quantize_initializer weight_proto qtype false keep
    end;
  let weight_dequant_output := add_dequant_output_suffix weight_name in
  modify (with_model (ONNXModel.replace_input_of_all_nodes weight_name
                        weight_dequant_output)) ;;
  if keep : bool then
    let weight_quant_output := add_quant_output_suffix weight_name in
    _create_qdq_nodes weight_name weight_quant_output (add_quant_suffix weight_name)
      weight_quant_output weight_dequant_output (add_dequant_suffix weight_name)
      scale_name zp_name axis
  else
    modify (λ self, with_model (ONNXModel.add_node
      (dq_node self q_weight_name weight_dequant_output
               (add_dequant_suffix weight_name) scale_name zp_name axis)) self).

(** [f"_{i + 1}"] *)
Definition postfix (i : nat) : string := "_" +:+ pretty (i + 1).

(** The guard shared by both activation rewriters: dedicated pairs are on and
    the tensor has more than one recorded consumer. *)
Definition wants_dedicated_pairs (self : QDQQuantizer) (tensor_name : string) : bool :=
  dedicated_qdq_pair self &&
  match tensor_to_its_receiving_nodes self !! tensor_name with
  | Some recv => bool_decide (1 < length recv)
  | None => false
  end.

Definition activation_value (tensor_name dq_output scale_name zp_name : string)
    (data_type : option Z) : QDQTensorQuantizedValue :=
  mkTQV (mkQV tensor_name dq_output scale_name zp_name VInput None None None data_type)
        None None.

Definition _add_qdq_pair_for_activation (tensor_name scale_name zp_name : string)
    (data_type : option Z) : M unit :=
  dedicated ← gets (λ self, wants_dedicated_pairs self tensor_name);
  if dedicated : bool then
    num_dedicated_qdq_pair ← gets (λ self,
      length (default [] (tensor_to_its_receiving_nodes self !! tensor_name)));
    for_each (seq 0 num_dedicated_qdq_pair) (λ i,
      let tensor_name_quant_output_postfix :=
        add_quant_output_suffix tensor_name +:+ postfix i in
      let tensor_name_dequant_output_postfix :=
        add_dequant_output_suffix tensor_name +:+ postfix i in
      let quant_node_name_postfix := add_quant_suffix tensor_name +:+ postfix i in
      let dequant_node_name_postfix := add_dequant_suffix tensor_name +:+ postfix i in
      _create_qdq_nodes tensor_name tensor_name_quant_output_postfix
        quant_node_name_postfix tensor_name_quant_output_postfix
        tensor_name_dequant_output_postfix dequant_node_name_postfix
        scale_name zp_name None ;;
      node ← gets (λ self,
        default [] (tensor_to_its_receiving_nodes self !! tensor_name) !! i);
      match node with
      | None => raise IndexError
      | Some node =>
          modify (with_model (ONNXModel.replace_node_input node tensor_name
                                tensor_name_dequant_output_postfix)) ;;
          if decide (i = 0) then
            modify (with_quantized_value_map
              (<[tensor_name := activation_value tensor_name
                   tensor_name_dequant_output_postfix scale_name zp_name data_type]>))
          else mret tt
      end)
  else
    is_out ← gets (λ self, ONNXModel.is_graph_output (model self) tensor_name);
    let q_input := if is_out : bool then add_quant_input_suffix tensor_name
                   else tensor_name in
    let dq_output := if is_out : bool then tensor_name
                     else add_dequant_output_suffix tensor_name in
    (if is_out : bool then
       modify (with_model (ONNXModel.replace_output_of_all_nodes tensor_name q_input))
     else
       modify (with_model (ONNXModel.replace_input_of_all_nodes tensor_name dq_output))) ;;
    _create_qdq_nodes q_input (add_quant_output_suffix tensor_name)
      (add_quant_suffix tensor_name) (add_quant_output_suffix tensor_name)
      dq_output (add_dequant_suffix tensor_name) scale_name zp_name None ;;
    modify (with_quantized_value_map
      (<[tensor_name := activation_value tensor_name dq_output scale_name zp_name
                          data_type]>)).

(** Names of the nodes recorded as consumers of a tensor. *)
Definition recv_node_names (self : QDQQuantizer) (recv : list nat) : gset string :=
  list_to_set (omap (λ i, name <$> graph_node (model self) !! i) recv).

Definition _add_qdq_ops_for_converted_activation (tensor_name first_scale_name
    first_zp_name : string) (scale_data_type : Z) (convert_scale_name
    convert_zp_name : string) (convert_recv_nodes : option (gset string)) : M unit :=
  recv ← gets (λ self, tensor_to_its_receiving_nodes self !! tensor_name);
  match recv with
  | None => raise (KeyError tensor_name)
  | Some recv =>
      tensor_recv_nodes ← gets (λ self, recv_node_names self recv);
      dedicated ← gets (λ self, wants_dedicated_pairs self tensor_name);
      if dedicated : bool then
        raise (ValueError "Do not currently support converted quant_types in TensorQuantOverrides when the `dedicated_qdq_pair` extra_option is enabled")
      else
        let original_recv_nodes :=
          match convert_recv_nodes with
          | None => ∅
          | Some conv => tensor_recv_nodes ∖ conv
          end in
        let convert_recv_nodes := default tensor_recv_nodes convert_recv_nodes in
        let all_use_converted :=
          bool_decide (size convert_recv_nodes = size tensor_recv_nodes) in
        is_graph_output ← gets (λ self,
          ONNXModel.is_graph_output (model self) tensor_name);
        let first_q_input := if is_graph_output : bool
                             then add_quant_input_suffix tensor_name
                             else tensor_name in
        (if is_graph_output : bool then
           modify (with_model (ONNXModel.replace_output_of_all_nodes tensor_name
                                 first_q_input))
         else mret tt) ;;
        let first_q_output := add_quant_output_suffix tensor_name in
        _create_q_node first_q_input first_q_output (add_quant_suffix tensor_name)
          first_scale_name first_zp_name None ;;
        let first_dq_output :=
          if is_graph_output && negb all_use_converted then tensor_name
          else add_dequant_output_suffix tensor_name in
        (if negb (bool_decide (original_recv_nodes = ∅))
            && negb (bool_decide (first_dq_output = tensor_name)) then
           modify (with_model (ONNXModel.replace_input_of_nodes tensor_name
                                 first_dq_output original_recv_nodes))
         else mret tt) ;;
        _create_dq_node first_q_output first_dq_output (add_dequant_suffix tensor_name)
          first_scale_name first_zp_name None ;;
        let second_q_input :=
          if all_use_converted then first_dq_output
          else add_quant_input_suffix (tensor_name +:+ "_convert") in
        (if all_use_converted then mret tt
         else
           _create_dq_node first_q_output second_q_input
             (add_dequant_suffix (tensor_name +:+ "_convert_clone"))
             first_scale_name first_zp_name None) ;;
        let second_q_output := add_quant_output_suffix (tensor_name +:+ "_convert") in
        _create_q_node second_q_input second_q_output
          (add_quant_suffix (tensor_name +:+ "_convert"))
          convert_scale_name convert_zp_name None ;;
        let second_dq_output :=
          if is_graph_output && all_use_converted then tensor_name
          else add_dequant_output_suffix (tensor_name +:+ "_convert") in
        (if negb (bool_decide (convert_recv_nodes = ∅))
            && negb (bool_decide (second_dq_output = tensor_name)) then
           modify (with_model (ONNXModel.replace_input_of_nodes tensor_name
                                 second_dq_output convert_recv_nodes))
         else mret tt) ;;
        _create_dq_node second_q_output second_dq_output
          (add_dequant_suffix (tensor_name +:+ "_convert"))
          convert_scale_name convert_zp_name None ;;
        let original_quantized_value :=
          mkQV tensor_name first_dq_output first_scale_name first_zp_name VInput
               None None None (Some scale_data_type) in
        let converted_quantized_value :=
          mkQV tensor_name second_dq_output convert_scale_name convert_zp_name VInput
               None None None (Some scale_data_type) in
        modify (with_quantized_value_map
          (<[tensor_name := mkTQV original_quantized_value
               (Some converted_quantized_value) (Some convert_recv_nodes)]>))
  end.

(** ** The passes *)

(** Modelled from the spec: [is_input_a_initializer] of the base quantizer
    (absent) tests whether the tensor is a graph initializer (a weight). *)
Definition is_input_a_initializer (self : QDQQuantizer) (input_name : string) : bool :=
  bool_decide (is_Some (find_by_name input_name (graph_initializer (model self)))).

Definition _quantize_normal_tensor (entry : string * QDQTensorQuantInfo) : M unit :=
  let '(tensor_name, tensor_info) := entry in
  resolved ← gets (λ self, bool_decide (is_Some (quantized_value_map self !! tensor_name)));
  if resolved : bool then mret tt
  else if is_shared tensor_info then mret tt
  else
    initializer ← gets (λ self, find_by_name tensor_name (graph_initializer (model self)));
    match initializer with
    | Some initializer =>
        _add_qdq_pair_for_initializer initializer (tensor_type tensor_info)
          (axis tensor_info)
    | None =>
        quant_params_initializers ← _create_quantization_initializers tensor_name;
        match quant_params_initializers with
        | None => raise (ValueError "Quantization parameters are not specified for param")
        | Some inits =>
            match inits_converted inits with
            | None =>
                _add_qdq_pair_for_activation tensor_name
                  (tp_name (init_scale (inits_original inits)))
                  (tp_name (init_zero_point (inits_original inits)))
                  (Some (data_type tensor_info))
            | Some conv =>
                if decide (data_type tensor_info
                           = tp_data_type (init_scale (inits_original inits))) then
                  _add_qdq_ops_for_converted_activation tensor_name
                    (tp_name (init_scale (inits_original inits)))
                    (tp_name (init_zero_point (inits_original inits)))
                    (data_type tensor_info)
                    (tp_name (init_scale conv))
                    (tp_name (init_zero_point conv))
                    (inits_converted_recv_nodes inits)
                else raise AssertionError
            end
        end
    end ;;
    del_tensors_to_quantize tensor_name.

Definition _quantize_normal_tensors : M unit :=
  snapshot ← gets tensors_to_quantize;
  for_each snapshot _quantize_normal_tensor.

(** One entry of one scan of the sharing loop. *)
Definition _quantize_sharing_param_tensor (entry : string * QDQTensorQuantInfo)
    : M unit :=
  let '(tensor_name, tensor_info) := entry in
  match quant_para_provider tensor_info with
  | None => mret tt
  | Some quant_provider =>
      provider_value ← gets (λ self, quantized_value_map self !! input_name quant_provider);
      match provider_value with
      | None => mret tt
      | Some provider_value =>
          del_tensors_to_quantize tensor_name ;;
          let quantized_value :=
            get_for_consumer provider_value (node_name quant_provider) in
          is_weight ← gets (λ self, is_input_a_initializer self tensor_name);
          if is_weight : bool then
            raise (ValueError "Quantization parameter shared mode is not supported for weight yet")
          else
            qparams ← gets quantization_params;
            match qparams with
            | None => raise (TypeError "argument of type NoneType is not iterable")
            | Some qparams =>
                match qparams !! tensor_name ≫= tqp_converted with
                | Some conv =>
                    converted_qparam_inits ←
                      __make_initializers tensor_name conv "_convert";
                    let converted_recv_nodes :=
                      qparams !! tensor_name ≫= tqp_converted_recv_nodes in
                    _add_qdq_ops_for_converted_activation tensor_name
                      (scale_name quantized_value) (zp_name quantized_value)
                      (tp_data_type (init_scale converted_qparam_inits))
                      (tp_name (init_scale converted_qparam_inits))
                      (tp_name (init_zero_point converted_qparam_inits))
                      converted_recv_nodes
                | None =>
                    _add_qdq_pair_for_activation tensor_name
                      (scale_name quantized_value) (zp_name quantized_value) None
                end
            end
      end
  end.

(** One full scan over a snapshot of the unresolved tensors. *)
Definition sharing_scan : M unit :=
  snapshot ← gets tensors_to_quantize;
  for_each snapshot _quantize_sharing_param_tensor.

(** [while self.tensors_to_quantize: <scan>]; the fuel bounds the number of
    scans. *)
Fixpoint _quantize_sharing_param_tensors (fuel : nat) : M unit :=
  match fuel with
  | 0 => λ _, Timeout
  | S fuel =>
      pending ← gets tensors_to_quantize;
      match pending with
      | [] => mret tt
      | _ :: _ => sharing_scan ;; _quantize_sharing_param_tensors fuel
      end
  end.

Definition is_float_qtype (t : Z) : bool :=
  bool_decide (t = FLOAT16) || bool_decide (t = BFLOAT16) || bool_decide (t = FLOAT).

Definition _quantize_bias_tensor (b : PendingBias) : M unit :=
  let bias_name := pb_bias_name b in
  resolved ← gets (λ self, bool_decide (is_Some (quantized_value_map self !! bias_name)));
  if resolved : bool then mret tt
  else
    quantize_bias_static (pb_node_name b) bias_name (pb_input_name b)
      (pb_weight_name b) (pb_beta b) ;;
    init ← gets (λ self, find_by_name bias_name (graph_initializer (model self)));
    modify (with_model (ONNXModel.remove_initializer init)) ;;
    stored ← quantized_value_map_at bias_name;
    let quant_value := original stored in
    let node_name := add_dequant_suffix bias_name in
    dom ← gets qdq_op_domain;
    dequant_node ←
      match node_type quant_value with
      | Some "Cast" =>
          match init with
          | None => raise AttributeError
          | Some init =>
              mret (mkNode "Cast" [q_name quant_value] [bias_name] node_name None
                           (Some (tp_data_type init)) None)
          end
      | None | Some "DequantizeLinear" =>
          if match node_qtype quant_value with
             | Some t => is_float_qtype t
             | None => false
             end
          then raise (RuntimeError "Unexpected quantize type for DequantizeLinear.")
          else
            mret (make_node "DequantizeLinear"
                    [q_name quant_value; scale_name quant_value; zp_name quant_value]
                    [bias_name] node_name (qv_axis quant_value) dom)
      | Some _ => raise (RuntimeError "Unexpected operator type.")
      end;
    modify (with_model (ONNXModel.add_node dequant_node)).

Definition _quantize_bias_tensors : M unit :=
  pending ← gets bias_to_quantize;
  for_each pending _quantize_bias_tensor.

(** Runs the marking calls of an operator policy. *)
Fixpoint run_policy (p : policy) : M unit :=
  match p with
  | Finish => mret tt
  | Quantize_activation_tensor t k => quantize_activation_tensor t ;; run_policy k
  | Quantize_output_same_as_input out inp node k =>
      quantize_output_same_as_input out inp node ;; run_policy k
  | Quantize_weight_tensor t k => quantize_weight_tensor t ;; run_policy k
  | Quantize_weight_tensor_per_channel t ax k =>
      quantize_weight_tensor_per_channel t ax ;; run_policy k
  | Quantize_bias_tensor node bias inp weight beta k =>
      quantize_bias_tensor node bias inp weight beta ;; run_policy k
  | Remove_node node k => remove_node node ;; run_policy k
  | Is_tensor_quantized t k => b ← is_tensor_quantized t; run_policy (k b)
  | Try_replacing_upstream_output up out k =>
      b ← try_replacing_upstream_output up out; run_policy (k b)
  end.

Definition record_receiving_node (node : nat) (tensor_name : string) : M unit :=
  modify (with_receiving_nodes (λ m,
    <[tensor_name := default [] (m !! tensor_name) ++ [node]]> m)).

(** The marking loop of [quantize_model], for the node at position [i]. *)
Definition mark_node (i : nat) : M unit :=
  node ← gets (λ self, graph_node (model self) !! i);
  match node with
  | None => mret tt
  | Some node =>
      if should_quantize_node node then
        op_quantizer ← gets (λ self, CreateQDQQuantizer self i);
        run_policy op_quantizer ;;
        inputs ← gets (λ self, default [] (input <$> graph_node (model self) !! i));
        for_each inputs (record_receiving_node i)
      else mret tt
  end.

Definition mark_nodes : M unit :=
  n ← gets (λ self, length (graph_node (model self)));
  for_each (seq 0 n) mark_node.

(** The passes of [quantize_model] that precede the deferred removal. *)
Definition quantize_passes (fuel : nat) : M unit :=
  mark_nodes ;;
  _quantize_normal_tensors ;;
  _quantize_sharing_param_tensors fuel ;;
  quantize_biases ← gets quantize_bias;
  if quantize_biases : bool then _quantize_bias_tensors else mret tt.

Definition finalize : M unit :=
  keep ← gets add_qdq_pair_to_weight;
  (if keep : bool then mret tt
   else modify (with_model ONNXModel.clean_initializers)) ;;
  modify (with_model (ONNXModel.set_producer producer__ version__)) ;;
  dom ← gets qdq_op_domain;
  if bool_decide (dom = Some ms_domain) then
    modify (with_model (ONNXModel.set_opset_import ms_domain 1))
  else mret tt.

Definition quantize_model (fuel : nat) : M ONNXModel :=
  quantize_passes fuel ;;
  remove_nodes ;;
  finalize ;;
  gets model.

End Quantizer.

(** ** Pure readings of the registry tests *)

Section Readings.
Context `{!QuantUtils} `{!BaseQuantizer}.

(** The tensor is an initializer or has a value-info entry. *)
Definition is_known (self : QDQQuantizer) (tensor_name : string) : bool :=
  bool_decide (is_Some (find_by_name tensor_name (graph_initializer (model self))))
  || bool_decide (is_Some (value_infos self !! tensor_name)).

(** What [_is_tensor_quantizable] answers. *)
Definition quantizable (self : QDQQuantizer) (tensor_name : string) : bool :=
  match _get_tensor_type self tensor_name with
  | Some dt => is_float_kind dt
  | None => false
  end.

(** Every registered tensor passed the eligibility test. *)
Definition registry_ok (self : QDQQuantizer) : Prop :=
  ∀ tensor_name info,
    odict.get tensor_name (tensors_to_quantize self) = Some info →
    quantizable self tensor_name = true.

End Readings.

(** ** A concrete environment

    Suffixes as [quant_utils] spells them, an operator policy that marks
    every input of a node as an activation, and [_impl] helpers that only
    name their results; used to run the model on concrete graphs. *)
Module Example.

Definition utils : QuantUtils := {|
  add_quant_suffix s := s +:+ "_QuantizeLinear";
  add_quant_input_suffix s := s +:+ "_QuantizeLinear_Input";
  add_quant_output_suffix s := s +:+ "_QuantizeLinear_Output";
  add_dequant_suffix s := s +:+ "_DequantizeLinear";
  add_dequant_output_suffix s := s +:+ "_DequantizeLinear_Output";
  ms_domain := "com.microsoft";
  producer__ := "onnx.quantize";
  version__ := "0.1.0"
|}.

Definition base : BaseQuantizer := {|
  should_quantize_node _ := true;
  CreateQDQQuantizer self node :=
    foldr Quantize_activation_tensor Finish
          (default [] (input <$> graph_node (model self) !! node));
  quantize_initializer_impl weight _ _ _ inits :=
    inr ((tp_name weight +:+ "_quantized", tp_name weight +:+ "_zero_point",
          tp_name weight +:+ "_scale"), inits);
  quantize_weight_per_channel_impl weight_name _ _ _ _ inits :=
    inr ((weight_name +:+ "_quantized", weight_name +:+ "_zero_point",
          weight_name +:+ "_scale"), inits);
  quantize_bias_static_impl bias_name _ _ _ inits :=
    inr ((bias_name +:+ "_quantized", bias_name +:+ "_quantized_scale",
          bias_name +:+ "_quantized_zero_point", [1%float], None, None), inits)
|}.

Definition graph (nodes : list NodeProto) (inits : list TensorProto)
    (outputs : list string) : ONNXModel :=
  mkModel nodes inits [] outputs "" "" [].

(** A quantizer as [__init__] leaves it, over the given graph. *)
Definition quantizer (m : ONNXModel) (vis : gmap string (option Z))
    (dedicated : bool)
    (qparams : gmap string QDQTensorQuantParams) : QDQQuantizer :=
  mkQuantizer m vis false 13 INT8 UINT8 ∅ [] [] [] false true dedicated ∅ None
              (Some qparams) ∅ [].

Definition op (ty nm : string) (ins outs : list string) : NodeProto :=
  mkNode ty ins outs nm None None None.

(** Scalar parameters with a float32 scale. *)
Definition qparams32 : QuantizationParams :=
  mkQParams (SInt 0) 0.5%float (Some np_float32) None.

Definition plain (p : QuantizationParams) : QDQTensorQuantParams :=
  mkTQParams p None None.

Definition float_infos (names : list string) : gmap string (option Z) :=
  list_to_map ((λ n, (n, Some FLOAT)) <$> names).

(** [y = Mul(x, x)]: one node reads [x] twice. *)
Definition square : QDQQuantizer :=
  quantizer (graph [op "Mul" "mul" ["x"; "x"] ["y"]] [] ["y"])
            (float_infos ["x"; "y"]) true (<["x" := plain qparams32]> ∅).

(** [a = Relu(x)], [b = Sigmoid(x)]: two nodes read [x]. *)
Definition fork (dedicated : bool) (outputs : list string)
    (qparams : gmap string QDQTensorQuantParams) : QDQQuantizer :=
  quantizer (graph [op "Relu" "relu" ["x"] ["a"]; op "Sigmoid" "sigmoid" ["x"] ["b"]]
                   [] outputs)
            (float_infos ["x"; "a"; "b"]) dedicated qparams.

(** A registry entry that shares the parameters of [provider], as consumed
    by [node]. *)
Definition sharing (provider node : string) : QDQTensorQuantInfo :=
  mkInfo ACTIVATION (Some (mkProvider provider node)) None true FLOAT.

Definition pipe (producer : string) : ONNXModel :=
  graph [op "Reshape" "a" [producer] ["T1"]; op "Transpose" "b" ["T1"] ["T2"]] [] [].

(** [T1] shares from [T2] and [T2] from [T1]. *)
Definition cyclic : QDQQuantizer :=
  with_tensors_to_quantize (λ _, [("T1", sharing "T2" "a"); ("T2", sharing "T1" "b")])
    (quantizer (pipe "T2") (float_infos ["T1"; "T2"]) false ∅).

(** [T1] shares from [T0], which is neither registered nor resolved. *)
Definition dangling : QDQQuantizer :=
  with_tensors_to_quantize (λ _, [("T1", sharing "T0" "a")])
    (quantizer (pipe "T0") (float_infos ["T1"; "T2"]) false ∅).

(** [T2] shares from [T1], [T1] from [T0], and [T0] is resolved. *)
Definition chain : QDQQuantizer :=
  with_quantized_value_map
    (λ _, <["T0" := activation_value "T0" "T0_DequantizeLinear_Output" "T0_scale"
                      "T0_zero_point" (Some FLOAT)]> ∅)
    (with_tensors_to_quantize
       (λ _, [("T2", sharing "T1" "b"); ("T1", sharing "T0" "a")])
       (quantizer (pipe "T0") (float_infos ["T0"; "T1"; "T2"]) false ∅)).

(** [fork] after the marking loop recorded the consumers of [x]. *)
Definition fork_marked (dedicated : bool) (outputs : list string)
    (qparams : gmap string QDQTensorQuantParams) : QDQQuantizer :=
  with_receiving_nodes (λ _, <["x" := [0; 1]]> ∅) (fork dedicated outputs qparams).



End Example.

(** ** Vocabulary of the properties *)

Section Vocabulary.
Context `{!QuantUtils} `{!BaseQuantizer}.

(** The two warnings of the registry. *)
Definition failed_to_infer (tensor_name : string) : diagnostic :=
  LogWarning "failed to infer the type of tensor" tensor_name.

Definition per_channel_needs_weight (tensor_name : string) : diagnostic :=
  LogWarning "only support per-channel quantization on weight" tensor_name.

(** [y = Relu(x)] with a float initializer [b]. *)
Definition relu_graph : ONNXModel :=
  Example.graph [Example.op "Relu" "relu" ["x"] ["y"]]
                [mkTensor "b" FLOAT [1%Z] [SFloat 0.5%float]] ["y"].

Definition relu_quantizer (vis : gmap string (option Z)) : QDQQuantizer :=
  Example.quantizer relu_graph vis false ∅.

(** [respects R T m]: from every state, [m] ends, normally or by raising, in
    a state related to the initial one by [R]; it may run out of fuel only
    if [T] holds. *)
Definition respects {A} (R : relation QDQQuantizer) (T : Prop) (m : M A) : Prop :=
  ∀ s, match m s with
       | Ok _ s' | Raise _ s' => R s s'
       | Timeout => T
       end.

(** The same node object, possibly rewired: inputs and outputs may have been
    renamed, nothing else. *)
Definition same_node (n n' : NodeProto) : Prop :=
  op_type n' = op_type n ∧ name n' = name n ∧ attr_axis n' = attr_axis n ∧
  attr_to n' = attr_to n ∧ domain n' = domain n ∧
  length (input n') = length (input n) ∧ length (output n') = length (output n).

(** Every node of [l] is still in [l'], at its position; [l'] may hold more
    nodes after them. *)
Definition store_extends (l l' : list NodeProto) : Prop :=
  ∃ kept added, l' = kept ++ added ∧ Forall2 same_node l kept.

(** No node has left the graph between [s] and [s']. *)
Definition nodes_kept (s s' : QDQQuantizer) : Prop :=
  store_extends (graph_node (model s)) (graph_node (model s')).

(** The error of the dual-path rewriter in dedicated-pair mode. *)
Definition dedicated_unsupported : exn :=
  ValueError "Do not currently support converted quant_types in TensorQuantOverrides when the `dedicated_qdq_pair` extra_option is enabled".

(** Marking leaves initializers and value infos alone and keeps the
    registry well formed. *)
Definition marking_frame (s s' : QDQQuantizer) : Prop :=
  graph_initializer (model s') = graph_initializer (model s) ∧
  value_infos s' = value_infos s ∧
  (registry_ok s → registry_ok s').

(** Every recorded consumer is a position of the node store. *)
Definition consumers_valid (s : QDQQuantizer) : Prop :=
  ∀ t recv, tensor_to_its_receiving_nodes s !! t = Some recv →
            Forall (λ r, r < length (graph_node (model s))) recv.

(** The store keeps its size and, when [i] is a position of it, recording
    consumers keeps them valid. *)
Definition recording_frame (i : nat) (s s' : QDQQuantizer) : Prop :=
  length (graph_node (model s')) = length (graph_node (model s)) ∧
  (i < length (graph_node (model s)) → consumers_valid s → consumers_valid s').

(** The node store and the quantizer's bookkeeping are as in [st]. *)
Definition only_initializers_added (st st' : QDQQuantizer) : Prop :=
  graph_node (model st') = graph_node (model st) ∧
  quantized_value_map st' = quantized_value_map st ∧
  tensors_to_quantize st' = tensors_to_quantize st ∧
  dedicated_qdq_pair st' = dedicated_qdq_pair st ∧
  tensor_to_its_receiving_nodes st' = tensor_to_its_receiving_nodes st.


(** Output name of the DQ node of the [i]-th dedicated pair (from 0). *)
Definition dq_output_name (t : string) (i : nat) : string :=
  add_dequant_output_suffix t +:+ postfix i.

(** The [i]-th dedicated pair. *)
Definition dedicated_pair (st : QDQQuantizer) (t sc zp : string) (i : nat)
    : list NodeProto :=
  [q_node st t (add_quant_output_suffix t +:+ postfix i)
          (add_quant_suffix t +:+ postfix i) sc zp None;
   dq_node st (add_quant_output_suffix t +:+ postfix i) (dq_output_name t i)
           (add_dequant_suffix t +:+ postfix i) sc zp None].

(** The recorded consumers, rewired one after the other: the consumer
    recorded at position [k + j] has its reads of [t] replaced by the
    [k + j]-th DQ output. *)
Fixpoint rewire_from (t : string) (k : nat) (recv : list nat)
    (nodes : list NodeProto) : list NodeProto :=
  match recv with
  | [] => nodes
  | r :: recv' =>
      rewire_from t (S k) recv'
        (alter (node_replace_input t (dq_output_name t k)) r nodes)
  end.

(** One iteration of the dedicated-pair loop. *)
Definition dedicated_iteration (t sc zp : string) (data_type : option Z) (i : nat)
    : M unit :=
  _create_qdq_nodes t (add_quant_output_suffix t +:+ postfix i)
    (add_quant_suffix t +:+ postfix i) (add_quant_output_suffix t +:+ postfix i)
    (dq_output_name t i) (add_dequant_suffix t +:+ postfix i) sc zp None ;;
  node ← gets (λ self, default [] (tensor_to_its_receiving_nodes self !! t) !! i);
  match node with
  | None => raise IndexError
  | Some node =>
      modify (with_model (ONNXModel.replace_node_input node t (dq_output_name t i))) ;;
      if decide (i = 0) then
        modify (with_quantized_value_map
          (<[t := activation_value t (dq_output_name t i) sc zp data_type]>))
      else mret tt
  end.

(** The entry's provider already has a record in the value store. *)
Definition provider_ready (st : QDQQuantizer) (info : QDQTensorQuantInfo) : bool :=
  match quant_para_provider info with
  | Some p => bool_decide (is_Some (quantized_value_map st !! input_name p))
  | None => false
  end.

(** Following providers from [t] through at most [n] unresolved tensors
    reaches a tensor that has a record. *)
Fixpoint reaches_resolved (st : QDQQuantizer) (n : nat) (t : string) : bool :=
  match n with
  | 0 => false
  | S n =>
      match odict.get t (tensors_to_quantize st) with
      | Some info =>
          provider_ready st info ||
          match quant_para_provider info with
          | Some p => reaches_resolved st n (input_name p)
          | None => false
          end
      | None => false
      end
  end.

(** The provider graph is acyclic and grounded: from every unresolved
    tensor the chain of providers reaches a resolved one. *)
Definition providers_resolvable (st : QDQQuantizer) : bool :=
  forallb (λ e, reaches_resolved st (length (tensors_to_quantize st)) e.1)
          (tensors_to_quantize st).

(** No unresolved tensor has a resolved provider: a scan has nothing to do. *)
Definition no_progress (st : QDQQuantizer) : bool :=
  forallb (λ e, negb (provider_ready st e.2)) (tensors_to_quantize st).

(** [t] is unresolved and its chain of providers reaches a resolved
    tensor. *)
Inductive resolvable (st : QDQQuantizer) : string → Prop :=
| resolvable_ready t info :
    odict.get t (tensors_to_quantize st) = Some info →
    provider_ready st info = true →
    resolvable st t
| resolvable_step t info p :
    odict.get t (tensors_to_quantize st) = Some info →
    quant_para_provider info = Some p →
    resolvable st (input_name p) →
    resolvable st t.

(** What a scan may do to the registry and the value store: resolved
    tensors stay resolved, the registry only loses entries, and an entry it
    lost has a record. *)
Record scan_frame (s s' : QDQQuantizer) : Prop := {
  frame_mono : ∀ k, is_Some (quantized_value_map s !! k) →
                    is_Some (quantized_value_map s' !! k);
  frame_sub : ∀ k v, odict.get k (tensors_to_quantize s') = Some v →
                     odict.get k (tensors_to_quantize s) = Some v;
  frame_moved : ∀ k, is_Some (odict.get k (tensors_to_quantize s)) →
                     odict.get k (tensors_to_quantize s') = None →
                     is_Some (quantized_value_map s' !! k);
  frame_length :
    (length (tensors_to_quantize s') ≤ length (tensors_to_quantize s))%nat
}.

(** The rewriter leaves the registry alone and keeps every record. *)
Definition registry_frame (s s' : QDQQuantizer) : Prop :=
  tensors_to_quantize s' = tensors_to_quantize s ∧
  ∀ k, is_Some (quantized_value_map s !! k) → is_Some (quantized_value_map s' !! k).

(** [ensures m Q]: when [m] returns, [Q] holds of the state it returns. *)
Definition ensures {A} (m : M A) (Q : QDQQuantizer → Prop) : Prop :=
  ∀ s a s', m s = Ok a s' → Q s'.

(** [t] has a record in the value store. *)
Definition resolved (t : string) (s : QDQQuantizer) : Prop :=
  is_Some (quantized_value_map s !! t).

(** What the sharing loop does for an entry whose provider is resolved,
    after dropping the entry from the registry. *)
Definition resolve_from_provider (tensor_name : string)
    (quantized_value : QuantizedValue) : M unit :=
  is_weight ← gets (λ self, is_input_a_initializer self tensor_name);
  if is_weight : bool then
    raise (ValueError "Quantization parameter shared mode is not supported for weight yet")
  else
    qparams ← gets quantization_params;
    match qparams with
    | None => raise (TypeError "argument of type NoneType is not iterable")
    | Some qparams =>
        match qparams !! tensor_name ≫= tqp_converted with
        | Some conv =>
            converted_qparam_inits ← __make_initializers tensor_name conv "_convert";
            let converted_recv_nodes :=
              qparams !! tensor_name ≫= tqp_converted_recv_nodes in
            _add_qdq_ops_for_converted_activation tensor_name
              (scale_name quantized_value) (zp_name quantized_value)
              (tp_data_type (init_scale converted_qparam_inits))
              (tp_name (init_scale converted_qparam_inits))
              (tp_name (init_zero_point converted_qparam_inits))
              converted_recv_nodes
        | None =>
            _add_qdq_pair_for_activation tensor_name
              (scale_name quantized_value) (zp_name quantized_value) None
        end
    end.

End Vocabulary.

(** ** Vocabulary of the passes *)

Section Frames.
Context `{!QuantUtils} `{!BaseQuantizer}.

(** What [try_replacing_upstream_output] tests before it rewires. *)
Definition upstream_replaceable (st : QDQQuantizer)
    (qparams : gmap string QDQTensorQuantParams) (upstream out : string) : bool :=
  bool_decide (is_Some (qparams !! out)) &&
  bool_decide (ONNXModel.input_name_to_nodes_len (model st) upstream = Some 1) &&
  negb (ONNXModel.is_graph_output (model st) upstream) &&
  negb (ONNXModel.is_graph_input (model st) upstream).

(** The element type of the scale initializer made for a scale of the given
    storage kind. *)
Definition scale_elem_type (d : np_dtype) : Z :=
  match d with np_float32 => FLOAT | _ => FLOAT16 end.

(** The record the initializer path leaves for a weight. *)
Definition initializer_value (weight_name q zp sc : string) : QDQTensorQuantizedValue :=
  mkTQV (mkQV weight_name q sc zp VInitializer None None None None) None None.

(** Only the record of [t] may differ between [s] and [s']: the registry and
    the pending biases are the same, every other record is as it was, and a
    record of [t] is not dropped. *)
Definition record_frame (t : string) (s s' : QDQQuantizer) : Prop :=
  tensors_to_quantize s' = tensors_to_quantize s ∧
  bias_to_quantize s' = bias_to_quantize s ∧
  (∀ k, k ≠ t → quantized_value_map s' !! k = quantized_value_map s !! k) ∧
  (is_Some (quantized_value_map s !! t) → is_Some (quantized_value_map s' !! t)).

(** The registry only loses entries, and the record of a tensor that is not
    registered is as it was. *)
Definition unregistered_kept (s s' : QDQQuantizer) : Prop :=
  (∀ k v, odict.get k (tensors_to_quantize s') = Some v →
          odict.get k (tensors_to_quantize s) = Some v) ∧
  (∀ k, odict.get k (tensors_to_quantize s) = None →
        quantized_value_map s' !! k = quantized_value_map s !! k).

(** A node the quantizer emits: a Q or DQ node in the given domain, or a
    Cast node. *)
Definition is_emitted_node (dom : option string) (n : NodeProto) : Prop :=
  ((op_type n = QUANT_OP_NAME ∨ op_type n = DEQUANT_OP_NAME) ∧
   domain n = dom ∧ attr_to n = None) ∨
  (op_type n = "Cast" ∧ domain n = None ∧ attr_axis n = None).

(** The Q/DQ domain is as it was, every node of [s] is still in the store
    of [s'] at its position, possibly rewired, and the nodes after them are
    emitted ones. *)
Definition emission_frame (s s' : QDQQuantizer) : Prop :=
  qdq_op_domain s' = qdq_op_domain s ∧
  ∃ kept added,
    graph_node (model s') = kept ++ added ∧
    Forall2 same_node (graph_node (model s)) kept ∧
    Forall (is_emitted_node (qdq_op_domain s)) added.

(** Every record of [s] is in [s'], unchanged. *)
Definition records_kept (s s' : QDQQuantizer) : Prop :=
  quantized_value_map s ⊆ quantized_value_map s'.

(** The unshared entries of a snapshot of the registry. *)
Definition unshared_keys (snapshot : list (string * QDQTensorQuantInfo)) : list string :=
  (filter (λ e, is_shared e.2 = false) snapshot).*1.

End Frames.

(** ** Further concrete states *)

Module Cases.

(** A registry entry for a plain float activation. *)
Definition plain_entry : QDQTensorQuantInfo := mkInfo ACTIVATION None None false FLOAT.

(** [Example.fork] after marking, with parameters for [x], [x] registered as
    a plain activation and [a] as sharing the parameters of [x]. *)
Definition registered : QDQQuantizer :=
  with_tensors_to_quantize
    (λ _, [("x", plain_entry); ("a", Example.sharing "x" "relu")])
    (Example.fork_marked false []
       (<["x" := Example.plain Example.qparams32]> ∅)).

(** [Example.fork] after marking, with both parameter sets for [x]. *)
Definition converted : QDQQuantizer :=
  Example.fork_marked false []
    (<["x" := mkTQParams Example.qparams32 (Some Example.qparams32) None]> ∅).

(** [Example.fork], unmarked, with both parameter sets for its output [a]. *)
Definition converted_output : QDQQuantizer :=
  Example.fork false ["a"]
    (<["a" := mkTQParams Example.qparams32 (Some Example.qparams32) None]> ∅).

Definition scalar_tensor (nm : string) : TensorProto :=
  mkTensor nm FLOAT [] [SFloat 0.5%float].

(** [y = Conv(x, w, b)] once the weight and the input are resolved: their
    scales are initializers and both have a record. *)
Definition conv_resolved : QDQQuantizer :=
  with_quantized_value_map
    (λ _, <["w" := initializer_value "w" "w_quantized" "w_zero_point" "w_scale"]>
            (<["x" := activation_value "x" "x_DequantizeLinear_Output" "x_scale"
                        "x_zero_point" (Some FLOAT)]> ∅))
    (Example.quantizer
       (Example.graph [Example.op "Conv" "conv" ["x"; "w"; "b"] ["y"]]
          [mkTensor "b" FLOAT [1%Z] [SFloat 0.5%float];
           scalar_tensor "w_scale"; scalar_tensor "x_scale"] ["y"])
       (Example.float_infos ["x"; "y"]) false ∅).

Definition conv_bias : PendingBias := mkPendingBias "conv" "b" "x" "w" 1%float.


(** The initializer [b] of [relu_graph] registered as sharing the parameters
    of [x], which is resolved. *)
Definition shared_weight : QDQQuantizer :=
  with_quantized_value_map
    (λ _, <["x" := activation_value "x" "x_DequantizeLinear_Output" "x_scale"
                     "x_zero_point" (Some FLOAT)]> ∅)
    (with_tensors_to_quantize (λ _, [("b", Example.sharing "x" "relu")])
       (relu_quantizer (Example.float_infos ["x"; "y"]))).

(** A per-channel quantizer over [relu_graph] at opset 12. *)
Definition opset_12 : QDQQuantizer :=
  mkQuantizer relu_graph ∅ true 12 INT8 UINT8 ∅ [] [] [] false true false ∅ None
              (Some ∅) ∅ [].

End Cases.

(** * Properties *)

(** ** The quantized-value record resolves per consumer *)

(** C2: [get_for_consumer] returns [original] when there is no converted
    value; with a converted value and no receiver set it returns the
    converted value for every consumer; with a receiver set it returns the
    converted value exactly for the consumers in the set and [original] for
    the others. *)
Theorem get_for_consumer_spec (self : QDQTensorQuantizedValue) (consumer : string) :
  (converted self = None → get_for_consumer self consumer = original self) ∧
  (∀ conv, converted self = Some conv →
     (converted_recv_nodes self = None → get_for_consumer self consumer = conv) ∧
     (∀ recv, converted_recv_nodes self = Some recv →
        (consumer ∈ recv → get_for_consumer self consumer = conv) ∧
        (consumer ∉ recv → get_for_consumer self consumer = original self))).
Proof.
  unfold get_for_consumer. split.
  - intros ->. reflexivity.
  - intros conv ->. split.
    + intros ->. reflexivity.
    + intros recv ->. split; intros Hrecv.
      * rewrite bool_decide_eq_true_2; done.
      * rewrite bool_decide_eq_false_2; done.
Qed.

(** A concrete record with a converted value received by node [n1] only. *)
Lemma get_for_consumer_spec_witness :
  let qv nm := mkQV "x" nm "x_scale" "x_zero_point" VInput None None None None in
  let self := mkTQV (qv "x_dq") (Some (qv "x_convert_dq")) (Some {["n1"]}) in
  get_for_consumer self "n1" = qv "x_convert_dq" ∧
  get_for_consumer self "n2" = qv "x_dq".
Proof.
  intros qv self.
  destruct (get_for_consumer_spec self "n1") as [_ H1].
  destruct (get_for_consumer_spec self "n2") as [_ H2].
  destruct (H1 _ eq_refl) as [_ H1'].
  destruct (H2 _ eq_refl) as [_ H2'].
  destruct (H1' _ eq_refl) as [Hin _].
  destruct (H2' _ eq_refl) as [_ Hout].
  split; [apply Hin | apply Hout]; vm_compute; [reflexivity | discriminate].
Defined.


(** ** Ordered dictionaries: lookups after updates *)

Lemma odict_get_set_eq {V} (k : string) (v : V) (d : odict.t V) :
  odict.get k (odict.set k v d) = Some v.
Proof.
  induction d as [|[k' v'] d IH]; simpl.
  - by rewrite decide_True.
  - destruct (decide (k' = k)) as [->|Hne]; simpl.
    + by rewrite decide_True.
    + by rewrite decide_False.
Qed.

Lemma odict_get_set_ne {V} (k k' : string) (v : V) (d : odict.t V) :
  k ≠ k' → odict.get k' (odict.set k v d) = odict.get k' d.
Proof.
  intros Hne. induction d as [|[k0 v0] d IH]; simpl.
  - by rewrite decide_False.
  - destruct (decide (k0 = k)) as [->|Hne0]; simpl.
    + by rewrite !decide_False.
    + by rewrite IH.
Qed.

Lemma odict_keys_set_present {V} (k : string) (v : V) (d : odict.t V) :
  odict.mem k d = true → odict.keys (odict.set k v d) = odict.keys d.
Proof.
  unfold odict.mem, odict.keys. induction d as [|[k' v'] d IH]; simpl; [done|].
  destruct (decide (k' = k)) as [->|Hne]; simpl; [done|].
  intros Hm. f_equal. by apply IH.
Qed.

Lemma odict_mem_get {V} (k : string) (d : odict.t V) :
  odict.mem k d = bool_decide (is_Some (odict.get k d)).
Proof.
  unfold odict.mem. destruct (odict.get k d).
  - by rewrite bool_decide_eq_true_2.
  - rewrite bool_decide_eq_false_2; [done|]. by intros [? ?].
Qed.

(** ** Running the monad *)

Ltac msimpl :=
  unfold mbind, mret, M_mbind, M_mret, M_bind, M_ret, gets, modify, raise in *;
  simpl in *.

Section Registry.
Context `{!QuantUtils} `{!BaseQuantizer}.

Lemma is_tensor_quantizable_run (st : QDQQuantizer) (t : string) :
  _is_tensor_quantizable t st =
  Ok (quantizable st t)
     (if is_known st t then st else with_log (λ l, l ++ [failed_to_infer t]) st).
Proof.
  unfold _is_tensor_quantizable, quantizable, _get_tensor_type, is_known,
    logging_warning, failed_to_infer.
  msimpl.
  destruct (find_by_name t (graph_initializer (model st))) as [w|] eqn:Hw; simpl.
  - by destruct (is_float_kind (tp_data_type w)).
  - destruct (value_infos st !! t) as [[e|]|] eqn:Hvi; simpl.
    + by destruct (is_float_kind e).
    + done.
    + done.
Qed.

Lemma quantizable_type (st : QDQQuantizer) (t : string) :
  quantizable st t = true →
  ∃ dt, _get_tensor_type st t = Some dt ∧ is_float_kind dt = true.
Proof.
  unfold quantizable. destruct (_get_tensor_type st t) as [dt|]; [eauto|done].
Qed.

Lemma quantizable_is_known (st : QDQQuantizer) (t : string) :
  quantizable st t = true → is_known st t = true.
Proof.
  unfold quantizable, _get_tensor_type, is_known.
  destruct (find_by_name t _); simpl; [done|].
  by destruct (value_infos st !! t) as [[e|]|].
Qed.

(** C7: for a tensor that is already registered, registering it again with
    a sharing provider replaces the stored info by the new provider's info,
    in the same position of the registry; registering it again without a
    provider changes nothing. *)
Theorem reregistration_latest_provider_wins (st : QDQQuantizer) (t : string)
    (old : QDQTensorQuantInfo) :
  registry_ok st →
  odict.get t (tensors_to_quantize st) = Some old →
  (∀ provider ttype, ∃ dt st',
      _get_tensor_type st t = Some dt ∧
      __quantize_tensor t (Some provider) ttype st = Ok tt st' ∧
      odict.get t (tensors_to_quantize st')
        = Some (mkInfo ttype (Some provider) None true dt) ∧
      odict.keys (tensors_to_quantize st') = odict.keys (tensors_to_quantize st) ∧
      (∀ t', t' ≠ t → odict.get t' (tensors_to_quantize st')
                      = odict.get t' (tensors_to_quantize st))) ∧
  (∀ ttype, __quantize_tensor t None ttype st = Ok tt st).
Proof.
  intros Hok Hreg.
  pose proof (Hok _ _ Hreg) as Hq.
  pose proof (quantizable_is_known _ _ Hq) as Hk.
  destruct (quantizable_type _ _ Hq) as (dt & Hdt & _).
  split.
  - intros provider ttype. exists dt.
    eexists. split; [done|]. split.
    + unfold __quantize_tensor. msimpl.
      rewrite is_tensor_quantizable_run, Hq, Hk. simpl.
      unfold new_QDQTensorQuantInfo. rewrite Hdt. msimpl. reflexivity.
    + simpl. split; [apply odict_get_set_eq|]. split.
      * apply odict_keys_set_present. unfold odict.mem. by rewrite Hreg.
      * intros t' Hne. by apply odict_get_set_ne.
  - intros ttype. unfold __quantize_tensor. msimpl.
    rewrite is_tensor_quantizable_run, Hq, Hk. simpl.
    unfold odict.mem. by rewrite Hreg.
Qed.

Lemma quantize_tensor_unshared_run (st : QDQQuantizer) (t : string)
    (ttype : QDQQuantTensorType) :
  ∃ st', __quantize_tensor t None ttype st = Ok tt st' ∧
    bias_to_quantize st' = bias_to_quantize st ∧
    model st' = model st ∧
    (∀ dt, _get_tensor_type st t = Some dt → is_float_kind dt = true →
       odict.get t (tensors_to_quantize st) = None →
       tensors_to_quantize st'
         = odict.set t (mkInfo ttype None None false dt) (tensors_to_quantize st)).
Proof.
  unfold __quantize_tensor. msimpl. rewrite is_tensor_quantizable_run.
  destruct (quantizable st t) eqn:Hq.
  - rewrite (quantizable_is_known _ _ Hq).
    destruct (quantizable_type _ _ Hq) as (dt & Hdt & Hf).
    destruct (odict.mem t (tensors_to_quantize st)) eqn:Hm.
    + eexists. repeat split; try done.
      intros dt' _ _ Hnone. unfold odict.mem in Hm. by rewrite Hnone in Hm.
    + unfold new_QDQTensorQuantInfo. rewrite Hdt. msimpl.
      eexists. repeat split; try done.
      intros dt' [= <-] _ _. reflexivity.
  - eexists. split; [done|].
    unfold quantizable in Hq.
    destruct (is_known st t); simpl; repeat split; try done;
      intros dt Hdt Hf; rewrite Hdt in Hq; congruence.
Qed.

(** C8 (as amended): registering a tensor whose element type is not a 32-
    or 16-bit float, or cannot be inferred, adds no registry entry and raises
    nothing, through every registration call.  The warning about a type that
    cannot be inferred is logged exactly when the tensor is neither an
    initializer nor has a value-info entry.  Per-channel registration of a
    tensor that is not an initializer, whatever its element type, is skipped
    with a warning: it changes nothing but the log. *)
Theorem non_float_tensor_is_left_unquantized (st : QDQQuantizer) (t : string) :
  ((∀ dt, _get_tensor_type st t = Some dt → is_float_kind dt = false) →
   (∀ provider ttype, ∃ st',
       __quantize_tensor t provider ttype st = Ok tt st' ∧
       tensors_to_quantize st' = tensors_to_quantize st ∧
       model st' = model st ∧
       log st' = log st ++ (if is_known st t then [] else [failed_to_infer t])) ∧
   (∀ ax, ∃ st',
       quantize_weight_tensor_per_channel t ax st = Ok tt st' ∧
       tensors_to_quantize st' = tensors_to_quantize st ∧
       model st' = model st ∧
       log st' = log st ++
         (if bool_decide (is_Some (find_by_name t (graph_initializer (model st))))
          then [] else [per_channel_needs_weight t]))) ∧
  (find_by_name t (graph_initializer (model st)) = None →
   ∀ ax, quantize_weight_tensor_per_channel t ax st
         = Ok tt (with_log (λ l, l ++ [per_channel_needs_weight t]) st)).
Proof.
  split.
  - intros Hty.
    assert (quantizable st t = false) as Hq.
    { unfold quantizable. destruct (_get_tensor_type st t) as [dt|] eqn:E; [|done].
      by apply Hty. }
    split.
    + intros provider ttype. unfold __quantize_tensor. msimpl.
      rewrite is_tensor_quantizable_run, Hq.
      destruct (is_known st t); simpl; eexists; repeat split; try done.
      by rewrite app_nil_r.
    + intros ax. unfold quantize_weight_tensor_per_channel, logging_warning. msimpl.
      destruct (find_by_name t (graph_initializer (model st))) as [w|] eqn:Hw; simpl.
      * assert (is_float_kind (tp_data_type w) = false) as ->.
        { apply Hty. unfold _get_tensor_type. by rewrite Hw. }
        eexists. repeat split; try done. by rewrite app_nil_r.
      * eexists. repeat split; done.
  - intros Hw ax. unfold quantize_weight_tensor_per_channel, logging_warning,
      per_channel_needs_weight. msimpl. by rewrite Hw.
Qed.

(** An unshared registration of a tensor that is already registered leaves
    the registry as it is. *)
Lemma quantize_tensor_unshared_registered (st : QDQQuantizer) (t : string)
    (ttype : QDQQuantTensorType) :
  is_Some (odict.get t (tensors_to_quantize st)) →
  ∃ st', __quantize_tensor t None ttype st = Ok tt st' ∧
         tensors_to_quantize st' = tensors_to_quantize st.
Proof.
  intros [old Hold]. unfold __quantize_tensor. msimpl.
  rewrite is_tensor_quantizable_run.
  destruct (quantizable st t) eqn:Hq.
  - rewrite (quantizable_is_known _ _ Hq). unfold odict.mem. rewrite Hold.
    by eexists.
  - destruct (is_known st t); by eexists.
Qed.

(** X20: when the overrides map holds overrides for the bias, the call
    queues nothing in [bias_to_quantize]: after logging, it is the weight
    registration call for the bias, per channel on axis 0 in per-channel
    mode and scalar otherwise.  A float initializer ends up registered as a
    weight when per-channel mode is on or the tensor was not registered
    before; in scalar mode a tensor that is already registered leaves the
    registry as it was. *)
Theorem bias_with_overrides_is_registered_as_weight (st : QDQQuantizer)
    (node bias inp weight : string) (beta : float) :
  truthy (tensor_quant_overrides st !! bias) = true →
  let logged :=
    with_log (λ l, l ++ [LogInfo "Quantizing bias tensor as a weight" bias]) st in
  quantize_bias_tensor node bias inp weight beta st
    = (if per_channel st then quantize_weight_tensor_per_channel bias 0 logged
       else quantize_weight_tensor bias logged) ∧
  ∃ st', quantize_bias_tensor node bias inp weight beta st = Ok tt st' ∧
    bias_to_quantize st' = bias_to_quantize st ∧
    (∀ w, find_by_name bias (graph_initializer (model st)) = Some w →
          is_float_kind (tp_data_type w) = true →
          per_channel st = true ∨ odict.get bias (tensors_to_quantize st) = None →
          odict.get bias (tensors_to_quantize st')
            = Some (mkInfo WEIGHT None (if per_channel st then Some 0%Z else None)
                           false (tp_data_type w))) ∧
    (per_channel st = false →
     is_Some (odict.get bias (tensors_to_quantize st)) →
     tensors_to_quantize st' = tensors_to_quantize st).
Proof.
  intros Hov logged.
  assert (quantize_bias_tensor node bias inp weight beta st
    = (if per_channel st then quantize_weight_tensor_per_channel bias 0 logged
       else quantize_weight_tensor bias logged)) as Hcall.
  { unfold quantize_bias_tensor, logging_info. msimpl. rewrite Hov. simpl.
    by destruct (per_channel st). }
  split; [exact Hcall|]. rewrite Hcall.
  destruct (per_channel st) eqn:Hpc.
  - unfold quantize_weight_tensor_per_channel, logging_warning. msimpl.
    destruct (find_by_name bias (graph_initializer (model st))) as [w|] eqn:Hw; simpl.
    + destruct (is_float_kind (tp_data_type w)) eqn:Hf; simpl.
      * eexists. repeat split; try done. simpl.
        intros w' [= <-] _ _. apply odict_get_set_eq.
      * eexists. repeat split; try done. intros w' [= <-]. congruence.
    + eexists. repeat split; done.
  - unfold quantize_weight_tensor.
    destruct (quantize_tensor_unshared_run logged bias WEIGHT)
      as (st' & Hrun & Hbias & Hmodel & Hreg).
    exists st'. repeat split; try done.
    + intros w Hw Hf [?|Hnone]; [done|].
      rewrite (Hreg (tp_data_type w)); try done.
      * apply odict_get_set_eq.
      * unfold _get_tensor_type. simpl. by rewrite Hw.
    + intros _ Hregistered.
      destruct (quantize_tensor_unshared_registered logged bias WEIGHT Hregistered)
        as (st'' & Hrun' & Hsame).
      rewrite Hrun in Hrun'. by simplify_eq.
Qed.

End Registry.

(** ** The registry on a small graph: [y = Relu(x)] with a bias [b] *)

Lemma registry_ok_forallb (st : QDQQuantizer) :
  forallb (λ e, quantizable st e.1) (tensors_to_quantize st) = true →
  registry_ok st.
Proof.
  unfold registry_ok. induction (tensors_to_quantize st) as [|[k v] d IH]; simpl.
  - discriminate.
  - intros [Hk Hd]%andb_prop t info.
    destruct (decide (k = t)) as [<-|_]; [done|]. by apply IH.
Qed.

Lemma reregistration_latest_provider_wins_witness :
  let st := with_tensors_to_quantize
              (λ _, [("y", mkInfo ACTIVATION None None false FLOAT)])
              (relu_quantizer (<["x" := Some FLOAT]> (<["y" := Some FLOAT]> ∅))) in
  (∃ st', quantize_output_same_as_input "y" "x" "relu" st = Ok tt st' ∧
          odict.get "y" (tensors_to_quantize st')
            = Some (mkInfo ACTIVATION (Some (mkProvider "x" "relu")) None true FLOAT)) ∧
  quantize_activation_tensor "y" st = Ok tt st.
Proof.
  intros st.
  assert (registry_ok st) as Hok by (apply registry_ok_forallb; reflexivity).
  destruct (reregistration_latest_provider_wins st "y"
              (mkInfo ACTIVATION None None false FLOAT) Hok eq_refl) as [Hshared Hplain].
  split; [|apply Hplain].
  destruct (Hshared (mkProvider "x" "relu") ACTIVATION)
    as (dt & st' & Hdt & Hrun & Hget & _).
  exists st'. split; [exact Hrun|].
  rewrite Hget. vm_compute in Hdt. by injection Hdt as <-.
Defined.

Lemma non_float_tensor_is_left_unquantized_witness :
  let st := relu_quantizer (<["x" := Some INT8]> (<["y" := Some FLOAT]> ∅)) in
  (∃ st', quantize_activation_tensor "x" st = Ok tt st' ∧
          tensors_to_quantize st' = [] ∧ log st' = []) ∧
  quantize_weight_tensor_per_channel "y" 0 st
    = Ok tt (with_log (λ l, l ++ [per_channel_needs_weight "y"]) st).
Proof.
  intros st. split.
  - assert (∀ dt, _get_tensor_type st "x" = Some dt → is_float_kind dt = false)
      as Hty.
    { intros dt Hdt. vm_compute in Hdt. by injection Hdt as <-. }
    destruct (non_float_tensor_is_left_unquantized st "x") as [Hnon _].
    destruct (Hnon Hty) as [Hreg _].
    destruct (Hreg None ACTIVATION) as (st' & Hrun & Httq & _ & Hlog).
    exists st'. split; [exact Hrun|]. split; [exact Httq|exact Hlog].
  - destruct (non_float_tensor_is_left_unquantized st "y") as [_ Hpc].
    apply (Hpc eq_refl 0%Z).
Defined.

(** C8, refuted as stated: a tensor whose value-info entry carries no tensor
    type has no inferable element type, yet registering it logs nothing; and
    the per-channel registration of a tensor that is not an initializer is a
    second condition that only logs a warning. *)
Lemma untyped_value_info_is_skipped_silently :
  let st := relu_quantizer (<["x" := None]> (<["y" := Some FLOAT]> ∅)) in
  _get_tensor_type st "x" = None ∧
  quantize_activation_tensor "x" st = Ok tt st ∧
  log st = [] ∧
  quantize_weight_tensor_per_channel "y" 0 st
    = Ok tt (with_log (λ l, l ++ [per_channel_needs_weight "y"]) st).
Proof. repeat split. Qed.

Lemma bias_with_overrides_is_registered_as_weight_witness :
  let st := mkQuantizer relu_graph ∅ true 13 INT8 UINT8 (<["b" := [["scale"]]]> ∅)
              [] [] [] false true false ∅ None (Some ∅) ∅ [] in
  ∃ st', quantize_bias_tensor "gemm" "b" "x" "w" 1 st = Ok tt st' ∧
         bias_to_quantize st' = [] ∧
         odict.get "b" (tensors_to_quantize st')
           = Some (mkInfo WEIGHT None (Some 0%Z) false FLOAT).
Proof.
  intros st.
  destruct (bias_with_overrides_is_registered_as_weight st "gemm" "b" "x" "w" 1
              eq_refl) as (_ & st' & Hrun & Hbias & Hreg & _).
  exists st'. split; [exact Hrun|]. split; [exact Hbias|].
  apply (Hreg (mkTensor "b" FLOAT [1%Z] [SFloat 0.5%float])); [done|done|by left].
Defined.


(** ** Outcomes that respect a relation *)

Section Respects.
Context (R : relation QDQQuantizer) `{!PreOrder R} (T : Prop).

Lemma respects_ret {A} (a : A) : respects R T (mret a).
Proof. intros s. msimpl. reflexivity. Qed.

Lemma respects_raise {A} (e : exn) : respects R T (raise (A:=A) e).
Proof. intros s. msimpl. reflexivity. Qed.

Lemma respects_gets {A} (f : QDQQuantizer → A) : respects R T (gets f).
Proof. intros s. msimpl. reflexivity. Qed.

Lemma respects_modify (f : QDQQuantizer → QDQQuantizer) :
  (∀ s, R s (f s)) → respects R T (modify f).
Proof. intros Hf s. msimpl. apply Hf. Qed.

Lemma respects_bind {A B} (m : M A) (f : A → M B) :
  respects R T m → (∀ a, respects R T (f a)) → respects R T (m ≫= f).
Proof.
  intros Hm Hf s. specialize (Hm s). msimpl.
  destruct (m s) as [a s'| |]; try done.
  specialize (Hf a s'). destruct (f a s'); try done; by etrans.
Qed.

Lemma respects_for_each {A} (l : list A) (body : A → M unit) :
  (∀ x, respects R T (body x)) → respects R T (for_each l body).
Proof.
  intros Hbody. induction l as [|x l IH]; simpl.
  - apply respects_ret.
  - apply respects_bind; [apply Hbody|]. intros _. apply IH.
Qed.

Lemma respects_call_impl {A} (f : list TensorProto → exn + A * list TensorProto) :
  (∀ s inits, R s (with_model (with_initializers (λ _, inits)) s)) →
  respects R T (call_impl f).
Proof.
  intros Hf s. unfold call_impl.
  destruct (f _) as [e|[a inits]]; [reflexivity|apply Hf].
Qed.

End Respects.

(** The methods a walk looks into. *)
Create HintDb qdq.
#[global] Hint Unfold _is_tensor_quantizable new_QDQTensorQuantInfo __quantize_tensor
  quantize_activation_tensor quantize_output_same_as_input quantize_weight_tensor
  quantize_weight_tensor_per_channel quantize_bias_tensor remove_node
  is_tensor_quantized del_tensors_to_quantize try_replacing_upstream_output
  _create_q_node _create_dq_node _create_qdq_nodes quantize_initializer
  quantize_weight_per_channel quantized_value_map_at initializer_array
  quantize_bias_static __make_initializers _create_quantization_initializers
  _add_qdq_pair_for_initializer _add_qdq_pair_for_activation
  _add_qdq_ops_for_converted_activation _quantize_normal_tensor
  _quantize_normal_tensors _quantize_sharing_param_tensor sharing_scan
  _quantize_bias_tensor _quantize_bias_tensors record_receiving_node mark_node
  mark_nodes logging_warning logging_info : qdq.

(** Lemmas about loops that a walk may use. *)
Create HintDb respects.

(** Walks a method body: binds, loops and branches. *)
Ltac respects_walk :=
  repeat first
    [ solve [auto 1 with respects]
    | apply respects_ret; solve [tc_solve]
    | apply respects_raise; solve [tc_solve]
    | apply respects_gets; solve [tc_solve]
    | apply respects_bind; [tc_solve | | intros ?]
    | apply respects_for_each; [tc_solve | intros ?]
    | match goal with
      | |- respects _ _ (match ?x with _ => _ end) => destruct x
      | |- respects _ _ (let '(_, _) := ?x in _) => destruct x
      end
    | progress autounfold with qdq ].

(** ** No node leaves the store before the batch removal *)

#[local] Instance same_node_preorder : PreOrder same_node.
Proof.
  split.
  - intros n. by repeat split.
  - intros n1 n2 n3 (?&?&?&?&?&?&?) (?&?&?&?&?&?&?).
    repeat split; congruence.
Qed.

#[local] Instance store_extends_preorder : PreOrder store_extends.
Proof.
  split.
  - intros l. exists l, []. split; [by rewrite app_nil_r|reflexivity].
  - intros l1 l2 l3 (k1 & a1 & -> & H1) (k2 & a2 & -> & H2).
    apply Forall2_app_inv_l in H2 as (k2a & k2b & Ha & Hb & ->).
    exists k2a, (k2b ++ a2). split; [by rewrite app_assoc|].
    by etrans.
Qed.

#[local] Instance nodes_kept_preorder : PreOrder nodes_kept.
Proof.
  split.
  - intros s. unfold nodes_kept. reflexivity.
  - intros s1 s2 s3. unfold nodes_kept. by etrans.
Qed.

Lemma store_extends_app (l added : list NodeProto) : store_extends l (l ++ added).
Proof.
  exists l, added. split; [done|reflexivity].
Qed.

Lemma store_extends_fmap (f : NodeProto → NodeProto) (l : list NodeProto) :
  (∀ n, same_node n (f n)) → store_extends l (f <$> l).
Proof.
  intros Hf. exists (f <$> l), []. split; [by rewrite app_nil_r|].
  apply Forall2_fmap_r, Forall2_same_length_lookup_2; [done|].
  intros i x y ? ?. simplify_eq. apply Hf.
Qed.

Lemma store_extends_alter (f : NodeProto → NodeProto) (i : nat) (l : list NodeProto) :
  (∀ n, same_node n (f n)) → store_extends l (alter f i l).
Proof.
  intros Hf. exists (alter f i l), []. split; [by rewrite app_nil_r|].
  apply Forall2_same_length_lookup_2; [by rewrite length_alter|].
  intros j x y Hx Hy. rewrite list_lookup_alter in Hy.
  destruct (decide (i = j)) as [->|_].
  - rewrite Hx in Hy. simpl in Hy. simplify_eq. apply Hf.
  - by simplify_eq.
Qed.

Lemma same_node_replace_input (old new : string) (n : NodeProto) :
  same_node n (node_replace_input old new n).
Proof. repeat split. simpl. unfold rename. by rewrite length_fmap. Qed.

Lemma same_node_replace_output (old new : string) (n : NodeProto) :
  same_node n (node_replace_output old new n).
Proof. repeat split. simpl. unfold rename. by rewrite length_fmap. Qed.

Lemma nodes_kept_with_model (f : ONNXModel → ONNXModel) (s : QDQQuantizer) :
  store_extends (graph_node (model s)) (graph_node (f (model s))) →
  nodes_kept s (with_model f s).
Proof. done. Qed.

Lemma nodes_kept_add_nodes (ns : list NodeProto) (s : QDQQuantizer) :
  nodes_kept s (with_model (ONNXModel.add_nodes ns) s).
Proof. apply nodes_kept_with_model, store_extends_app. Qed.

Lemma nodes_kept_add_node (n : NodeProto) (s : QDQQuantizer) :
  nodes_kept s (with_model (ONNXModel.add_node n) s).
Proof. apply nodes_kept_add_nodes. Qed.

Lemma nodes_kept_with_initializers (f : list TensorProto → list TensorProto)
    (s : QDQQuantizer) :
  nodes_kept s (with_model (with_initializers f) s).
Proof. apply nodes_kept_with_model. reflexivity. Qed.

Lemma nodes_kept_remove_initializer (t : option TensorProto) (s : QDQQuantizer) :
  nodes_kept s (with_model (ONNXModel.remove_initializer t) s).
Proof. destruct t; apply nodes_kept_with_model; reflexivity. Qed.

Lemma nodes_kept_replace_node_input (i : nat) (old new : string) (s : QDQQuantizer) :
  nodes_kept s (with_model (ONNXModel.replace_node_input i old new) s).
Proof.
  apply nodes_kept_with_model, store_extends_alter, same_node_replace_input.
Qed.

Lemma nodes_kept_replace_input_of_all_nodes (old new : string) (s : QDQQuantizer) :
  nodes_kept s (with_model (ONNXModel.replace_input_of_all_nodes old new) s).
Proof.
  apply nodes_kept_with_model, store_extends_fmap, same_node_replace_input.
Qed.

Lemma nodes_kept_replace_output_of_all_nodes (old new : string) (s : QDQQuantizer) :
  nodes_kept s (with_model (ONNXModel.replace_output_of_all_nodes old new) s).
Proof.
  apply nodes_kept_with_model, store_extends_fmap, same_node_replace_output.
Qed.

Lemma nodes_kept_replace_input_of_nodes (old new : string) (names : gset string)
    (s : QDQQuantizer) :
  nodes_kept s (with_model (ONNXModel.replace_input_of_nodes old new names) s).
Proof.
  apply nodes_kept_with_model, store_extends_fmap. intros n.
  case_bool_decide; [apply same_node_replace_input|reflexivity].
Qed.

Lemma nodes_kept_same_model (s s' : QDQQuantizer) :
  model s' = model s → nodes_kept s s'.
Proof. unfold nodes_kept. intros ->. reflexivity. Qed.

Create HintDb nodes_kept.
#[local] Hint Resolve nodes_kept_add_nodes nodes_kept_add_node
  nodes_kept_with_initializers nodes_kept_remove_initializer
  nodes_kept_replace_node_input nodes_kept_replace_input_of_all_nodes
  nodes_kept_replace_output_of_all_nodes nodes_kept_replace_input_of_nodes
  : nodes_kept.

(** Closes the obligations that [respects_walk] leaves for [nodes_kept]. *)
Ltac nodes_kept_walk :=
  respects_walk;
  try (first [ apply respects_modify | apply respects_call_impl; [tc_solve|] ];
       intros; first [ solve [auto with nodes_kept]
                     | by apply nodes_kept_same_model
                     | apply nodes_kept_with_model; reflexivity ]).

Section Deferred.
Context `{!QuantUtils} `{!BaseQuantizer}.

Lemma run_policy_keeps (T : Prop) (p : policy) : respects nodes_kept T (run_policy p).
Proof. induction p; simpl; nodes_kept_walk. Qed.

Lemma mark_nodes_keeps (T : Prop) : respects nodes_kept T mark_nodes.
Proof. pose proof run_policy_keeps. nodes_kept_walk. Qed.

Lemma quantize_normal_tensors_keeps (T : Prop) :
  respects nodes_kept T _quantize_normal_tensors.
Proof. nodes_kept_walk. Qed.

Lemma sharing_scan_keeps (T : Prop) : respects nodes_kept T sharing_scan.
Proof. nodes_kept_walk. Qed.

Lemma quantize_sharing_param_tensors_keeps (fuel : nat) :
  respects nodes_kept True (_quantize_sharing_param_tensors fuel).
Proof.
  induction fuel as [|fuel IH]; simpl; [done|].
  pose proof (sharing_scan_keeps True). nodes_kept_walk.
Qed.

Lemma quantize_bias_tensors_keeps (T : Prop) :
  respects nodes_kept T _quantize_bias_tensors.
Proof. nodes_kept_walk. Qed.

Lemma quantize_passes_keeps (fuel : nat) :
  respects nodes_kept True (quantize_passes fuel).
Proof.
  pose proof (mark_nodes_keeps True).
  pose proof (quantize_normal_tensors_keeps True).
  pose proof (quantize_sharing_param_tensors_keeps fuel).
  pose proof (quantize_bias_tensors_keeps True).
  unfold quantize_passes. nodes_kept_walk.
Qed.

(** C9: [remove_node] only records the node and leaves the model untouched;
    marking, normal-tensor, shared-tensor and bias quantization each end
    (normally or by raising) with every node of the graph still in the
    store, so does their sequence; and the nodes [quantize_model] returns are
    those of the state after these passes with the recorded nodes removed in
    one batch. *)
Theorem node_removal_is_deferred (fuel : nat) (st : QDQQuantizer) :
  (∀ node, remove_node node st
           = Ok tt (with_nodes_to_remove (λ l, l ++ [node]) st)) ∧
  respects nodes_kept False mark_nodes ∧
  respects nodes_kept False _quantize_normal_tensors ∧
  respects nodes_kept True (_quantize_sharing_param_tensors fuel) ∧
  respects nodes_kept False _quantize_bias_tensors ∧
  respects nodes_kept True (quantize_passes fuel) ∧
  (∀ m st_final, quantize_model fuel st = Ok m st_final →
     ∃ st', quantize_passes fuel st = Ok tt st' ∧
            nodes_kept st st' ∧
            graph_node m
              = graph_node (ONNXModel.remove_nodes (nodes_to_remove st') (model st'))).
Proof.
  split; [done|].
  split; [apply mark_nodes_keeps|].
  split; [apply quantize_normal_tensors_keeps|].
  split; [apply quantize_sharing_param_tensors_keeps|].
  split; [apply quantize_bias_tensors_keeps|].
  split; [apply quantize_passes_keeps|].
  intros m st_final Hrun.
  pose proof (quantize_passes_keeps fuel st) as Hkeep.
  unfold quantize_model, remove_nodes, finalize in Hrun. msimpl.
  destruct (quantize_passes fuel st) as [[] st'| |]; try done.
  exists st'. split; [done|]. split; [done|].
  destruct (add_qdq_pair_to_weight st'); simpl in Hrun;
    case_bool_decide; simpl in Hrun; by simplify_eq.
Qed.

End Deferred.

(** ** The activation rewriter and the value store *)

Section Rewriter.
Context `{!QuantUtils} `{!BaseQuantizer}.

Lemma wants_dedicated_pairs_true (st : QDQQuantizer) (t : string) (recv : list nat) :
  dedicated_qdq_pair st = true →
  tensor_to_its_receiving_nodes st !! t = Some recv →
  1 < length recv →
  wants_dedicated_pairs st t = true.
Proof.
  intros Hd Hrecv Hlen. unfold wants_dedicated_pairs. rewrite Hd, Hrecv. simpl.
  by apply bool_decide_eq_true_2.
Qed.

Lemma create_quantization_initializers_converted (st : QDQQuantizer) (t : string)
    (qparams : gmap string QDQTensorQuantParams) (params : QDQTensorQuantParams)
    (conv : QuantizationParams) :
  quantization_params st = Some qparams →
  qparams !! t = Some params →
  tqp_converted params = Some conv →
  (∃ e st', _create_quantization_initializers t st = Raise e st' ∧
            only_initializers_added st st') ∨
  (∃ o c st', _create_quantization_initializers t st
              = Ok (Some (mkTInits o (Some c) (tqp_converted_recv_nodes params))) st' ∧
              only_initializers_added st st').
Proof.
  intros Hq Hparams Hconv.
  unfold _create_quantization_initializers, __make_initializers. msimpl.
  rewrite Hq. simpl. rewrite Hparams. simpl. rewrite Hconv.
  unfold only_initializers_added.
  destruct (scale_dtype (tqp_original params)) as [[]|]; simpl;
    try (left; eexists _, _; by repeat split);
    destruct (scale_dtype conv) as [[]|]; simpl;
    first [ left; eexists _, _; by repeat split
          | right; eexists _, _, _; by repeat split ].
Qed.

(** C4: with dedicated pairs enabled and more than one recorded consumer,
    the dual-path rewriter raises before it touches the quantizer, so no
    node is emitted; the normal pass on a tensor that has both parameter
    sets therefore ends by raising, with the node store, the value store
    and the registry as they were. *)
Theorem converted_with_dedicated_pairs_fails (st : QDQQuantizer) (t : string)
    (recv : list nat) :
  dedicated_qdq_pair st = true →
  tensor_to_its_receiving_nodes st !! t = Some recv →
  1 < length recv →
  (∀ first_scale first_zp dt convert_scale convert_zp convert_recv,
     _add_qdq_ops_for_converted_activation t first_scale first_zp dt
       convert_scale convert_zp convert_recv st
     = Raise dedicated_unsupported st) ∧
  (∀ info qparams params conv,
     quantized_value_map st !! t = None →
     is_shared info = false →
     find_by_name t (graph_initializer (model st)) = None →
     quantization_params st = Some qparams →
     qparams !! t = Some params →
     tqp_converted params = Some conv →
     ∃ e st', _quantize_normal_tensor (t, info) st = Raise e st' ∧
              graph_node (model st') = graph_node (model st) ∧
              quantized_value_map st' = quantized_value_map st ∧
              tensors_to_quantize st' = tensors_to_quantize st).
Proof.
  intros Hd Hrecv Hlen.
  assert (∀ st', tensor_to_its_receiving_nodes st' !! t = Some recv →
      dedicated_qdq_pair st' = true →
      ∀ first_scale first_zp dt convert_scale convert_zp convert_recv,
        _add_qdq_ops_for_converted_activation t first_scale first_zp dt
          convert_scale convert_zp convert_recv st'
        = Raise dedicated_unsupported st') as Hraise.
  { intros st' Hrecv' Hd' **. unfold _add_qdq_ops_for_converted_activation. msimpl.
    rewrite Hrecv'. simpl.
    by rewrite (wants_dedicated_pairs_true _ _ _ Hd' Hrecv' Hlen). }
  split; [by apply Hraise|].
  intros info qparams params conv Hfresh Hshared Hinit Hq Hparams Hconv.
  unfold _quantize_normal_tensor. msimpl.
  rewrite Hfresh. simpl. rewrite Hshared, Hinit.
  destruct (create_quantization_initializers_converted st t _ _ _ Hq Hparams Hconv)
    as [(e & st' & -> & Hst')|(o & c & st' & -> & Hst')].
  - destruct Hst' as (? & ? & ? & ? & ?). by exists e, st'.
  - destruct Hst' as (? & ? & ? & ? & ?). simpl. case_decide.
    + rewrite Hraise; [by eexists _, _|congruence..].
    + by eexists _, _.
Qed.

(** C5: in single-pair mode the rewriter appends one Q node and one DQ node.
    For a graph output the DQ node writes the original name, which the graph
    still lists as an output, the Q node reads the name with the input
    suffix, and every node that produced the tensor now produces the suffixed
    name, node inputs being untouched.  Otherwise the Q node reads the
    tensor, and every node that read the tensor now reads the suffixed DQ
    output. *)
Theorem single_pair_rewiring (st : QDQQuantizer) (t sc zp : string) (dt : option Z) :
  wants_dedicated_pairs st t = false →
  let q_out := add_quant_output_suffix t in
  (ONNXModel.is_graph_output (model st) t = true →
   ∃ st', _add_qdq_pair_for_activation t sc zp dt st = Ok tt st' ∧
     graph_node (model st')
       = (node_replace_output t (add_quant_input_suffix t) <$> graph_node (model st))
         ++ [q_node st (add_quant_input_suffix t) q_out (add_quant_suffix t) sc zp None;
             dq_node st q_out t (add_dequant_suffix t) sc zp None] ∧
     t ∈ graph_output (model st') ∧
     quantized_value_map st'
       = <[t := activation_value t t sc zp dt]> (quantized_value_map st) ∧
     (∀ i n, graph_node (model st) !! i = Some n →
        ∃ n', graph_node (model st') !! i = Some n' ∧
              output n' = rename t (add_quant_input_suffix t) (output n) ∧
              input n' = input n)) ∧
  (ONNXModel.is_graph_output (model st) t = false →
   ∃ st', _add_qdq_pair_for_activation t sc zp dt st = Ok tt st' ∧
     graph_node (model st')
       = (node_replace_input t (add_dequant_output_suffix t) <$> graph_node (model st))
         ++ [q_node st t q_out (add_quant_suffix t) sc zp None;
             dq_node st q_out (add_dequant_output_suffix t)
                     (add_dequant_suffix t) sc zp None] ∧
     quantized_value_map st'
       = <[t := activation_value t (add_dequant_output_suffix t) sc zp dt]>
           (quantized_value_map st) ∧
     (∀ i n, graph_node (model st) !! i = Some n →
        ∃ n', graph_node (model st') !! i = Some n' ∧
              input n' = rename t (add_dequant_output_suffix t) (input n) ∧
              output n' = output n)).
Proof.
  intros Hmode q_out. split; intros Hout.
  - eexists. split.
    { unfold _add_qdq_pair_for_activation. msimpl. rewrite Hmode, Hout. reflexivity. }
    simpl. split; [done|]. split.
    { unfold ONNXModel.is_graph_output in Hout. by apply bool_decide_eq_true_1 in Hout. }
    split; [done|]. intros i n Hn.
    exists (node_replace_output t (add_quant_input_suffix t) n). split; [|done].
    apply lookup_app_l_Some. by rewrite list_lookup_fmap, Hn.
  - eexists. split.
    { unfold _add_qdq_pair_for_activation. msimpl. rewrite Hmode, Hout. reflexivity. }
    simpl. split; [done|]. split; [done|]. intros i n Hn.
    exists (node_replace_input t (add_dequant_output_suffix t) n). split; [|done].
    apply lookup_app_l_Some. by rewrite list_lookup_fmap, Hn.
Qed.

End Rewriter.

Section Store.
Context `{!QuantUtils} `{!BaseQuantizer}.









End Store.

(** ** Dedicated pairs *)

Section Dedicated.
Context `{!QuantUtils} `{!BaseQuantizer}.

Lemma length_rewire_from (t : string) (recv : list nat) :
  ∀ k nodes, length (rewire_from t k recv nodes) = length nodes.
Proof.
  induction recv as [|r recv IH]; intros k nodes; simpl; [done|].
  by rewrite IH, length_alter.
Qed.

Lemma rewire_from_other (t : string) (recv : list nat) (i : nat) :
  i ∉ recv → ∀ k nodes, rewire_from t k recv nodes !! i = nodes !! i.
Proof.
  induction recv as [|r recv IH]; intros Hi k nodes; simpl; [done|].
  apply not_elem_of_cons in Hi as [Hne Hi].
  rewrite IH by done. by apply list_lookup_alter_ne.
Qed.

Lemma rewire_from_consumer (t : string) (recv : list nat) :
  NoDup recv → ∀ k nodes j r, recv !! j = Some r →
  rewire_from t k recv nodes !! r
    = node_replace_input t (dq_output_name t (k + j)) <$> nodes !! r.
Proof.
  induction recv as [|r0 recv IH]; intros Hnd k nodes j r Hj; [done|].
  apply NoDup_cons in Hnd as [Hr0 Hnd]. simpl. destruct j as [|j]; simpl in Hj.
  - simplify_eq. rewrite rewire_from_other by done.
    by rewrite Nat.add_0_r, list_lookup_alter_eq.
  - rewrite (IH Hnd _ _ j r Hj).
    assert (r0 ≠ r) as Hne.
    { intros ->. apply Hr0. by eapply list_elem_of_lookup_2. }
    rewrite list_lookup_alter_ne by done. do 3 f_equal. lia.
Qed.

Lemma dq_output_name_inj (t : string) : Inj (=) (=) (dq_output_name t).
Proof.
  intros i j Hij. unfold dq_output_name, postfix in Hij.
  apply String.app_inj, String.app_inj in Hij.
  apply (inj pretty) in Hij. lia.
Qed.

Lemma dedicated_loop (t sc zp : string) (data_type : option Z) (recv : list nat)
    (st0 : QDQQuantizer) :
  ∀ tail k st kept added,
    tensor_to_its_receiving_nodes st !! t = Some recv →
    qdq_op_domain st = qdq_op_domain st0 →
    drop k recv = tail →
    graph_node (model st) = kept ++ added →
    Forall (λ r, r < length kept) tail →
    ∃ st', for_each (seq k (length tail)) (dedicated_iteration t sc zp data_type) st
           = Ok tt st' ∧
      graph_node (model st')
        = rewire_from t k tail kept ++ added
          ++ flat_map (dedicated_pair st0 t sc zp) (seq k (length tail)) ∧
      quantized_value_map st'
        = (if decide (k = 0 ∧ tail ≠ [])
           then <[t := activation_value t (dq_output_name t 0) sc zp data_type]>
                  (quantized_value_map st)
           else quantized_value_map st) ∧
      tensors_to_quantize st' = tensors_to_quantize st ∧
      graph_output (model st') = graph_output (model st) ∧
      graph_initializer (model st') = graph_initializer (model st).
Proof.
  induction tail as [|r tail IH]; intros k st kept added Hrecv Hdom Hdrop Hnodes Hvalid.
  - simpl. exists st. rewrite Hnodes, !app_nil_r.
    repeat split; try done. rewrite decide_False; [done|]. by intros [_ ?].
  - apply Forall_cons in Hvalid as [Hr Hvalid].
    assert (recv !! k = Some r) as Hk.
    { rewrite <-(Nat.add_0_r k), <-lookup_drop, Hdrop. done. }
    assert (drop (S k) recv = tail) as Hdrop'.
    { pose proof (drop_S _ _ _ Hk) as Hd. rewrite Hdrop in Hd. by simplify_eq. }
    set (st1 := with_model (ONNXModel.replace_node_input r t (dq_output_name t k))
                  (with_model (ONNXModel.add_nodes (dedicated_pair st t sc zp k)) st)).
    set (st2 := if decide (k = 0)
                then with_quantized_value_map
                       (<[t := activation_value t (dq_output_name t k) sc zp data_type]>)
                       st1
                else st1).
    assert (dedicated_iteration t sc zp data_type k st = Ok tt st2) as Hbody.
    { unfold dedicated_iteration, _create_qdq_nodes. msimpl. rewrite Hrecv. simpl.
      rewrite Hk. simpl. unfold st2, st1. by destruct (decide (k = 0)). }
    assert (dedicated_pair st t sc zp k = dedicated_pair st0 t sc zp k) as Hpair.
    { unfold dedicated_pair, q_node, dq_node. by rewrite Hdom. }
    destruct (IH (S k) st2
                (alter (node_replace_input t (dq_output_name t k)) r kept)
                (added ++ dedicated_pair st0 t sc zp k))
      as (st' & Hrun & Hn & Hq & Httq & Hout & Hinit).
    + unfold st2, st1. by destruct (decide (k = 0)).
    + unfold st2, st1. by destruct (decide (k = 0)).
    + done.
    + assert (graph_node (model st1)
              = alter (node_replace_input t (dq_output_name t k)) r kept
                ++ added ++ dedicated_pair st0 t sc zp k) as Hst1.
      { unfold st1. simpl. rewrite Hnodes, Hpair, <-!app_assoc.
        by rewrite alter_app_l by done. }
      unfold st2. by destruct (decide (k = 0)).
    + by rewrite length_alter.
    + exists st'. split.
      { change (seq k (length (r :: tail))) with (k :: seq (S k) (length tail)).
        simpl. msimpl. fold (dedicated_iteration t sc zp data_type k).
        by rewrite Hbody. }
      split; [simpl; by rewrite Hn, <-!app_assoc|].
      split.
      { rewrite Hq, decide_False by lia. unfold st2, st1.
        destruct (decide (k = 0)) as [->|Hne]; simpl; [done|].
        rewrite decide_False; [done|]. by intros [? _]. }
      rewrite Httq, Hout, Hinit. unfold st2, st1.
      by destruct (decide (k = 0)).
Qed.

Lemma elem_of_rename (old new x : string) (l : list string) :
  x ∈ rename old new l ↔ (old ∈ l ∧ x = new) ∨ (x ∈ l ∧ x ≠ old).
Proof.
  unfold rename. rewrite list_elem_of_fmap. split.
  - intros (y & -> & Hy). case_decide; simplify_eq; auto.
  - intros [[Hold ->]|[Hx Hne]].
    + exists old. by rewrite decide_True.
    + exists x. by rewrite decide_False.
Qed.

Lemma dedicated_pairs_count (st : QDQQuantizer) (t sc zp : string) (n : nat) :
  ∀ k, let added := flat_map (dedicated_pair st t sc zp) (seq k n) in
  length (filter (λ nd, op_type nd = QUANT_OP_NAME) added) = n ∧
  length (filter (λ nd, op_type nd = DEQUANT_OP_NAME) added) = n ∧
  Forall (λ nd, ∃ x, input nd = [x; sc; zp]) added.
Proof.
  induction n as [|n IH]; intros k; simpl; [done|].
  destruct (IH (S k)) as (Hq & Hdq & Hin).
  rewrite filter_cons_False by done.
  rewrite Hq, Hdq. repeat split; try done.
  repeat apply Forall_cons; eauto.
Qed.

(** X19: in dedicated-pair mode, quantizing an activation with
    [N > 1] recorded consumers appends [N] Q nodes and [N] DQ nodes, all
    reading the same scale and zero-point names, with pairwise distinct DQ
    output names, and the value store records the first pair's DQ output.
    When the recorded consumers are pairwise distinct nodes, the consumer
    recorded at position [j] reads the [j]-th DQ output wherever it read the
    tensor, every other node is untouched, and (the new names being unused
    before and each consumer reading the tensor) the [j]-th DQ output is
    read by that consumer only. *)
Theorem dedicated_pairs_per_consumer (st : QDQQuantizer) (t sc zp : string)
    (dt : option Z) (recv : list nat) :
  dedicated_qdq_pair st = true →
  tensor_to_its_receiving_nodes st !! t = Some recv →
  1 < length recv →
  Forall (λ r, r < length (graph_node (model st))) recv →
  let nodes := graph_node (model st) in
  let rewired := rewire_from t 0 recv nodes in
  let added := flat_map (dedicated_pair st t sc zp) (seq 0 (length recv)) in
  ∃ st', _add_qdq_pair_for_activation t sc zp dt st = Ok tt st' ∧
    graph_node (model st') = rewired ++ added ∧
    length rewired = length nodes ∧
    length (filter (λ nd, op_type nd = QUANT_OP_NAME) added) = length recv ∧
    length (filter (λ nd, op_type nd = DEQUANT_OP_NAME) added) = length recv ∧
    Forall (λ nd, ∃ x, input nd = [x; sc; zp]) added ∧
    (∀ i j, dq_output_name t i = dq_output_name t j → i = j) ∧
    quantized_value_map st'
      = <[t := activation_value t (dq_output_name t 0) sc zp dt]>
          (quantized_value_map st) ∧
    (∀ k, k ∉ recv → rewired !! k = nodes !! k) ∧
    (NoDup recv →
       (∀ j r, recv !! j = Some r →
          rewired !! r = node_replace_input t (dq_output_name t j) <$> nodes !! r) ∧
       ((∀ nd j, nd ∈ nodes → dq_output_name t j ∉ input nd) →
        (∀ r nd, r ∈ recv → nodes !! r = Some nd → t ∈ input nd) →
        ∀ j r k nd', recv !! j = Some r → rewired !! k = Some nd' →
          dq_output_name t j ∈ input nd' ↔ k = r)).
Proof.
  intros Hd Hrecv Hlen Hvalid nodes rewired added.
  destruct (dedicated_loop t sc zp dt recv st recv 0 st nodes [])
    as (st' & Hrun & Hn & Hq & _); try done.
  { unfold nodes. by rewrite app_nil_r. }
  destruct (dedicated_pairs_count st t sc zp (length recv) 0) as (Hcq & Hcdq & Hins).
  exists st'. split.
  { unfold _add_qdq_pair_for_activation. msimpl.
    rewrite (wants_dedicated_pairs_true _ _ _ Hd Hrecv Hlen), Hrecv. exact Hrun. }
  split; [done|]. split; [apply length_rewire_from|].
  do 3 (split; [done|]).
  split; [intros i j Hij; by apply (dq_output_name_inj t)|].
  split.
  { rewrite Hq, decide_True; [done|]. split; [done|]. intros ->. simpl in Hlen. lia. }
  split; [intros k Hk; by apply rewire_from_other|].
  intros Hnd. split.
  { intros j r Hj. exact (rewire_from_consumer t recv Hnd 0 nodes j r Hj). }
  intros Hfresh Hreads j r k nd' Hj Hk. split.
  - intros Hin. destruct (decide (k ∈ recv)) as [Hkin|Hkout].
    + apply list_elem_of_lookup_1 in Hkin as [j' Hj'].
      unfold rewired in Hk.
      rewrite (rewire_from_consumer t recv Hnd 0 nodes j' k Hj') in Hk.
      destruct (nodes !! k) as [nd|] eqn:Hnode; [|done]. simpl in Hk.
      simplify_eq. simpl in Hin. apply elem_of_rename in Hin as [[_ Heq]|[Hin _]].
      * apply (dq_output_name_inj t) in Heq. simpl in Heq. simplify_eq. done.
      * exfalso. eapply Hfresh; [|done]. by eapply list_elem_of_lookup_2.
    + unfold rewired in Hk. rewrite rewire_from_other in Hk by done.
      exfalso. eapply Hfresh; [|done]. by eapply list_elem_of_lookup_2.
  - intros ->. unfold rewired in Hk.
    rewrite (rewire_from_consumer t recv Hnd 0 nodes j r Hj) in Hk.
    destruct (nodes !! r) as [nd|] eqn:Hnode; [|done]. simpl in Hk. simplify_eq.
    simpl. apply elem_of_rename. left. split; [|done].
    eapply Hreads; [|done]. by eapply list_elem_of_lookup_2.
Qed.

End Dedicated.

(** ** The rewriter on small graphs *)

(** C3 at the failing input: [y = Mul(x, x)] records the node [mul] twice as
    a consumer of [x]; the pass emits two Q and two DQ nodes, both inputs of
    [mul] read the first DQ output, and no node reads the second one. *)
Lemma twice_recorded_consumer_leaves_a_pair_unused :
  match @quantize_passes Example.utils Example.base 1 Example.square with
  | Ok _ st' =>
      tensor_to_its_receiving_nodes st' !! "x" = Some [0; 0] ∧
      input <$> graph_node (model st')
        = [ ["x_DequantizeLinear_Output_1"; "x_DequantizeLinear_Output_1"];
            ["x"; "x_scale"; "x_zero_point"];
            ["x_QuantizeLinear_Output_1"; "x_scale"; "x_zero_point"];
            ["x"; "x_scale"; "x_zero_point"];
            ["x_QuantizeLinear_Output_2"; "x_scale"; "x_zero_point"] ] ∧
      output <$> graph_node (model st')
        = [ ["y"];
            ["x_QuantizeLinear_Output_1"]; ["x_DequantizeLinear_Output_1"];
            ["x_QuantizeLinear_Output_2"]; ["x_DequantizeLinear_Output_2"] ]
  | _ => False
  end.
Proof. vm_compute. repeat split. Qed.

Lemma dedicated_pairs_per_consumer_witness :
  let st := Example.fork_marked true [] (<["x" := Example.plain Example.qparams32]> ∅) in
  ∃ st', @_add_qdq_pair_for_activation Example.utils "x" "x_scale" "x_zero_point"
           (Some FLOAT) st = Ok tt st' ∧
         input <$> graph_node (model st')
           = [ ["x_DequantizeLinear_Output_1"]; ["x_DequantizeLinear_Output_2"];
               ["x"; "x_scale"; "x_zero_point"];
               ["x_QuantizeLinear_Output_1"; "x_scale"; "x_zero_point"];
               ["x"; "x_scale"; "x_zero_point"];
               ["x_QuantizeLinear_Output_2"; "x_scale"; "x_zero_point"] ] ∧
         q_name <$> (original <$> quantized_value_map st' !! "x")
           = Some "x_DequantizeLinear_Output_1".
Proof.
  intros st.
  assert (Forall (λ r, r < length (graph_node (model st))) [0; 1]) as Hvalid.
  { repeat constructor. }
  destruct (@dedicated_pairs_per_consumer Example.utils st "x" "x_scale" "x_zero_point"
              (Some FLOAT) [0; 1] eq_refl eq_refl (le_n 2) Hvalid)
    as (st' & Hrun & Hnodes & _ & _ & _ & _ & _ & Hstore & _).
  exists st'. split; [exact Hrun|]. split.
  - rewrite Hnodes. reflexivity.
  - rewrite Hstore. reflexivity.
Defined.

Lemma converted_with_dedicated_pairs_fails_witness :
  let st := Example.fork_marked true []
              (<["x" := mkTQParams Example.qparams32 (Some Example.qparams32) None]> ∅) in
  ∃ e st', @_quantize_normal_tensor Example.utils Example.base
             ("x", mkInfo ACTIVATION None None false FLOAT) st = Raise e st' ∧
           graph_node (model st') = graph_node (model st).
Proof.
  intros st.
  destruct (@converted_with_dedicated_pairs_fails Example.utils Example.base st "x"
              [0; 1] eq_refl eq_refl (le_n 2)) as [_ Hpass].
  destruct (Hpass (mkInfo ACTIVATION None None false FLOAT) _
              (mkTQParams Example.qparams32 (Some Example.qparams32) None)
              Example.qparams32 eq_refl eq_refl eq_refl eq_refl eq_refl eq_refl)
    as (e & st' & Hrun & Hnodes & _).
  exists e, st'. split; [exact Hrun|exact Hnodes].
Defined.

Lemma single_pair_rewiring_witness :
  let st := Example.fork_marked false ["a"] ∅ in
  (∃ st', @_add_qdq_pair_for_activation Example.utils "a" "a_scale" "a_zero_point"
            None st = Ok tt st' ∧
          output <$> graph_node (model st')
            = [ ["a_QuantizeLinear_Input"]; ["b"];
                ["a_QuantizeLinear_Output"]; ["a"] ] ∧
          "a" ∈ graph_output (model st')) ∧
  (∃ st', @_add_qdq_pair_for_activation Example.utils "x" "x_scale" "x_zero_point"
            None st = Ok tt st' ∧
          input <$> graph_node (model st')
            = [ ["x_DequantizeLinear_Output"]; ["x_DequantizeLinear_Output"];
                ["x"; "x_scale"; "x_zero_point"];
                ["x_QuantizeLinear_Output"; "x_scale"; "x_zero_point"] ]).
Proof.
  intros st. split.
  - destruct (@single_pair_rewiring Example.utils st "a" "a_scale" "a_zero_point"
                None eq_refl) as [Hout _].
    destruct (Hout eq_refl) as (st' & Hrun & Hnodes & Hlisted & _).
    exists st'. split; [exact Hrun|]. split; [|exact Hlisted].
    rewrite Hnodes. reflexivity.
  - destruct (@single_pair_rewiring Example.utils st "x" "x_scale" "x_zero_point"
                None eq_refl) as [_ Hinner].
    destruct (Hinner eq_refl) as (st' & Hrun & Hnodes & _).
    exists st'. split; [exact Hrun|]. rewrite Hnodes. reflexivity.
Defined.


(** ** Shared-parameter resolution *)

Lemma odict_get_del_ne {V} (k t : string) (d : odict.t V) :
  k ≠ t → odict.get k (odict.del t d) = odict.get k d.
Proof.
  intros Hne. unfold odict.del. induction d as [|[k' v'] d IH]; [done|].
  rewrite filter_cons. simpl. destruct (decide (k' ≠ t)) as [Hk'|Hk']; simpl.
  - by rewrite IH.
  - rewrite IH. apply dec_stable in Hk'. subst k'. by rewrite decide_False.
Qed.

Lemma odict_get_del_eq {V} (t : string) (d : odict.t V) :
  odict.get t (odict.del t d) = None.
Proof.
  unfold odict.del. induction d as [|[k' v'] d IH]; [done|].
  rewrite filter_cons. simpl. destruct (decide (k' ≠ t)) as [Hk'|Hk']; simpl; [|done].
  by rewrite decide_False.
Qed.

Lemma odict_get_del_Some {V} (k t : string) (v : V) (d : odict.t V) :
  odict.get k (odict.del t d) = Some v → odict.get k d = Some v.
Proof.
  destruct (decide (k = t)) as [->|Hne].
  - by rewrite odict_get_del_eq.
  - by rewrite odict_get_del_ne.
Qed.

Lemma odict_length_del_le {V} (t : string) (d : odict.t V) :
  (length (odict.del t d) ≤ length d)%nat.
Proof. apply length_filter. Qed.

Lemma odict_length_del_lt {V} (t : string) (d : odict.t V) :
  odict.mem t d = true → (length (odict.del t d) < length d)%nat.
Proof.
  unfold odict.mem, odict.del. induction d as [|[k' v'] d IH]; [done|].
  rewrite filter_cons. simpl. pose proof (length_filter (λ e : string * V, e.1 ≠ t) d).
  destruct (decide (k' = t)) as [->|Hne].
  - intros _. rewrite decide_False by (intros ?; done). lia.
  - intros Hm. rewrite decide_True by done. simpl. apply IH in Hm. lia.
Qed.

Lemma odict_get_elem_of {V} (k : string) (v : V) (d : odict.t V) :
  odict.get k d = Some v → (k, v) ∈ d.
Proof.
  induction d as [|[k' v'] d IH]; [done|]. simpl.
  destruct (decide (k' = k)) as [->|Hne].
  - intros [= ->]. left.
  - intros Hget. right. by apply IH.
Qed.

Lemma reaches_resolved_sound (st : QDQQuantizer) (n : nat) :
  ∀ t, reaches_resolved st n t = true → resolvable st t.
Proof.
  induction n as [|n IH]; intros t; simpl; [done|].
  destruct (odict.get t (tensors_to_quantize st)) as [info|] eqn:Hget; [|done].
  intros [Hready|Hnext]%orb_prop.
  - by eapply resolvable_ready.
  - destruct (quant_para_provider info) as [p|] eqn:Hp; [|done].
    eapply resolvable_step; eauto.
Qed.

Lemma providers_resolvable_sound (st : QDQQuantizer) :
  providers_resolvable st = true →
  ∀ t info, odict.get t (tensors_to_quantize st) = Some info → resolvable st t.
Proof.
  unfold providers_resolvable. rewrite forallb_forall.
  intros Hall t info Hget. eapply reaches_resolved_sound.
  apply (Hall (t, info)). by apply list_elem_of_In, odict_get_elem_of.
Qed.

Lemma resolvable_registered (st : QDQQuantizer) (t : string) :
  resolvable st t → is_Some (odict.get t (tensors_to_quantize st)).
Proof. destruct 1; eauto. Qed.

Lemma resolvable_has_ready (st : QDQQuantizer) (t : string) :
  resolvable st t →
  ∃ t' info, (t', info) ∈ tensors_to_quantize st ∧ provider_ready st info = true.
Proof.
  induction 1 as [t info Hget Hready|]; [|done].
  exists t, info. split; [by apply odict_get_elem_of|done].
Qed.

#[local] Instance scan_frame_preorder : PreOrder scan_frame.
Proof.
  split.
  - intros s. split; try done. intros k [v Hv] Hnone. congruence.
  - intros s1 s2 s3 [m1 u1 v1 l1] [m2 u2 v2 l2]. split.
    + auto.
    + auto.
    + intros k Hk Hnone.
      destruct (odict.get k (tensors_to_quantize s2)) as [v|] eqn:Hk2; eauto.
    + lia.
Qed.

#[local] Instance registry_frame_preorder : PreOrder registry_frame.
Proof.
  split.
  - by intros s.
  - intros s1 s2 s3 [e1 m1] [e2 m2]. split; [congruence|auto].
Qed.

Lemma registry_frame_insert (t : string) (v : QDQTensorQuantizedValue)
    (s : QDQQuantizer) :
  registry_frame s (with_quantized_value_map (<[t := v]>) s).
Proof.
  split; [done|]. intros k Hk. simpl. rewrite lookup_insert_is_Some. 
  destruct (decide (t = k)); auto.
Qed.

Lemma registry_frame_same (s s' : QDQQuantizer) :
  tensors_to_quantize s' = tensors_to_quantize s →
  quantized_value_map s' = quantized_value_map s →
  registry_frame s s'.
Proof. intros Ht Hq. split; [done|]. by rewrite Hq. Qed.

(** Closes the obligations that [respects_walk] leaves for
    [registry_frame]. *)
Ltac registry_frame_walk :=
  respects_walk;
  try (apply respects_modify; intros;
       first [ apply registry_frame_insert | by apply registry_frame_same ]).

Lemma ensures_bind {A B} (m : M A) (f : A → M B) (Q : QDQQuantizer → Prop) :
  (∀ a, ensures (f a) Q) → ensures (m ≫= f) Q.
Proof.
  intros Hf s b s'. msimpl. destruct (m s) as [a s1| |]; [|done..].
  apply Hf.
Qed.

Lemma ensures_raise {A} (e : exn) (Q : QDQQuantizer → Prop) :
  ensures (raise (A:=A) e) Q.
Proof. by intros s a s'. Qed.

Lemma ensures_modify (f : QDQQuantizer → QDQQuantizer) (Q : QDQQuantizer → Prop) :
  (∀ s, Q (f s)) → ensures (modify f) Q.
Proof. intros Hf s a s'. msimpl. intros ?. simplify_eq. apply Hf. Qed.

Lemma ensures_respects {A} (m : M A) (R : relation QDQQuantizer) (T : Prop)
    (Q : QDQQuantizer → Prop) :
  respects R T m → (∀ s s', R s s' → Q s → Q s') →
  ∀ s a s', Q s → m s = Ok a s' → Q s'.
Proof.
  intros Hm HQ s a s' Hs Hrun. specialize (Hm s). rewrite Hrun in Hm. eauto.
Qed.

Section Sharing.
Context `{!QuantUtils} `{!BaseQuantizer}.

Lemma dedicated_iteration_frame (t sc zp : string) (dt : option Z) (i : nat) :
  respects registry_frame False (dedicated_iteration t sc zp dt i).
Proof. unfold dedicated_iteration. registry_frame_walk. Qed.

Lemma add_qdq_pair_for_activation_frame (t sc zp : string) (dt : option Z) :
  respects registry_frame False (_add_qdq_pair_for_activation t sc zp dt).
Proof. registry_frame_walk. Qed.

Lemma add_qdq_ops_for_converted_activation_frame (t s1 z1 : string) (dt : Z)
    (s2 z2 : string) (recv : option (gset string)) :
  respects registry_frame False
    (_add_qdq_ops_for_converted_activation t s1 z1 dt s2 z2 recv).
Proof. registry_frame_walk. Qed.

Lemma make_initializers_frame (t : string) (p : QuantizationParams) (sfx : string) :
  respects registry_frame False (__make_initializers t p sfx).
Proof. registry_frame_walk. Qed.

Lemma resolved_insert (t : string) (v : QDQTensorQuantizedValue) (s : QDQQuantizer) :
  resolved t (with_quantized_value_map (<[t := v]>) s).
Proof. unfold resolved. simpl. by rewrite lookup_insert_eq. Qed.

Lemma add_qdq_pair_for_activation_dedicated (t sc zp : string) (dt : option Z)
    (s : QDQQuantizer) (recv : list nat) :
  wants_dedicated_pairs s t = true →
  tensor_to_its_receiving_nodes s !! t = Some recv →
  _add_qdq_pair_for_activation t sc zp dt s
  = for_each (seq 0 (length recv)) (dedicated_iteration t sc zp dt) s.
Proof.
  intros Hwant Hrecv. unfold _add_qdq_pair_for_activation. msimpl.
  by rewrite Hwant, Hrecv.
Qed.

Lemma add_qdq_pair_for_activation_resolves (t sc zp : string) (dt : option Z) :
  ensures (_add_qdq_pair_for_activation t sc zp dt) (resolved t).
Proof.
  intros s a s'.
  destruct (wants_dedicated_pairs s t) eqn:Hwant.
  - pose proof Hwant as Hwant'. unfold wants_dedicated_pairs in Hwant'.
    destruct (tensor_to_its_receiving_nodes s !! t) as [recv|] eqn:Hrecv;
      [|by destruct (dedicated_qdq_pair s)].
    apply andb_prop in Hwant' as [_ Hlen%bool_decide_eq_true_1].
    rewrite (add_qdq_pair_for_activation_dedicated _ _ _ _ _ _ Hwant Hrecv).
    destruct recv as [|r recv]; [simpl in Hlen; lia|].
    change (seq 0 (length (r :: recv))) with (0 :: seq 1 (length recv)).
    cbn [for_each]. unfold mbind, M_mbind, M_bind.
    destruct (dedicated_iteration t sc zp dt 0 s) as [[] s1| |] eqn:Hfirst; [|done..].
    intros Hrest.
    eapply (ensures_respects _ _ _ (resolved t)
              (respects_for_each registry_frame False _ _
                 (dedicated_iteration_frame t sc zp dt))); [| |exact Hrest].
    + intros ?? [_ Hmono]. apply Hmono.
    + revert Hfirst. unfold dedicated_iteration, _create_qdq_nodes. msimpl.
      rewrite Hrecv. simpl. intros ?. simplify_eq. apply resolved_insert.
  - unfold _add_qdq_pair_for_activation. msimpl. rewrite Hwant.
    destruct (ONNXModel.is_graph_output (model s) t); simpl;
      intros ?; simplify_eq; apply resolved_insert.
Qed.

Lemma add_qdq_ops_for_converted_activation_resolves (t s1 z1 : string) (dt : Z)
    (s2 z2 : string) (recv : option (gset string)) :
  ensures (_add_qdq_ops_for_converted_activation t s1 z1 dt s2 z2 recv) (resolved t).
Proof.
  unfold _add_qdq_ops_for_converted_activation.
  apply ensures_bind. intros [nodes|]; [|apply ensures_raise].
  apply ensures_bind. intros names. apply ensures_bind. intros [|];
    [apply ensures_raise|].
  do 9 (apply ensures_bind; intros ?).
  apply ensures_modify. intros s. apply resolved_insert.
Qed.

Lemma resolve_from_provider_frame (t : string) (qv : QuantizedValue) :
  respects registry_frame False (resolve_from_provider t qv).
Proof. unfold resolve_from_provider. registry_frame_walk. Qed.

Lemma resolve_from_provider_resolves (t : string) (qv : QuantizedValue) :
  ensures (resolve_from_provider t qv) (resolved t).
Proof.
  unfold resolve_from_provider.
  apply ensures_bind. intros [|]; [apply ensures_raise|].
  apply ensures_bind. intros [qparams|]; [|apply ensures_raise].
  destruct (qparams !! t ≫= tqp_converted).
  - apply ensures_bind. intros inits.
    apply add_qdq_ops_for_converted_activation_resolves.
  - apply add_qdq_pair_for_activation_resolves.
Qed.

Lemma sharing_entry_unfold (t : string) (info : QDQTensorQuantInfo) :
  _quantize_sharing_param_tensor (t, info)
  = match quant_para_provider info with
    | None => mret tt
    | Some p =>
        provider_value ← gets (λ self, quantized_value_map self !! input_name p);
        match provider_value with
        | None => mret tt
        | Some provider_value =>
            del_tensors_to_quantize t ;;
            resolve_from_provider t (get_for_consumer provider_value (node_name p))
        end
    end.
Proof. reflexivity. Qed.

Lemma sharing_entry_idle (st : QDQQuantizer) (t : string) (info : QDQTensorQuantInfo) :
  provider_ready st info = false →
  _quantize_sharing_param_tensor (t, info) st = Ok tt st.
Proof.
  rewrite sharing_entry_unfold. unfold provider_ready.
  destruct (quant_para_provider info) as [p|]; [|done]. msimpl.
  destruct (quantized_value_map st !! input_name p); [|done].
  intros Hready. by apply bool_decide_eq_false_1 in Hready as [].
Qed.

(** One entry of a scan: it never runs out of fuel; when it returns, the
    frame holds, and an entry whose provider was resolved has left the
    registry. *)
Lemma sharing_entry_spec (st : QDQQuantizer) (t : string) (info : QDQTensorQuantInfo) :
  match _quantize_sharing_param_tensor (t, info) st with
  | Ok _ st' =>
      scan_frame st st' ∧
      (provider_ready st info = true →
       length (tensors_to_quantize st') < length (tensors_to_quantize st))
  | Raise _ _ => True
  | Timeout => False
  end.
Proof.
  destruct (provider_ready st info) eqn:Hready;
    [|rewrite sharing_entry_idle by done; split; [reflexivity|done]].
  rewrite sharing_entry_unfold. unfold provider_ready in Hready.
  destruct (quant_para_provider info) as [p|]; [|done]. msimpl.
  destruct (quantized_value_map st !! input_name p) as [pv|]; [|done].
  unfold del_tensors_to_quantize. msimpl.
  destruct (odict.mem t (tensors_to_quantize st)) eqn:Hmem; [|done]. simpl.
  set (st1 := with_tensors_to_quantize (odict.del t) st).
  pose proof (resolve_from_provider_frame t (get_for_consumer pv (node_name p)) st1)
    as Hframe.
  pose proof (resolve_from_provider_resolves t (get_for_consumer pv (node_name p)) st1)
    as Hres.
  destruct (resolve_from_provider t _ st1) as [[] st'| |]; [|done..].
  destruct Hframe as [Httq Hmono]. specialize (Hres tt st' eq_refl).
  split; [split|].
  - intros k Hk. by apply Hmono.
  - intros k v. rewrite Httq. simpl. apply odict_get_del_Some.
  - intros k Hk. rewrite Httq. simpl. intros Hnone.
    destruct (decide (k = t)) as [->|Hne]; [done|].
    rewrite odict_get_del_ne in Hnone by done. rewrite Hnone in Hk. by destruct Hk.
  - rewrite Httq. simpl. apply odict_length_del_le.
  - intros _. rewrite Httq. simpl. by apply odict_length_del_lt.
Qed.

Lemma provider_ready_mono (s s' : QDQQuantizer) (info : QDQTensorQuantInfo) :
  scan_frame s s' → provider_ready s info = true → provider_ready s' info = true.
Proof.
  intros Hframe. unfold provider_ready. destruct (quant_para_provider info); [|done].
  intros Hp%bool_decide_eq_true_1. apply bool_decide_eq_true_2.
  by apply (frame_mono _ _ Hframe).
Qed.

(** A scan over any snapshot. *)
Lemma sharing_scan_entries (snapshot : list (string * QDQTensorQuantInfo)) :
  ∀ st,
  match for_each snapshot _quantize_sharing_param_tensor st with
  | Ok _ st' =>
      scan_frame st st' ∧
      ((∃ e, e ∈ snapshot ∧ provider_ready st e.2 = true) →
       length (tensors_to_quantize st') < length (tensors_to_quantize st))
  | Raise _ _ => True
  | Timeout => False
  end.
Proof.
  induction snapshot as [|[t info] snapshot IH]; intros st.
  - simpl. split; [reflexivity|]. intros (e & He & _). by apply elem_of_nil in He.
  - cbn [for_each]. unfold mbind, M_mbind, M_bind.
    pose proof (sharing_entry_spec st t info) as Hentry.
    destruct (_quantize_sharing_param_tensor (t, info) st) as [[] st1| |]; [|done..].
    destruct Hentry as [Hframe1 Hstrict1].
    specialize (IH st1).
    destruct (for_each snapshot _ st1) as [[] st'| |]; [|done..].
    destruct IH as [Hframe Hstrict].
    split; [by etrans|].
    intros (e & [->|He]%elem_of_cons & Hready).
    + pose proof (frame_length _ _ Hframe). specialize (Hstrict1 Hready). lia.
    + pose proof (frame_length _ _ Hframe1).
      assert (length (tensors_to_quantize st') < length (tensors_to_quantize st1));
        [|lia].
      apply Hstrict. exists e. split; [done|]. by eapply provider_ready_mono.
Qed.

Lemma resolvable_after_scan (s s' : QDQQuantizer) (t : string) :
  scan_frame s s' →
  resolvable s t →
  is_Some (odict.get t (tensors_to_quantize s')) →
  resolvable s' t.
Proof.
  intros Hframe Hres. induction Hres as [t info Hget Hready|t info p Hget Hp Hnext IH];
    intros [info' Hget'].
  - pose proof (frame_sub _ _ Hframe _ _ Hget') as Hsame.
    eapply resolvable_ready; [done|]. rewrite Hget in Hsame. simplify_eq.
    by eapply provider_ready_mono.
  - pose proof (frame_sub _ _ Hframe _ _ Hget') as Hsame.
    rewrite Hget in Hsame. simplify_eq.
    destruct (odict.get (input_name p) (tensors_to_quantize s')) as [pinfo|] eqn:Hpget.
    + eapply resolvable_step; eauto.
    + eapply resolvable_ready; [done|]. unfold provider_ready. rewrite Hp.
      apply bool_decide_eq_true_2.
      apply (frame_moved _ _ Hframe); [|done]. by apply resolvable_registered.
Qed.

(** With every unresolved tensor grounded, the loop ends within as many
    scans as there are unresolved tensors, each scan resolving at least one. *)
Lemma sharing_loop_terminates (fuel : nat) :
  ∀ st,
  (∀ t info, odict.get t (tensors_to_quantize st) = Some info → resolvable st t) →
  length (tensors_to_quantize st) < fuel →
  match _quantize_sharing_param_tensors fuel st with
  | Ok _ st' => tensors_to_quantize st' = [] ∧ scan_frame st st'
  | Raise _ _ => True
  | Timeout => False
  end.
Proof.
  induction fuel as [|fuel IH]; intros st Hres Hfuel; [lia|].
  cbn [_quantize_sharing_param_tensors]. unfold mbind, M_mbind, M_bind, gets.
  destruct (tensors_to_quantize st) as [|[t info] pending] eqn:Hpending.
  - simpl. split; [done|reflexivity].
  - unfold sharing_scan, mbind, M_mbind, M_bind, gets.
    pose proof (sharing_scan_entries (tensors_to_quantize st) st) as Hscan.
    destruct (for_each _ _ st) as [[] st1| |]; [|done..].
    destruct Hscan as [Hframe Hstrict].
    assert (length (tensors_to_quantize st1) < length (tensors_to_quantize st)) as Hlt.
    { apply Hstrict.
      destruct (resolvable_has_ready st t) as (t' & info' & Hin & Hready).
      - apply (Hres t info). simpl. by rewrite decide_True.
      - by exists (t', info'). }
    assert (∀ t' info', odict.get t' (tensors_to_quantize st1) = Some info' →
                        resolvable st1 t') as Hres1.
    { intros t' info' Hget'. eapply resolvable_after_scan; eauto.
      pose proof (frame_sub _ _ Hframe _ _ Hget') as Hget.
      rewrite Hpending in Hget. by eapply Hres. }
    assert (length (tensors_to_quantize st1) < fuel) as Hfuel1.
    { rewrite Hpending in Hlt. simpl in *. lia. }
    specialize (IH st1 Hres1 Hfuel1).
    destruct (_quantize_sharing_param_tensors fuel st1) as [[] st'| |]; [|done..].
    destruct IH as [Hempty Hframe']. split; [done|by etrans].
Qed.

(** When no unresolved tensor has a resolved provider, a scan changes
    nothing and raises nothing, so the loop never ends. *)
Lemma idle_scan (snapshot : list (string * QDQTensorQuantInfo)) (st : QDQQuantizer) :
  forallb (λ e, negb (provider_ready st e.2)) snapshot = true →
  for_each snapshot _quantize_sharing_param_tensor st = Ok tt st.
Proof.
  induction snapshot as [|[t info] snapshot IH]; [done|]. cbn [for_each forallb].
  intros [Hidle Hrest]%andb_prop. apply negb_true_iff in Hidle. simpl in Hidle.
  unfold mbind, M_mbind, M_bind. rewrite sharing_entry_idle by done. by apply IH.
Qed.

Lemma sharing_loop_stuck (fuel : nat) (st : QDQQuantizer) :
  tensors_to_quantize st ≠ [] →
  no_progress st = true →
  sharing_scan st = Ok tt st ∧ _quantize_sharing_param_tensors fuel st = Timeout.
Proof.
  intros Hpending Hidle.
  assert (sharing_scan st = Ok tt st) as Hscan.
  { unfold sharing_scan, mbind, M_mbind, M_bind, gets. by apply idle_scan. }
  split; [done|]. induction fuel as [|fuel IH]; [done|].
  cbn [_quantize_sharing_param_tensors]. unfold mbind, M_mbind, M_bind, gets.
  destruct (tensors_to_quantize st); [done|]. by rewrite Hscan.
Qed.

(** C1 (as amended): when from every unresolved tensor the chain of providers
    reaches a resolved tensor, the loop ends within one scan per unresolved
    tensor, either raising or with the registry empty and every tensor that
    was registered resolved.  When no unresolved tensor has a resolved
    provider (a cycle, or a provider that is never resolved), a full scan
    changes nothing and raises nothing, and the loop is still running after
    any number of scans. *)
Theorem sharing_terminates_when_grounded (fuel : nat) (st : QDQQuantizer) :
  (providers_resolvable st = true →
   length (tensors_to_quantize st) < fuel →
   match _quantize_sharing_param_tensors fuel st with
   | Ok _ st' =>
       tensors_to_quantize st' = [] ∧
       ∀ t, is_Some (odict.get t (tensors_to_quantize st)) →
            is_Some (quantized_value_map st' !! t)
   | Raise _ _ => True
   | Timeout => False
   end) ∧
  (tensors_to_quantize st ≠ [] →
   no_progress st = true →
   sharing_scan st = Ok tt st ∧
   _quantize_sharing_param_tensors fuel st = Timeout).
Proof.
  split; [|apply sharing_loop_stuck].
  intros Hres Hfuel.
  pose proof (sharing_loop_terminates fuel st (providers_resolvable_sound st Hres) Hfuel)
    as Hloop.
  destruct (_quantize_sharing_param_tensors fuel st) as [[] st'| |]; [|done..].
  destruct Hloop as [Hempty Hframe]. split; [done|].
  intros t Ht. apply (frame_moved _ _ Hframe); [done|]. by rewrite Hempty.
Qed.

End Sharing.

(** ** The sharing loop on small provider graphs *)

(** C1, refuted as stated: registering [T1] as sharing from [T2] and [T2] as
    sharing from [T1] gives a registry on which a full scan changes nothing
    and raises nothing, and the loop is still running after any number of
    scans; the same holds when the provider [T0] of [T1] is never
    resolved. *)
Lemma cyclic_providers_raise_nothing :
  ((quantize_output_same_as_input "T1" "T2" "a" ;;
    quantize_output_same_as_input "T2" "T1" "b")
     (Example.quantizer (Example.pipe "T2") (Example.float_infos ["T1"; "T2"]) false ∅)
   = Ok tt Example.cyclic) ∧
  (@sharing_scan Example.utils Example.cyclic = Ok tt Example.cyclic ∧
   ∀ fuel, @_quantize_sharing_param_tensors Example.utils fuel Example.cyclic
           = Timeout) ∧
  (@sharing_scan Example.utils Example.dangling = Ok tt Example.dangling ∧
   ∀ fuel, @_quantize_sharing_param_tensors Example.utils fuel Example.dangling
           = Timeout).
Proof.
  split; [reflexivity|]. split.
  - split; [reflexivity|]. intros fuel.
    by apply (@sharing_loop_stuck Example.utils fuel Example.cyclic).
  - split; [reflexivity|]. intros fuel.
    by apply (@sharing_loop_stuck Example.utils fuel Example.dangling).
Qed.

Lemma sharing_terminates_when_grounded_witness :
  (∃ st', @_quantize_sharing_param_tensors Example.utils 3 Example.chain = Ok tt st' ∧
          tensors_to_quantize st' = [] ∧
          is_Some (quantized_value_map st' !! "T1") ∧
          is_Some (quantized_value_map st' !! "T2")) ∧
  @_quantize_sharing_param_tensors Example.utils 3 Example.cyclic = Timeout.
Proof.
  split.
  - destruct (@sharing_terminates_when_grounded Example.utils 3 Example.chain)
      as [Hterm _].
    specialize (Hterm eq_refl (le_n 3)).
    assert (∃ st', @_quantize_sharing_param_tensors Example.utils 3 Example.chain
                   = Ok tt st') as [st' Hrun].
    { eexists. vm_compute. reflexivity. }
    rewrite Hrun in Hterm. destruct Hterm as [Hempty Hall].
    exists st'. split; [exact Hrun|]. split; [exact Hempty|].
    split; apply Hall; simpl; eauto.
  - destruct (@sharing_terminates_when_grounded Example.utils 3 Example.cyclic)
      as [_ Hstuck].
    apply Hstuck; [discriminate|reflexivity].
Defined.

(** ** Invariants established by the marking loop *)

#[local] Instance marking_frame_preorder : PreOrder marking_frame.
Proof.
  split.
  - by intros s.
  - intros s1 s2 s3 (i1 & v1 & r1) (i2 & v2 & r2).
    split; [congruence|]. split; [congruence|auto].
Qed.

Lemma quantizable_same_typing (s s' : QDQQuantizer) (t : string) :
  graph_initializer (model s') = graph_initializer (model s) →
  value_infos s' = value_infos s →
  quantizable s' t = quantizable s t.
Proof. intros Hi Hv. unfold quantizable, _get_tensor_type. by rewrite Hi, Hv. Qed.

Lemma marking_frame_same (s s' : QDQQuantizer) :
  graph_initializer (model s') = graph_initializer (model s) →
  value_infos s' = value_infos s →
  tensors_to_quantize s' = tensors_to_quantize s →
  marking_frame s s'.
Proof.
  intros Hi Hv Ht. split; [done|]. split; [done|].
  intros Hok t info. rewrite Ht, (quantizable_same_typing s s') by done. apply Hok.
Qed.

Lemma marking_frame_set (s : QDQQuantizer) (t : string) (info : QDQTensorQuantInfo) :
  quantizable s t = true →
  marking_frame s (with_tensors_to_quantize (odict.set t info) s).
Proof.
  intros Hq. split; [done|]. split; [done|].
  intros Hok k v. simpl. destruct (decide (t = k)) as [<-|Hne].
  - intros _. exact Hq.
  - rewrite odict_get_set_ne by done. apply Hok.
Qed.

Lemma marking_frame_del (s : QDQQuantizer) (t : string) :
  marking_frame s (with_tensors_to_quantize (odict.del t) s).
Proof.
  split; [done|]. split; [done|].
  intros Hok k v. simpl. intros Hget%odict_get_del_Some. by eapply Hok.
Qed.

Section Marking.
Context `{!QuantUtils} `{!BaseQuantizer}.

Lemma quantize_tensor_marks (t : string) (provider : option QDQQuantParamProvider)
    (ttype : QDQQuantTensorType) :
  respects marking_frame False (__quantize_tensor t provider ttype).
Proof.
  intros s. unfold __quantize_tensor. msimpl. rewrite is_tensor_quantizable_run.
  set (s1 := if is_known s t then s
             else with_log (λ l, l ++ [failed_to_infer t]) s).
  assert (marking_frame s s1) as Hs1.
  { unfold s1. destruct (is_known s t); [reflexivity|by apply marking_frame_same]. }
  assert (quantizable s1 t = quantizable s t) as Hq1.
  { unfold s1. by destruct (is_known s t). }
  assert (_get_tensor_type s1 t = _get_tensor_type s t) as Hty1.
  { unfold s1. by destruct (is_known s t). }
  assert (tensors_to_quantize s1 = tensors_to_quantize s) as Httq1.
  { unfold s1. by destruct (is_known s t). }
  destruct (quantizable s t) eqn:Hq; [|done].
  destruct (quantizable_type _ _ Hq) as (dt & Hdt & _).
  unfold new_QDQTensorQuantInfo. destruct provider as [p|]; msimpl.
  - rewrite Hty1, Hdt. simpl. etrans; [exact Hs1|]. by apply marking_frame_set.
  - destruct (odict.mem t (tensors_to_quantize s1)); [done|].
    rewrite Hty1, Hdt. simpl. etrans; [exact Hs1|]. by apply marking_frame_set.
Qed.

Lemma quantize_weight_tensor_per_channel_marks (t : string) (ax : Z) :
  respects marking_frame False (quantize_weight_tensor_per_channel t ax).
Proof.
  intros s. unfold quantize_weight_tensor_per_channel, logging_warning. msimpl.
  destruct (find_by_name t (graph_initializer (model s))) as [w|] eqn:Hw; simpl.
  - destruct (is_float_kind (tp_data_type w)) eqn:Hf; simpl; [|reflexivity].
    apply marking_frame_set. unfold quantizable, _get_tensor_type. by rewrite Hw.
  - by apply marking_frame_same.
Qed.

Lemma quantize_activation_tensor_marks (t : string) :
  respects marking_frame False (quantize_activation_tensor t).
Proof. apply quantize_tensor_marks. Qed.

Lemma quantize_output_same_as_input_marks (out inp node : string) :
  respects marking_frame False (quantize_output_same_as_input out inp node).
Proof. apply quantize_tensor_marks. Qed.

Lemma quantize_weight_tensor_marks (t : string) :
  respects marking_frame False (quantize_weight_tensor t).
Proof. apply quantize_tensor_marks. Qed.

#[local] Hint Resolve quantize_tensor_marks quantize_weight_tensor_per_channel_marks
  quantize_activation_tensor_marks quantize_output_same_as_input_marks
  quantize_weight_tensor_marks : respects.

(** Closes the obligations that [respects_walk] leaves for
    [marking_frame]. *)
Ltac marking_frame_walk :=
  respects_walk;
  try (apply respects_modify; intros;
       first [ by apply marking_frame_same | apply marking_frame_del ]).

Lemma run_policy_marks (p : policy) : respects marking_frame False (run_policy p).
Proof. induction p; simpl; marking_frame_walk. Qed.

(** X1: the marking loop keeps the registry well formed: every tensor it
    registers passed the eligibility test. *)
Lemma mark_nodes_keeps_registry_ok (st : QDQQuantizer) :
  registry_ok st →
  match mark_nodes st with
  | Ok _ st' | Raise _ st' => registry_ok st'
  | Timeout => False
  end.
Proof.
  intros Hok.
  assert (respects marking_frame False mark_nodes) as Hmark.
  { pose proof run_policy_marks. marking_frame_walk. }
  specialize (Hmark st). destruct (mark_nodes st) as [[] st'|e st'|]; [| |done];
    destruct Hmark as (_ & _ & Hkeep); auto.
Qed.

#[local] Instance recording_frame_preorder (i : nat) : PreOrder (recording_frame i).
Proof.
  split.
  - by intros s.
  - intros s1 s2 s3 [l1 v1] [l2 v2]. split; [congruence|].
    intros Hi Hv. apply v2; [by rewrite l1|auto].
Qed.

Lemma recording_frame_same (i : nat) (s s' : QDQQuantizer) :
  length (graph_node (model s')) = length (graph_node (model s)) →
  tensor_to_its_receiving_nodes s' = tensor_to_its_receiving_nodes s →
  recording_frame i s s'.
Proof.
  intros Hl Hr. split; [done|]. intros _ Hv t recv. rewrite Hr, Hl. apply Hv.
Qed.

Lemma recording_frame_record (i : nat) (t : string) (s : QDQQuantizer) :
  recording_frame i s
    (with_receiving_nodes (λ m, <[t := default [] (m !! t) ++ [i]]> m) s).
Proof.
  split; [done|]. intros Hi Hv k recv. simpl.
  destruct (decide (t = k)) as [<-|Hne].
  - rewrite lookup_insert_eq. intros [= <-]. apply Forall_app. split.
    + destruct (tensor_to_its_receiving_nodes s !! t) as [old|] eqn:Hold; simpl.
      * by apply (Hv t).
      * constructor.
    + by repeat constructor.
  - rewrite lookup_insert_ne by done. apply Hv.
Qed.

(** Closes the obligations that [respects_walk] leaves for
    [recording_frame]. *)
Ltac recording_frame_walk :=
  respects_walk;
  try (apply respects_modify; intros;
       first [ apply recording_frame_record
             | apply recording_frame_same;
               [simpl; by rewrite ?length_fmap | done] ]).

Lemma run_policy_records (i : nat) (p : policy) :
  respects (recording_frame i) False (run_policy p).
Proof. induction p; simpl; recording_frame_walk. Qed.

Lemma mark_node_records (i : nat) : respects (recording_frame i) False (mark_node i).
Proof. pose proof (run_policy_records i). recording_frame_walk. Qed.

(** X2: the marking loop records as consumers positions of the node store
    only. *)
Lemma mark_nodes_keeps_consumers_valid (st : QDQQuantizer) :
  consumers_valid st →
  match mark_nodes st with
  | Ok _ st' | Raise _ st' => consumers_valid st'
  | Timeout => False
  end.
Proof.
  intros Hvalid.
  assert (∀ (l : list nat) s,
            Forall (λ i, i < length (graph_node (model s))) l →
            match for_each l mark_node s with
            | Ok _ s' | Raise _ s' =>
                length (graph_node (model s')) = length (graph_node (model s)) ∧
                (consumers_valid s → consumers_valid s')
            | Timeout => False
            end) as Hloop.
  { induction l as [|i l IH]; intros s Hall; [done|].
    apply Forall_cons in Hall as [Hi Hall].
    cbn [for_each]. unfold mbind, M_mbind, M_bind.
    pose proof (mark_node_records i s) as Hrec.
    destruct (mark_node i s) as [[] s1|e s1|]; [| |done];
      destruct Hrec as [Hlen Hkeep]; [|by auto].
    specialize (IH s1). rewrite Hlen in IH. specialize (IH Hall).
    destruct (for_each l mark_node s1) as [[] s'|e s'|]; [| |done];
      destruct IH as [Hlen' Hkeep']; auto. }
  unfold mark_nodes. msimpl.
  assert (Forall (λ i, i < length (graph_node (model st)))
                 (seq 0 (length (graph_node (model st))))) as Hall.
  { apply Forall_forall. intros i Hi%elem_of_seq. lia. }
  specialize (Hloop _ st Hall).
  destruct (for_each _ mark_node st) as [[] st'|e st'|]; [| |done];
    destruct Hloop as [_ Hkeep]; auto.
Qed.

End Marking.

(** The marking loop on the graph with two consumers of [x]. *)
Lemma mark_nodes_keeps_registry_ok_witness :
  let st := Example.fork false [] ∅ in
  ∃ st', @mark_nodes Example.base st = Ok tt st' ∧
         registry_ok st' ∧
         tensors_to_quantize st' = [("x", mkInfo ACTIVATION None None false FLOAT)].
Proof.
  intros st.
  assert (registry_ok st) as Hok by (apply registry_ok_forallb; reflexivity).
  pose proof (@mark_nodes_keeps_registry_ok Example.base st Hok) as Hkeep.
  assert (∃ st', @mark_nodes Example.base st = Ok tt st' ∧
                 tensors_to_quantize st'
                 = [("x", mkInfo ACTIVATION None None false FLOAT)]) as (st' & Hrun & Hreg).
  { eexists. split; vm_compute; reflexivity. }
  rewrite Hrun in Hkeep. exists st'. split; [exact Hrun|]. split; [exact Hkeep|exact Hreg].
Defined.

Lemma mark_nodes_keeps_consumers_valid_witness :
  let st := Example.fork true [] ∅ in
  ∃ st', @mark_nodes Example.base st = Ok tt st' ∧
         consumers_valid st' ∧
         tensor_to_its_receiving_nodes st' !! "x" = Some [0; 1].
Proof.
  intros st.
  assert (consumers_valid st) as Hvalid by (intros t recv Hrecv; done).
  pose proof (@mark_nodes_keeps_consumers_valid Example.base st Hvalid) as Hkeep.
  assert (∃ st', @mark_nodes Example.base st = Ok tt st' ∧
                 tensor_to_its_receiving_nodes st' !! "x" = Some [0; 1])
    as (st' & Hrun & Hrecv).
  { eexists. split; vm_compute; reflexivity. }
  rewrite Hrun in Hkeep. exists st'. split; [exact Hrun|]. split; [exact Hkeep|exact Hrecv].
Defined.

(** * Further properties of the registry *)

Section RegistryMore.
Context `{!QuantUtils} `{!BaseQuantizer}.

(** X3: the registration calls never raise: the assertion of
    [QDQTensorQuantInfo] on the element type cannot fail, because a tensor
    that passes the eligibility test has a type; they leave the model, the
    value store and the recorded removals as they were. *)
Theorem registration_never_raises (st : QDQQuantizer) :
  (∀ t provider ttype, ∃ st',
      __quantize_tensor t provider ttype st = Ok tt st' ∧
      model st' = model st ∧ quantized_value_map st' = quantized_value_map st ∧
      bias_to_quantize st' = bias_to_quantize st) ∧
  (∀ t ax, ∃ st',
      quantize_weight_tensor_per_channel t ax st = Ok tt st' ∧
      model st' = model st ∧ quantized_value_map st' = quantized_value_map st ∧
      bias_to_quantize st' = bias_to_quantize st) ∧
  (∀ node bias inp weight beta, ∃ st',
      quantize_bias_tensor node bias inp weight beta st = Ok tt st' ∧
      model st' = model st ∧ quantized_value_map st' = quantized_value_map st).
Proof.
  assert (∀ s t provider ttype, ∃ st',
      __quantize_tensor t provider ttype s = Ok tt st' ∧
      model st' = model s ∧ quantized_value_map st' = quantized_value_map s ∧
      bias_to_quantize st' = bias_to_quantize s) as Hreg.
  { intros s t provider ttype. unfold __quantize_tensor. msimpl.
    rewrite is_tensor_quantizable_run.
    destruct (quantizable s t) eqn:Hq.
    - rewrite (quantizable_is_known _ _ Hq).
      destruct (quantizable_type _ _ Hq) as (dt & Hdt & _).
      unfold new_QDQTensorQuantInfo. destruct provider as [p|]; msimpl.
      + rewrite Hdt. by eexists.
      + destruct (odict.mem t (tensors_to_quantize s)); [by eexists|].
        rewrite Hdt. by eexists.
    - destruct (is_known s t); by eexists. }
  assert (∀ s t ax, ∃ st',
      quantize_weight_tensor_per_channel t ax s = Ok tt st' ∧
      model st' = model s ∧ quantized_value_map st' = quantized_value_map s ∧
      bias_to_quantize st' = bias_to_quantize s) as Hpc.
  { intros s t ax. unfold quantize_weight_tensor_per_channel, logging_warning. msimpl.
    destruct (find_by_name t (graph_initializer (model s))) as [w|]; simpl;
      [destruct (is_float_kind (tp_data_type w))|]; by eexists. }
  split; [apply Hreg|]. split; [apply Hpc|].
  intros node bias inp weight beta.
  unfold quantize_bias_tensor, logging_info, logging_warning, quantize_weight_tensor.
  msimpl. destruct (truthy (tensor_quant_overrides st !! bias)); simpl.
  - destruct (per_channel st).
    + destruct (Hpc (with_log (λ l, l ++ [LogInfo "Quantizing bias tensor as a weight" bias]) st)
                  bias 0%Z) as (st' & -> & ? & ? & ?).
      by exists st'.
    + destruct (Hreg (with_log (λ l, l ++ [LogInfo "Quantizing bias tensor as a weight" bias]) st)
                  bias None WEIGHT) as (st' & -> & ? & ? & ?).
      by exists st'.
  - destruct (find_by_name bias (graph_initializer (model st))) as [w|]; simpl;
      [destruct (is_float_kind (tp_data_type w))|]; by eexists.
Qed.

(** X4: per-channel registration of a float initializer always writes the
    entry, whatever was registered before (a shared activation entry
    included), keeping its position; a later plain weight registration keeps
    the axis, and a later per-channel registration replaces it. *)
Theorem per_channel_registration_overwrites (st : QDQQuantizer) (t : string)
    (w : TensorProto) (ax : Z) :
  find_by_name t (graph_initializer (model st)) = Some w →
  is_float_kind (tp_data_type w) = true →
  let entry a := mkInfo WEIGHT None (Some a) false (tp_data_type w) in
  ∃ st', quantize_weight_tensor_per_channel t ax st = Ok tt st' ∧
    odict.get t (tensors_to_quantize st') = Some (entry ax) ∧
    (odict.mem t (tensors_to_quantize st) = true →
     odict.keys (tensors_to_quantize st') = odict.keys (tensors_to_quantize st)) ∧
    (∀ t', t' ≠ t → odict.get t' (tensors_to_quantize st')
                    = odict.get t' (tensors_to_quantize st)) ∧
    quantize_weight_tensor t st' = Ok tt st' ∧
    (∀ ax', ∃ st'', quantize_weight_tensor_per_channel t ax' st' = Ok tt st'' ∧
                    odict.get t (tensors_to_quantize st'') = Some (entry ax')).
Proof.
  intros Hw Hf entry.
  assert (∀ s a, find_by_name t (graph_initializer (model s)) = Some w →
      quantize_weight_tensor_per_channel t a s
      = Ok tt (with_tensors_to_quantize (odict.set t (entry a)) s)) as Hrun.
  { intros s a Hs. unfold quantize_weight_tensor_per_channel. msimpl.
    rewrite Hs. simpl. rewrite Hf. reflexivity. }
  eexists. split; [by apply Hrun|]. simpl.
  split; [apply odict_get_set_eq|].
  split; [apply odict_keys_set_present|].
  split; [intros t' Hne; by apply odict_get_set_ne|].
  split.
  - unfold quantize_weight_tensor, __quantize_tensor. msimpl.
    rewrite is_tensor_quantizable_run.
    assert (quantizable (with_tensors_to_quantize (odict.set t (entry ax)) st) t = true)
      as Hq.
    { unfold quantizable, _get_tensor_type. simpl. by rewrite Hw. }
    rewrite Hq, (quantizable_is_known _ _ Hq). simpl.
    unfold odict.mem. by rewrite odict_get_set_eq.
  - intros ax'. eexists. split; [by apply Hrun|]. simpl. apply odict_get_set_eq.
Qed.

(** X5: without overrides, [quantize_bias_tensor] queues the bias exactly
    when it is a float initializer, at the end of the queue; an initializer
    of another type is skipped silently, a tensor that is not an initializer
    is skipped with a warning; the registry is never touched. *)
Theorem bias_is_queued_iff_float_initializer (st : QDQQuantizer)
    (node bias inp weight : string) (beta : float) :
  truthy (tensor_quant_overrides st !! bias) = false →
  ∃ st', quantize_bias_tensor node bias inp weight beta st = Ok tt st' ∧
    tensors_to_quantize st' = tensors_to_quantize st ∧
    model st' = model st ∧
    match find_by_name bias (graph_initializer (model st)) with
    | Some w =>
        log st' = log st ∧
        bias_to_quantize st'
          = bias_to_quantize st ++
            (if is_float_kind (tp_data_type w)
             then [mkPendingBias node bias inp weight beta] else [])
    | None =>
        log st' = log st ++ [LogWarning "Expected to be a weight" bias] ∧
        bias_to_quantize st' = bias_to_quantize st
    end.
Proof.
  intros Hov. unfold quantize_bias_tensor, logging_warning. msimpl. rewrite Hov.
  destruct (find_by_name bias (graph_initializer (model st))) as [w|]; simpl.
  - destruct (is_float_kind (tp_data_type w)); eexists; repeat split; try done.
    simpl. by rewrite app_nil_r.
  - eexists. by repeat split.
Qed.

(** X6: [try_replacing_upstream_output] answers true exactly when the output
    has quantization parameters and the upstream tensor is read by one input
    slot and is neither a graph input nor a graph output; it then renames
    the upstream tensor to the output name in the outputs of every node and
    drops the upstream tensor from the registry.  When it answers false the
    quantizer is unchanged.  It raises [KeyError] when the output has
    parameters and no node reads the upstream tensor, and [TypeError] when
    there are no quantization parameters at all. *)
Theorem try_replacing_upstream_output_spec (st : QDQQuantizer) (upstream out : string) :
  match quantization_params st with
  | None => ∃ e, try_replacing_upstream_output upstream out st = Raise (TypeError e) st
  | Some qparams =>
      if bool_decide (is_Some (qparams !! out)) &&
         bool_decide (ONNXModel.input_name_to_nodes_len (model st) upstream = None)
      then try_replacing_upstream_output upstream out st = Raise (KeyError upstream) st
      else if upstream_replaceable st qparams upstream out
      then ∃ st', try_replacing_upstream_output upstream out st = Ok true st' ∧
             graph_node (model st')
               = node_replace_output upstream out <$> graph_node (model st) ∧
             tensors_to_quantize st' = odict.del upstream (tensors_to_quantize st) ∧
             odict.get upstream (tensors_to_quantize st') = None ∧
             quantized_value_map st' = quantized_value_map st
      else try_replacing_upstream_output upstream out st = Ok false st
  end.
Proof.
  unfold try_replacing_upstream_output, upstream_replaceable, is_tensor_quantized,
    del_tensors_to_quantize.
  msimpl. destruct (quantization_params st) as [qparams|]; [|by eexists].
  destruct (bool_decide (is_Some (qparams !! out))); simpl; [|done].
  destruct (ONNXModel.input_name_to_nodes_len (model st) upstream) as [n|] eqn:Hn;
    simpl; [|done].
  destruct (decide (n = 1)) as [->|Hne].
  - rewrite !bool_decide_eq_true_2 by done. simpl.
    destruct (ONNXModel.is_graph_output (model st) upstream); simpl; [done|].
    destruct (ONNXModel.is_graph_input (model st) upstream); simpl; [done|].
    destruct (odict.mem upstream (tensors_to_quantize st)) eqn:Hmem; simpl.
    + rewrite Hmem. eexists. split; [done|]. simpl. repeat split; try done.
      apply odict_get_del_eq.
    + eexists. split; [done|]. simpl.
      assert (odict.del upstream (tensors_to_quantize st) = tensors_to_quantize st)
        as Hdel.
      { unfold odict.mem in Hmem. unfold odict.del.
        induction (tensors_to_quantize st) as [|[k v] d IH]; [done|].
        simpl in Hmem. destruct (decide (k = upstream)) as [->|Hk]; [done|].
        rewrite filter_cons_True by done. f_equal. by apply IH. }
      rewrite Hdel. repeat split; try done.
      unfold odict.mem in Hmem. by destruct (odict.get upstream _).
  - rewrite (bool_decide_eq_false_2 (n = 1)) by done.
    rewrite (bool_decide_eq_false_2 (Some n = Some 1)) by congruence. done.
Qed.

End RegistryMore.

(** * The normal pass, entry by entry *)

Section NormalPass.
Context `{!QuantUtils} `{!BaseQuantizer}.

Lemma normal_entry_unfold (st : QDQQuantizer) (t : string) (info : QDQTensorQuantInfo) :
  quantized_value_map st !! t = None →
  is_shared info = false →
  find_by_name t (graph_initializer (model st)) = None →
  _quantize_normal_tensor (t, info) st
  = ((quant_params_initializers ← _create_quantization_initializers t;
     match quant_params_initializers with
     | None => raise (ValueError "Quantization parameters are not specified for param")
     | Some inits =>
         match inits_converted inits with
         | None =>
             _add_qdq_pair_for_activation t
               (tp_name (init_scale (inits_original inits)))
               (tp_name (init_zero_point (inits_original inits)))
               (Some (data_type info))
         | Some conv =>
             if decide (data_type info
                        = tp_data_type (init_scale (inits_original inits))) then
               _add_qdq_ops_for_converted_activation t
                 (tp_name (init_scale (inits_original inits)))
                 (tp_name (init_zero_point (inits_original inits)))
                 (data_type info)
                 (tp_name (init_scale conv))
                 (tp_name (init_zero_point conv))
                 (inits_converted_recv_nodes inits)
             else raise AssertionError
         end
     end) ;;
     del_tensors_to_quantize t) st.
Proof.
  intros Hfresh Hshared Hinit. unfold _quantize_normal_tensor.
  unfold mbind at 1, M_mbind at 1, M_bind at 1, gets at 1.
  rewrite Hfresh. simpl. rewrite Hshared.
  unfold mbind at 1, M_mbind at 1, M_bind at 1, gets at 1.
  by rewrite Hinit.
Qed.

(** What [_create_quantization_initializers] returns and leaves behind for a
    tensor with usable parameters. *)
Lemma create_quantization_initializers_run (st : QDQQuantizer) (t : string)
    (qparams : gmap string QDQTensorQuantParams) (params : QDQTensorQuantParams)
    (d : np_dtype) :
  quantization_params st = Some qparams →
  qparams !! t = Some params →
  scale_dtype (tqp_original params) = Some d →
  d ≠ np_float64 →
  let zp := make_tensor (t +:+ "_zero_point")
              (default (activation_qType st) (quant_type (tqp_original params))) []
              [zero_point (tqp_original params)] in
  let sc := make_tensor (t +:+ "_scale") (scale_elem_type d) []
              [SFloat (scale (tqp_original params))] in
  match tqp_converted params with
  | None =>
      _create_quantization_initializers t st
      = Ok (Some (mkTInits (mkInits sc zp) None (tqp_converted_recv_nodes params)))
           (with_model (with_initializers (λ l, l ++ [zp; sc])) st)
  | Some conv =>
      let czp := make_tensor (t +:+ "_zero_point_convert")
                   (default (activation_qType st) (quant_type conv)) []
                   [zero_point conv] in
      match scale_dtype conv with
      | Some np_float64 | None =>
          ∃ msg, _create_quantization_initializers t st
                 = Raise (ValueError msg)
                     (with_model (with_initializers (λ l, l ++ [zp; sc])) st)
      | Some d' =>
          let csc := make_tensor (t +:+ "_scale_convert") (scale_elem_type d') []
                       [SFloat (scale conv)] in
          _create_quantization_initializers t st
          = Ok (Some (mkTInits (mkInits sc zp) (Some (mkInits csc czp))
                               (tqp_converted_recv_nodes params)))
               (with_model (with_initializers (λ l, l ++ [zp; sc; czp; csc])) st)
      end
  end.
Proof.
  intros Hq Hparams Hd Hd64 zp sc.
  unfold _create_quantization_initializers, __make_initializers. msimpl.
  rewrite Hq. simpl. rewrite Hparams. simpl. rewrite Hd.
  destruct d; [| |done]; simpl;
    (destruct (tqp_converted params) as [conv|]; simpl;
     [destruct (scale_dtype conv) as [[]|]; simpl|]);
    unfold ONNXModel.add_initializer, with_initializers, with_model; simpl;
    rewrite <- ?app_assoc; simpl; first [done | by eexists].
Qed.

(** X7: an unshared activation that has no quantization parameters stops
    the normal pass with [ValueError]; the attempt leaves an info log and
    nothing else: model, registry and value store are as they were. *)
Theorem activation_without_parameters_raises (st : QDQQuantizer) (t : string)
    (info : QDQTensorQuantInfo) :
  quantized_value_map st !! t = None →
  is_shared info = false →
  find_by_name t (graph_initializer (model st)) = None →
  quantization_params st ≫= (λ m, m !! t) = None →
  ∃ msg st', _quantize_normal_tensor (t, info) st = Raise (ValueError msg) st' ∧
    model st' = model st ∧
    tensors_to_quantize st' = tensors_to_quantize st ∧
    quantized_value_map st' = quantized_value_map st ∧
    log st' = log st ++ [LogInfo "Quantization parameters not specified" t].
Proof.
  intros Hfresh Hshared Hinit Hnone.
  rewrite normal_entry_unfold by done.
  unfold _create_quantization_initializers, logging_info. msimpl.
  rewrite Hnone. by eexists _, _.
Qed.

(** X8: the dual-path rewriter looks up the recorded consumers of the tensor
    before anything else, so it raises [KeyError] on a tensor no marked node
    reads (an output of the graph that only leaves it, say), whatever the
    dedicated-pair option; the normal pass on such a tensor with converted
    parameters ends by raising it, having added the four parameter
    initializers and no node. *)
Theorem converted_without_consumers_raises (st : QDQQuantizer) (t : string) :
  tensor_to_its_receiving_nodes st !! t = None →
  (∀ s1 z1 dt s2 z2 recv,
     _add_qdq_ops_for_converted_activation t s1 z1 dt s2 z2 recv st
     = Raise (KeyError t) st) ∧
  (∀ info qparams params conv d d',
     quantized_value_map st !! t = None →
     is_shared info = false →
     find_by_name t (graph_initializer (model st)) = None →
     quantization_params st = Some qparams →
     qparams !! t = Some params →
     tqp_converted params = Some conv →
     scale_dtype (tqp_original params) = Some d → d ≠ np_float64 →
     scale_dtype conv = Some d' → d' ≠ np_float64 →
     data_type info = scale_elem_type d →
     ∃ st', _quantize_normal_tensor (t, info) st = Raise (KeyError t) st' ∧
       graph_node (model st') = graph_node (model st) ∧
       tp_name <$> graph_initializer (model st')
         = (tp_name <$> graph_initializer (model st)) ++
           [t +:+ "_zero_point"; t +:+ "_scale";
            t +:+ "_zero_point_convert"; t +:+ "_scale_convert"] ∧
       tensors_to_quantize st' = tensors_to_quantize st ∧
       quantized_value_map st' = quantized_value_map st).
Proof.
  intros Hrecv.
  assert (∀ st', tensor_to_its_receiving_nodes st' !! t = None →
      ∀ s1 z1 dt s2 z2 recv,
        _add_qdq_ops_for_converted_activation t s1 z1 dt s2 z2 recv st'
        = Raise (KeyError t) st') as Hraise.
  { intros st' Hrecv' **. unfold _add_qdq_ops_for_converted_activation. msimpl.
    by rewrite Hrecv'. }
  split; [by apply Hraise|].
  intros info qparams params conv d d' Hfresh Hshared Hinit Hq Hparams Hconv
    Hd Hd64 Hd' Hd64' Htype.
  rewrite normal_entry_unfold by done.
  pose proof (create_quantization_initializers_run st t _ _ _ Hq Hparams Hd Hd64) as Hrun.
  simpl in Hrun. rewrite Hconv, Hd' in Hrun.
  unfold mbind at 1, M_mbind at 1, M_bind at 1.
  unfold mbind at 1, M_mbind at 1, M_bind at 1.
  destruct d'; [| |done]; rewrite Hrun; simpl;
    (rewrite decide_True by done); (rewrite Hraise by done);
    eexists; (split; [done|]); simpl; repeat split; try done;
    by rewrite fmap_app.
Qed.

(** X9: on the converted path the normal pass asserts that the element type
    of the tensor is the one of its scale initializer; a float16 tensor with
    a float32 scale (or the reverse) ends the pass with [AssertionError],
    after the parameter initializers were added and before any node is.  The
    single-pair path has no such check. *)
Theorem converted_scale_type_mismatch_asserts (st : QDQQuantizer) (t : string)
    (info : QDQTensorQuantInfo) (qparams : gmap string QDQTensorQuantParams)
    (params : QDQTensorQuantParams) (conv : QuantizationParams) (d d' : np_dtype) :
  quantized_value_map st !! t = None →
  is_shared info = false →
  find_by_name t (graph_initializer (model st)) = None →
  quantization_params st = Some qparams →
  qparams !! t = Some params →
  tqp_converted params = Some conv →
  scale_dtype (tqp_original params) = Some d → d ≠ np_float64 →
  scale_dtype conv = Some d' → d' ≠ np_float64 →
  data_type info ≠ scale_elem_type d →
  ∃ st', _quantize_normal_tensor (t, info) st = Raise AssertionError st' ∧
    graph_node (model st') = graph_node (model st) ∧
    length (graph_initializer (model st')) = length (graph_initializer (model st)) + 4 ∧
    tensors_to_quantize st' = tensors_to_quantize st ∧
    quantized_value_map st' = quantized_value_map st.
Proof.
  intros Hfresh Hshared Hinit Hq Hparams Hconv Hd Hd64 Hd' Hd64' Htype.
  rewrite normal_entry_unfold by done.
  pose proof (create_quantization_initializers_run st t _ _ _ Hq Hparams Hd Hd64) as Hrun.
  simpl in Hrun. rewrite Hconv, Hd' in Hrun.
  unfold mbind at 1, M_mbind at 1, M_bind at 1.
  unfold mbind at 1, M_mbind at 1, M_bind at 1.
  destruct d'; [| |done]; rewrite Hrun; simpl;
    (rewrite decide_False by done);
    eexists; (split; [done|]); simpl; repeat split; try done;
    rewrite length_app; simpl; lia.
Qed.

End NormalPass.

(** * What the rewriter emits *)

Section Emission.
Context `{!QuantUtils} `{!BaseQuantizer}.

(** X10: the normal pass on an unshared activation that has original
    parameters only, in single-pair mode: it appends the zero-point and the
    scale initializer under the names [t_zero_point] and [t_scale], then one
    Q and one DQ node that read exactly these two names; it records the
    tensor with the DQ output, the two names and the element type of the
    registry entry, and drops the entry from the registry.  For an output of
    the graph the producers are rewired to the Q input and the DQ node writes
    the tensor; otherwise the consumers are rewired to the DQ output. *)
Theorem normal_pass_quantizes_activation (st : QDQQuantizer) (t : string)
    (info : QDQTensorQuantInfo) (qparams : gmap string QDQTensorQuantParams)
    (params : QDQTensorQuantParams) (d : np_dtype) :
  quantized_value_map st !! t = None →
  is_shared info = false →
  find_by_name t (graph_initializer (model st)) = None →
  quantization_params st = Some qparams →
  qparams !! t = Some params →
  tqp_converted params = None →
  scale_dtype (tqp_original params) = Some d → d ≠ np_float64 →
  wants_dedicated_pairs st t = false →
  odict.mem t (tensors_to_quantize st) = true →
  let sc := t +:+ "_scale" in
  let zp := t +:+ "_zero_point" in
  let is_out := ONNXModel.is_graph_output (model st) t in
  let q_in := if is_out then add_quant_input_suffix t else t in
  let dq_out := if is_out then t else add_dequant_output_suffix t in
  ∃ st', _quantize_normal_tensor (t, info) st = Ok tt st' ∧
    graph_initializer (model st')
      = graph_initializer (model st) ++
        [make_tensor zp (default (activation_qType st) (quant_type (tqp_original params)))
                     [] [zero_point (tqp_original params)];
         make_tensor sc (scale_elem_type d) [] [SFloat (scale (tqp_original params))]] ∧
    graph_node (model st')
      = ((if is_out then node_replace_output t q_in else node_replace_input t dq_out)
           <$> graph_node (model st))
        ++ [q_node st q_in (add_quant_output_suffix t) (add_quant_suffix t) sc zp None;
            dq_node st (add_quant_output_suffix t) dq_out (add_dequant_suffix t)
                    sc zp None] ∧
    quantized_value_map st'
      = <[t := activation_value t dq_out sc zp (Some (data_type info))]>
          (quantized_value_map st) ∧
    tensors_to_quantize st' = odict.del t (tensors_to_quantize st).
Proof.
  intros Hfresh Hshared Hinit Hq Hparams Hconv Hd Hd64 Hmode Hmem sc zp is_out q_in dq_out.
  rewrite normal_entry_unfold by done.
  pose proof (create_quantization_initializers_run st t _ _ _ Hq Hparams Hd Hd64) as Hrun.
  simpl in Hrun. rewrite Hconv in Hrun.
  unfold mbind at 1, M_mbind at 1, M_bind at 1.
  unfold mbind at 1, M_mbind at 1, M_bind at 1.
  rewrite Hrun. simpl.
  unfold _add_qdq_pair_for_activation, del_tensors_to_quantize. msimpl.
  unfold wants_dedicated_pairs in *. simpl. rewrite Hmode.
  subst q_in dq_out is_out. unfold ONNXModel.is_graph_output. simpl.
  destruct (bool_decide (t ∈ graph_output (model st))); simpl; rewrite Hmem;
    eexists; (split; [done|]); by repeat split.
Qed.

(** X11: the initializer path on a weight that has no record yet.  It rewires
    every reader of the weight to the DQ output first, then emits the nodes:
    with [AddQDQPairToWeight] a Q node that still reads the float weight and
    a DQ node; otherwise a single DQ node that reads the quantized
    initializer.  Per channel, the nodes carry the axis, the weight is
    quantized with INT8 when the activation type is UINT8 and with the
    activation type otherwise, whatever the weight type; and below opset 13
    the call raises [ValueError] and leaves the quantizer as it was. *)
Theorem initializer_pair_emission (st : QDQQuantizer) (w : TensorProto)
    (ty : QDQQuantTensorType) :
  (∀ ax q zp sc inits',
     quantized_value_map st !! tp_name w = None →
     match ax with
     | Some a =>
         (13 ≤ opset_version st)%Z ∧
         quantize_weight_per_channel_impl (tp_name w)
           (if decide (activation_qType st = UINT8) then INT8 else activation_qType st)
           a true (add_qdq_pair_to_weight st) (graph_initializer (model st))
         = inr ((q, zp, sc), inits')
     | None =>
         quantize_initializer_impl w
           (match ty with WEIGHT => weight_qType st | _ => activation_qType st end)
           false (add_qdq_pair_to_weight st) (graph_initializer (model st))
         = inr ((q, zp, sc), inits')
     end →
     let dq_out := add_dequant_output_suffix (tp_name w) in
     let q_out := add_quant_output_suffix (tp_name w) in
     ∃ st', _add_qdq_pair_for_initializer w ty ax st = Ok tt st' ∧
       graph_node (model st')
         = (node_replace_input (tp_name w) dq_out <$> graph_node (model st)) ++
           (if add_qdq_pair_to_weight st
            then [q_node st (tp_name w) q_out (add_quant_suffix (tp_name w)) sc zp ax;
                  dq_node st q_out dq_out (add_dequant_suffix (tp_name w)) sc zp ax]
            else [dq_node st q dq_out (add_dequant_suffix (tp_name w)) sc zp ax]) ∧
       graph_initializer (model st') = inits' ∧
       quantized_value_map st'
         = <[tp_name w := initializer_value (tp_name w) q zp sc]>
             (quantized_value_map st) ∧
       tensors_to_quantize st' = tensors_to_quantize st) ∧
  (∀ a, (opset_version st < 13)%Z →
     ∃ msg, _add_qdq_pair_for_initializer w ty (Some a) st = Raise (ValueError msg) st).
Proof.
  split.
  - intros ax q zp sc inits' Hfresh Himpl dq_out q_out.
    unfold _add_qdq_pair_for_initializer, quantize_weight_per_channel,
      quantize_initializer, _create_qdq_nodes, call_impl. msimpl.
    destruct ax as [a|].
    + destruct Himpl as [Hopset Himpl].
      rewrite decide_False by lia. simpl. rewrite Hfresh. simpl. rewrite Himpl. simpl.
      destruct (add_qdq_pair_to_weight st); simpl; eexists; (split; [done|]);
        by repeat split.
    + simpl. rewrite Hfresh. simpl. rewrite Himpl. simpl.
      destruct (add_qdq_pair_to_weight st); simpl; eexists; (split; [done|]);
        by repeat split.
  - intros a Hopset. unfold _add_qdq_pair_for_initializer. msimpl.
    rewrite decide_True by done. by eexists.
Qed.

End Emission.

(** * The dual-path rewriter *)

Section Converted.
Context `{!QuantUtils} `{!BaseQuantizer}.

Lemma rename_same (t : string) (l : list string) : rename t t l = l.
Proof.
  unfold rename. induction l as [|x l IH]; [done|]. rewrite fmap_cons, IH.
  by destruct (decide (x = t)) as [->|].
Qed.

Lemma node_replace_input_same (t : string) (n : NodeProto) :
  node_replace_input t t n = n.
Proof. unfold node_replace_input. rewrite rename_same. by destruct n. Qed.

(** X12: the dual-path rewriter in single-pair mode, on a tensor with recorded
    consumers none of which bears the name of a node the rewriter emits.  It
    appends, in this order, the first Q and DQ nodes, a clone of the first DQ
    node unless as many nodes take the converted type as there are consumer
    names, and the second Q and DQ nodes; it records both quantized values
    with the names of the nodes that take the converted one.  Rewiring goes
    by node name: every node named among the recorded consumers or the
    converted ones now reads, in place of the tensor, the very output that
    the record answers for it through [get_for_consumer]; every other node
    keeps its inputs.  For an output of the graph the producers are rewired
    to the input of the first Q node. *)
Theorem converted_activation_rewiring (st : QDQQuantizer) (t s1 z1 : string) (dt : Z)
    (s2 z2 : string) (convert_recv : option (gset string)) (recv : list nat) :
  tensor_to_its_receiving_nodes st !! t = Some recv →
  wants_dedicated_pairs st t = false →
  let names := recv_node_names st recv in
  let conv := default names convert_recv in
  let all_conv := bool_decide (size conv = size names) in
  let is_out := ONNXModel.is_graph_output (model st) t in
  let q1_in := if is_out then add_quant_input_suffix t else t in
  let q1_out := add_quant_output_suffix t in
  let dq1_out := if is_out && negb all_conv then t else add_dequant_output_suffix t in
  let q2_in := if all_conv then dq1_out
               else add_quant_input_suffix (t +:+ "_convert") in
  let q2_out := add_quant_output_suffix (t +:+ "_convert") in
  let dq2_out := if is_out && all_conv then t
                 else add_dequant_output_suffix (t +:+ "_convert") in
  let r := mkTQV (mkQV t dq1_out s1 z1 VInput None None None (Some dt))
                 (Some (mkQV t dq2_out s2 z2 VInput None None None (Some dt)))
                 (Some conv) in
  Forall (λ nm, nm ∉ names ∪ conv)
    [add_quant_suffix t; add_dequant_suffix t;
     add_dequant_suffix (t +:+ "_convert_clone"); add_quant_suffix (t +:+ "_convert")] →
  ∃ st', _add_qdq_ops_for_converted_activation t s1 z1 dt s2 z2 convert_recv st
         = Ok tt st' ∧
    quantized_value_map st' = <[t := r]> (quantized_value_map st) ∧
    drop (length (graph_node (model st))) (graph_node (model st'))
      = [q_node st q1_in q1_out (add_quant_suffix t) s1 z1 None;
         dq_node st q1_out dq1_out (add_dequant_suffix t) s1 z1 None] ++
        (if all_conv then []
         else [dq_node st q1_out q2_in (add_dequant_suffix (t +:+ "_convert_clone"))
                       s1 z1 None]) ++
        [q_node st q2_in q2_out (add_quant_suffix (t +:+ "_convert")) s2 z2 None;
         dq_node st q2_out dq2_out (add_dequant_suffix (t +:+ "_convert")) s2 z2 None] ∧
    (∀ i n, graph_node (model st) !! i = Some n →
       ∃ n', graph_node (model st') !! i = Some n' ∧
         name n' = name n ∧
         output n' = (if is_out then rename t q1_in (output n) else output n) ∧
         input n' = if bool_decide (name n ∈ names ∪ conv)
                    then rename t (q_name (get_for_consumer r (name n))) (input n)
                    else input n).
Proof.
  intros Hrecv Hmode names conv all_conv is_out q1_in q1_out dq1_out q2_in q2_out
    dq2_out r Hnames.
  apply Forall_cons in Hnames as [Hq1 Hnames].
  apply Forall_cons in Hnames as [Hdq1 Hnames].
  apply Forall_cons in Hnames as [Hclone Hnames].
  apply Forall_cons in Hnames as [Hq2 _].
  set (orig := match convert_recv with
               | None => (∅ : gset string)
               | Some c => names ∖ c
               end).
  assert (∀ nm, nm ∈ orig → nm ∈ names ∧ nm ∉ conv) as Horig.
  { intros nm. subst orig conv. destruct convert_recv as [c|]; simpl.
    - by intros [? ?]%elem_of_difference.
    - by intros ?%elem_of_empty. }
  assert (∀ nm, nm ∈ names ∪ conv → nm ∉ conv → nm ∈ orig) as Horig'.
  { intros nm [Hn|Hc]%elem_of_union Hnc; [|done].
    subst orig conv. destruct convert_recv as [c|]; simpl in *.
    - by apply elem_of_difference.
    - done. }
  unfold _add_qdq_ops_for_converted_activation, _create_q_node, _create_dq_node.
  msimpl. rewrite Hrecv. simpl. rewrite Hmode.
  fold names. fold orig. fold conv. fold all_conv. fold is_out.
  assert (∀ nm, nm ∉ names ∪ conv →
            bool_decide (nm ∈ orig) = false ∧ bool_decide (nm ∈ conv) = false) as Hout.
  { intros nm Hnm. split; apply bool_decide_eq_false_2.
    - intros [? _]%Horig. apply Hnm, elem_of_union. by left.
    - intros ?. apply Hnm, elem_of_union. by right. }
  destruct (Hout _ Hq1) as [Hq1o Hq1c]. destruct (Hout _ Hdq1) as [_ Hdq1c].
  destruct (Hout _ Hclone) as [_ Hclonec]. destruct (Hout _ Hq2) as [_ Hq2c].
  clear Hout Hq1 Hdq1 Hclone Hq2.
  subst r q2_in.
  change (if is_out && negb all_conv then t else add_dequant_output_suffix t)
    with dq1_out.
  change (if is_out && all_conv then t
          else add_dequant_output_suffix (t +:+ "_convert")) with dq2_out.
  set (g1 := negb (bool_decide (orig = ∅)) && negb (bool_decide (dq1_out = t))).
  set (g2 := negb (bool_decide (conv = ∅)) && negb (bool_decide (dq2_out = t))).
  assert (g1 = false → ∀ nm, nm ∈ orig → dq1_out = t) as Hg1.
  { subst g1. intros [Hg|Hg]%andb_false_iff nm Hnm.
    - apply negb_false_iff, bool_decide_eq_true_1 in Hg. rewrite Hg in Hnm.
      by apply elem_of_empty in Hnm.
    - by apply negb_false_iff, bool_decide_eq_true_1 in Hg. }
  assert (g2 = false → ∀ nm, nm ∈ conv → dq2_out = t) as Hg2.
  { subst g2. intros [Hg|Hg]%andb_false_iff nm Hnm.
    - apply negb_false_iff, bool_decide_eq_true_1 in Hg. rewrite Hg in Hnm.
      by apply elem_of_empty in Hnm.
    - by apply negb_false_iff, bool_decide_eq_true_1 in Hg. }
  clearbody g1 g2 orig. clearbody conv. clearbody names.
  subst q1_in q1_out q2_out.
  clearbody dq1_out dq2_out. clearbody all_conv. clearbody is_out.
  destruct g1, g2, is_out, all_conv; simpl.
  all: eexists; split; [reflexivity|]; split; [reflexivity|].
  all: unfold q_node, dq_node, make_node; simpl; rewrite ?fmap_app, <- ?app_assoc.
  all: split;
    [ rewrite drop_app_length' by (by rewrite ?length_fmap); simpl;
      repeat (first [rewrite Hq1o|rewrite Hq1c|rewrite Hdq1c|rewrite Hclonec
                    |rewrite Hq2c]; simpl);
      reflexivity
    | intros i n Hn;
      rewrite lookup_app_l by (rewrite ?length_fmap; by eapply lookup_lt_Some);
      rewrite ?list_lookup_fmap, Hn; simpl; eexists; (split; [reflexivity|]);
      unfold get_for_consumer; simpl;
      destruct (decide (name n ∈ orig)) as [Ho|Ho];
      destruct (decide (name n ∈ conv)) as [Hc|Hc];
      [by destruct (Horig _ Ho)| | |];
      rewrite ?(bool_decide_eq_true_2 _ Ho), ?(bool_decide_eq_false_2 _ Ho); simpl;
      rewrite ?(bool_decide_eq_true_2 _ Hc), ?(bool_decide_eq_false_2 _ Hc); simpl;
      [rewrite (bool_decide_eq_true_2 (name n ∈ names ∪ conv))
         by (apply elem_of_union; left; by apply Horig)
      |rewrite (bool_decide_eq_true_2 (name n ∈ names ∪ conv))
         by (apply elem_of_union; by right)
      |rewrite (bool_decide_eq_false_2 (name n ∈ names ∪ conv))
         by (intros ?; apply Ho; by apply Horig')];
      try rewrite (Hg1 eq_refl _ Ho); try rewrite (Hg2 eq_refl _ Hc);
      rewrite ?rename_same; done ].
Qed.


End Converted.

(** * Invariants of the passes *)

Lemma respects_weaken {A} (R R' : relation QDQQuantizer) (T T' : Prop) (m : M A) :
  (∀ s s', R s s' → R' s s') → (T → T') → respects R T m → respects R' T' m.
Proof.
  intros HR HT Hm s. specialize (Hm s). destruct (m s); auto.
Qed.

Lemma find_by_name_name (t : string) (l : list TensorProto) (w : TensorProto) :
  find_by_name t l = Some w → tp_name w = t.
Proof.
  unfold find_by_name. intros [_ Hw]%find_some. by apply bool_decide_eq_true_1 in Hw.
Qed.

Lemma filter_all {A} (P : A → Prop) `{!∀ x, Decision (P x)} (l : list A) :
  Forall P l → filter P l = l.
Proof.
  induction 1 as [|x l Hx _ IH]; [done|]. by rewrite filter_cons_True, IH.
Qed.

Lemma filter_ext_in {A} (P Q : A → Prop) `{!∀ x, Decision (P x)}
    `{!∀ x, Decision (Q x)} (l : list A) :
  (∀ x, x ∈ l → P x ↔ Q x) → filter P l = filter Q l.
Proof.
  induction l as [|x l IH]; intros HPQ; [done|].
  assert (filter P l = filter Q l) as Hrest.
  { apply IH. intros y Hy. apply HPQ. by right. }
  destruct (decide (P x)) as [HP|HP].
  - rewrite !filter_cons_True; [by rewrite Hrest| |done].
    apply HPQ; [by left|done].
  - rewrite !filter_cons_False; [done| |done].
    intros HQ. apply HP. apply HPQ; [by left|done].
Qed.

Lemma odict_del_del {V} (t : string) (d : odict.t V) :
  odict.del t (odict.del t d) = odict.del t d.
Proof.
  unfold odict.del. apply filter_all, Forall_forall.
  by intros x [? _]%list_elem_of_filter.
Qed.

Lemma odict_elem_of_get {V} (k : string) (v : V) (d : odict.t V) :
  (k, v) ∈ d → is_Some (odict.get k d).
Proof.
  induction d as [|[k' v'] d IH]; [by intros ?%elem_of_nil|]. simpl.
  intros [?|?]%elem_of_cons; simplify_eq.
  - by rewrite decide_True.
  - destruct (decide (k' = k)); [done|by apply IH].
Qed.

Lemma NoDup_keys_inj {V} (d : odict.t V) (k : string) (v1 v2 : V) :
  NoDup (odict.keys d) → (k, v1) ∈ d → (k, v2) ∈ d → v1 = v2.
Proof.
  unfold odict.keys. induction d as [|[k' v'] d IH]; [by intros _ ?%elem_of_nil|].
  rewrite fmap_cons. simpl. intros [Hk Hd]%NoDup_cons.
  intros [?|H1]%elem_of_cons [?|H2]%elem_of_cons; simplify_eq.
  - done.
  - destruct Hk. apply list_elem_of_fmap. eexists. split; [|eassumption]. done.
  - destruct Hk. apply list_elem_of_fmap. eexists. split; [|eassumption]. done.
  - by apply IH.
Qed.

#[local] Instance record_frame_preorder (t : string) : PreOrder (record_frame t).
Proof.
  split.
  - by intros s.
  - intros s1 s2 s3 (r1 & b1 & o1 & k1) (r2 & b2 & o2 & k2).
    repeat split; [congruence|congruence| |auto].
    intros k Hk. by rewrite o2, o1.
Qed.

Lemma record_frame_insert (t : string) (v : QDQTensorQuantizedValue) (s : QDQQuantizer) :
  record_frame t s (with_quantized_value_map (<[t := v]>) s).
Proof.
  repeat split; simpl.
  - intros k Hk. by rewrite lookup_insert_ne.
  - intros _. by rewrite lookup_insert_eq.
Qed.

Lemma record_frame_same (t : string) (s s' : QDQQuantizer) :
  tensors_to_quantize s' = tensors_to_quantize s →
  bias_to_quantize s' = bias_to_quantize s →
  quantized_value_map s' = quantized_value_map s →
  record_frame t s s'.
Proof. intros Hr Hb Hq. repeat split; [done|done| |]; by rewrite Hq. Qed.

(** Closes the obligations that [respects_walk] leaves for [record_frame]. *)
Ltac record_frame_walk :=
  respects_walk;
  try (first [ apply respects_modify | apply respects_call_impl; [tc_solve|] ];
       intros; first [ apply record_frame_insert | by apply record_frame_same ]).

#[local] Instance unregistered_kept_preorder : PreOrder unregistered_kept.
Proof.
  split.
  - by intros s.
  - intros s1 s2 s3 [u1 k1] [u2 k2]. split; [auto|].
    intros k Hk. rewrite k2, k1; [done..|].
    destruct (odict.get k (tensors_to_quantize s2)) as [v|] eqn:Hv; [|done].
    apply u1 in Hv. congruence.
Qed.

Section Records.
Context `{!QuantUtils} `{!BaseQuantizer}.

Lemma add_qdq_pair_for_initializer_records (w : TensorProto) (ty : QDQQuantTensorType)
    (ax : option Z) :
  respects (record_frame (tp_name w)) False (_add_qdq_pair_for_initializer w ty ax).
Proof. record_frame_walk. Qed.

Lemma create_quantization_initializers_records (t : string) :
  respects (record_frame t) False (_create_quantization_initializers t).
Proof. record_frame_walk. Qed.

Lemma add_qdq_pair_for_activation_records (t sc zp : string) (dt : option Z) :
  respects (record_frame t) False (_add_qdq_pair_for_activation t sc zp dt).
Proof. record_frame_walk. Qed.

Lemma add_qdq_ops_for_converted_activation_records (t s1 z1 : string) (dt : Z)
    (s2 z2 : string) (recv : option (gset string)) :
  respects (record_frame t) False
    (_add_qdq_ops_for_converted_activation t s1 z1 dt s2 z2 recv).
Proof. record_frame_walk. Qed.

Lemma resolve_from_provider_records (t : string) (qv : QuantizedValue) :
  respects (record_frame t) False (resolve_from_provider t qv).
Proof.
  pose proof add_qdq_pair_for_activation_records.
  pose proof add_qdq_ops_for_converted_activation_records.
  unfold resolve_from_provider. record_frame_walk.
Qed.

Lemma quantize_bias_tensor_records (b : PendingBias) :
  respects (record_frame (pb_bias_name b)) False (_quantize_bias_tensor b).
Proof. record_frame_walk. Qed.

Lemma add_qdq_pair_for_initializer_resolves (w : TensorProto)
    (ty : QDQQuantTensorType) (ax : option Z) :
  ensures (_add_qdq_pair_for_initializer w ty ax) (resolved (tp_name w)).
Proof.
  intros s a s'.
  unfold _add_qdq_pair_for_initializer, quantize_weight_per_channel,
    quantize_initializer, _create_qdq_nodes, call_impl, resolved. msimpl.
  destruct ax as [ax|]; [destruct (decide (opset_version s < 13)%Z); [done|]|]; simpl;
    (destruct (quantized_value_map s !! tp_name w) as [r|] eqn:Hr; simpl;
     [|match goal with
       | |- context [quantize_weight_per_channel_impl ?a ?b ?c ?d ?e ?f] =>
           destruct (quantize_weight_per_channel_impl a b c d e f)
             as [?|[[[??]?]?]]; [done|]
       | |- context [quantize_initializer_impl ?a ?b ?c ?d ?e] =>
           destruct (quantize_initializer_impl a b c d e) as [?|[[[??]?]?]]; [done|]
       end; simpl]);
    destruct (add_qdq_pair_to_weight s); simpl; intros ?; simplify_eq; simpl;
    rewrite ?Hr, ?lookup_insert_eq; done.
Qed.

Lemma rewrite_then_del (m : M unit) (t : string) (st st' : QDQQuantizer) :
  respects (record_frame t) False m →
  ensures m (resolved t) →
  (m ;; del_tensors_to_quantize t) st = Ok tt st' →
  tensors_to_quantize st' = odict.del t (tensors_to_quantize st) ∧
  (∀ k, k ≠ t → quantized_value_map st' !! k = quantized_value_map st !! k) ∧
  is_Some (quantized_value_map st' !! t).
Proof.
  intros Hframe Hres. specialize (Hframe st). specialize (Hres st).
  unfold mbind, M_mbind, M_bind.
  destruct (m st) as [[] s1| |]; [|done..].
  destruct Hframe as (Hreg & _ & Hothers & _). specialize (Hres tt s1 eq_refl).
  unfold del_tensors_to_quantize. msimpl.
  destruct (odict.mem t (tensors_to_quantize s1)); [|done].
  intros [= <-]. simpl. by rewrite Hreg.
Qed.

(** One entry of the normal pass, when it returns. *)
Lemma normal_entry_spec (st st' : QDQQuantizer) (t : string) (info : QDQTensorQuantInfo) :
  quantized_value_map st !! t = None →
  _quantize_normal_tensor (t, info) st = Ok tt st' →
  if is_shared info then st' = st
  else tensors_to_quantize st' = odict.del t (tensors_to_quantize st) ∧
       (∀ k, k ≠ t → quantized_value_map st' !! k = quantized_value_map st !! k) ∧
       is_Some (quantized_value_map st' !! t).
Proof.
  intros Hfresh. unfold _quantize_normal_tensor.
  unfold mbind at 1, M_mbind at 1, M_bind at 1, gets at 1. rewrite Hfresh. simpl.
  destruct (is_shared info); [by intros [= <-]|].
  unfold mbind at 1, M_mbind at 1, M_bind at 1, gets at 1.
  destruct (find_by_name t (graph_initializer (model st))) as [w|] eqn:Hw.
  - apply rewrite_then_del; rewrite <- (find_by_name_name _ _ _ Hw).
    + apply add_qdq_pair_for_initializer_records.
    + apply add_qdq_pair_for_initializer_resolves.
  - apply rewrite_then_del.
    + pose proof create_quantization_initializers_records.
      pose proof add_qdq_pair_for_activation_records.
      pose proof add_qdq_ops_for_converted_activation_records.
      record_frame_walk.
    + apply ensures_bind. intros [inits|]; [|apply ensures_raise].
      destruct (inits_converted inits).
      * case_decide; [|apply ensures_raise].
        apply add_qdq_ops_for_converted_activation_resolves.
      * apply add_qdq_pair_for_activation_resolves.
Qed.

Lemma unshared_keys_cons_shared (t : string) (info : QDQTensorQuantInfo)
    (l : list (string * QDQTensorQuantInfo)) :
  is_shared info = true → unshared_keys ((t, info) :: l) = unshared_keys l.
Proof.
  intros Hs. unfold unshared_keys. rewrite filter_cons_False; [done|].
  simpl. by rewrite Hs.
Qed.

Lemma unshared_keys_cons_unshared (t : string) (info : QDQTensorQuantInfo)
    (l : list (string * QDQTensorQuantInfo)) :
  is_shared info = false → unshared_keys ((t, info) :: l) = t :: unshared_keys l.
Proof.
  intros Hs. unfold unshared_keys. by rewrite filter_cons_True.
Qed.

Lemma unshared_keys_subseteq (l : list (string * QDQTensorQuantInfo)) (t : string) :
  t ∈ unshared_keys l → t ∈ l.*1.
Proof.
  unfold unshared_keys. intros ([k v] & -> & [_ Hin]%list_elem_of_filter)%list_elem_of_fmap.
  apply list_elem_of_fmap. by exists (k, v).
Qed.

(** The normal pass over any snapshot of distinct, unresolved tensors. *)
Lemma normal_entries_spec (l : list (string * QDQTensorQuantInfo)) :
  ∀ s s',
  NoDup l.*1 →
  (∀ e, e ∈ l → quantized_value_map s !! e.1 = None) →
  for_each l _quantize_normal_tensor s = Ok tt s' →
  tensors_to_quantize s'
    = filter (λ e, e.1 ∉ unshared_keys l) (tensors_to_quantize s) ∧
  (∀ t, t ∈ unshared_keys l → is_Some (quantized_value_map s' !! t)) ∧
  (∀ t, t ∉ unshared_keys l → quantized_value_map s' !! t = quantized_value_map s !! t).
Proof.
  induction l as [|[t info] l IH]; intros s s' Hdup Hfresh.
  - simpl. intros [= <-]. split; [|split; [|done]].
    + symmetry. apply filter_all, Forall_forall. intros e _. apply not_elem_of_nil.
    + by intros t ?%elem_of_nil.
  - rewrite fmap_cons in Hdup. apply NoDup_cons in Hdup as [Ht Hdup].
    cbn [for_each]. unfold mbind, M_mbind, M_bind.
    destruct (_quantize_normal_tensor (t, info) s) as [[] s1| |] eqn:Hentry; [|done..].
    apply normal_entry_spec in Hentry; [|apply (Hfresh (t, info)); by left].
    intros Hrest. destruct (is_shared info) eqn:Hshared.
    + subst s1. rewrite unshared_keys_cons_shared by done.
      apply IH; [done| |done]. intros e He. apply Hfresh. by right.
    + destruct Hentry as (Hreg & Hothers & Hres).
      rewrite unshared_keys_cons_unshared by done.
      destruct (IH s1 s' Hdup) as (Hreg' & Hres' & Hothers'); [|done|].
      { intros e He. rewrite Hothers; [apply Hfresh; by right|].
        intros Heq. apply Ht. rewrite <- Heq. apply list_elem_of_fmap. by exists e. }
      split; [|split].
      * rewrite Hreg', Hreg. unfold odict.del. rewrite list_filter_filter.
        apply list_filter_iff. intros e. rewrite not_elem_of_cons. tauto.
      * intros t' [->|Ht']%elem_of_cons; [|by apply Hres'].
        rewrite Hothers'; [done|]. intros ?%unshared_keys_subseteq. done.
      * intros t' [Hne Ht']%not_elem_of_cons. by rewrite Hothers', Hothers.
Qed.

(** X13: the normal pass, run on a registry none of whose tensors has a
    record yet (the state [quantize_model] reaches it in), when it returns:
    the registry holds exactly the entries that share parameters, in their
    order; every other registered tensor has a record; and the record of a
    tensor that was not registered as unshared is as it was. *)
Theorem normal_pass_leaves_shared_entries (st st' : QDQQuantizer) :
  NoDup (odict.keys (tensors_to_quantize st)) →
  (∀ t, odict.mem t (tensors_to_quantize st) = true →
        quantized_value_map st !! t = None) →
  _quantize_normal_tensors st = Ok tt st' →
  tensors_to_quantize st'
    = filter (λ e, is_shared e.2 = true) (tensors_to_quantize st) ∧
  (∀ t info, odict.get t (tensors_to_quantize st) = Some info →
             is_shared info = false →
             is_Some (quantized_value_map st' !! t)) ∧
  (∀ t, t ∉ unshared_keys (tensors_to_quantize st) →
        quantized_value_map st' !! t = quantized_value_map st !! t).
Proof.
  intros Hdup Hfresh. unfold _quantize_normal_tensors.
  unfold mbind, M_mbind, M_bind, gets. intros Hrun.
  apply normal_entries_spec in Hrun as (Hreg & Hres & Hothers); [|done|].
  - split; [|split; [|done]].
    + rewrite Hreg. apply filter_ext_in. intros [t info] Hin. simpl. split.
      * intros Hnot. destruct (is_shared info) eqn:Hs; [done|].
        destruct Hnot. unfold unshared_keys. apply list_elem_of_fmap.
        exists (t, info). split; [done|]. by apply list_elem_of_filter.
      * intros Hs Hin'. unfold unshared_keys in Hin'.
        apply list_elem_of_fmap in Hin' as ([t' info'] & Heq & [Hs' Hin']%list_elem_of_filter).
        simpl in *. subst t'.
        rewrite (NoDup_keys_inj _ _ _ _ Hdup Hin Hin') in Hs. congruence.
    + intros t info Hget Hs. apply Hres. unfold unshared_keys.
      apply list_elem_of_fmap. exists (t, info). split; [done|].
      apply list_elem_of_filter. split; [done|]. by apply odict_get_elem_of.
  - intros [t info] Hin. apply Hfresh. unfold odict.mem. simpl.
    by destruct (odict_elem_of_get _ _ _ Hin) as [v ->].
Qed.

Lemma others_kept_grows (t : string) (s s' : QDQQuantizer) :
  quantized_value_map s !! t = None →
  record_frame t s s' →
  records_kept s s'.
Proof.
  intros Hfresh (_ & _ & Hothers & _). apply map_subseteq_spec. intros k v Hk.
  rewrite Hothers; [done|]. intros ->. congruence.
Qed.

#[local] Instance records_kept_preorder : PreOrder records_kept.
Proof.
  split.
  - intros s. unfold records_kept. reflexivity.
  - intros s1 s2 s3. unfold records_kept. intros ? ?. by etrans.
Qed.

Lemma normal_entry_keeps_records (e : string * QDQTensorQuantInfo) :
  respects records_kept False
    (_quantize_normal_tensor e).
Proof.
  destruct e as [t info]. intros s. unfold _quantize_normal_tensor.
  unfold mbind at 1, M_mbind at 1, M_bind at 1, gets at 1.
  destruct (quantized_value_map s !! t) as [r|] eqn:Hfresh; simpl; [reflexivity|].
  destruct (is_shared info); [unfold mret, M_mret, M_ret; reflexivity|].
  unfold mbind at 1, M_mbind at 1, M_bind at 1, gets at 1.
  assert (∀ m : M unit, respects (record_frame t) False m →
    match (m ;; del_tensors_to_quantize t) s with
    | Ok _ s' | Raise _ s' => records_kept s s'
    | Timeout => False
    end) as Hdel.
  { intros m Hm. specialize (Hm s). unfold mbind, M_mbind, M_bind.
    destruct (m s) as [[] s1| |]; [| |done].
    - pose proof (others_kept_grows _ _ _ Hfresh Hm) as Hkept.
      unfold del_tensors_to_quantize. msimpl.
      by destruct (odict.mem t (tensors_to_quantize s1)).
    - by eapply others_kept_grows. }
  destruct (find_by_name t (graph_initializer (model s))) as [w|] eqn:Hw; apply Hdel.
  - rewrite <- (find_by_name_name _ _ _ Hw). apply add_qdq_pair_for_initializer_records.
  - pose proof create_quantization_initializers_records.
    pose proof add_qdq_pair_for_activation_records.
    pose proof add_qdq_ops_for_converted_activation_records.
    record_frame_walk.
Qed.

Lemma bias_entry_keeps_records (b : PendingBias) :
  respects records_kept False
    (_quantize_bias_tensor b).
Proof.
  intros s. pose proof (quantize_bias_tensor_records b s) as Hframe.
  destruct (quantized_value_map s !! pb_bias_name b) as [r|] eqn:Hfresh.
  - unfold _quantize_bias_tensor.
    unfold mbind at 1, M_mbind at 1, M_bind at 1, gets at 1. rewrite Hfresh.
    simpl. unfold mret, M_mret, M_ret. reflexivity.
  - destruct (_quantize_bias_tensor b s); [| |done]; by eapply others_kept_grows.
Qed.

Lemma sharing_entry_keeps_unregistered (e : string * QDQTensorQuantInfo) :
  respects unregistered_kept False (_quantize_sharing_param_tensor e).
Proof.
  destruct e as [t info]. intros s. rewrite sharing_entry_unfold.
  destruct (quant_para_provider info) as [p|];
    [|unfold mret, M_mret, M_ret; reflexivity].
  unfold mbind at 1, M_mbind at 1, M_bind at 1, gets at 1.
  destruct (quantized_value_map s !! input_name p) as [pv|];
    [|unfold mret, M_mret, M_ret; reflexivity].
  unfold del_tensors_to_quantize.
  unfold mbind, M_mbind, M_bind, gets, modify, raise. simpl.
  destruct (odict.mem t (tensors_to_quantize s)) eqn:Hmem; [|reflexivity].
  set (s1 := with_tensors_to_quantize (odict.del t) s).
  pose proof (resolve_from_provider_records t (get_for_consumer pv (node_name p)) s1)
    as Hframe.
  assert (∀ s', record_frame t s1 s' → unregistered_kept s s') as Hkept.
  { intros s' (Hreg & _ & Hothers & _). split.
    - intros k v. rewrite Hreg. simpl. apply odict_get_del_Some.
    - intros k Hk. rewrite Hothers; [done|]. intros ->.
      unfold odict.mem in Hmem. by rewrite Hk in Hmem. }
  destruct (resolve_from_provider t _ s1); [| |done]; by apply Hkept.
Qed.

(** X14: a record of the value store is written once.  The normal pass and
    the bias pass, however they end, keep every record they found; the
    sharing loop keeps the record of every tensor that is not registered
    when it starts, and only takes entries out of the registry. *)
Theorem records_are_written_once (fuel : nat) :
  respects records_kept False
    _quantize_normal_tensors ∧
  respects records_kept False
    _quantize_bias_tensors ∧
  respects unregistered_kept True (_quantize_sharing_param_tensors fuel).
Proof.
  split; [|split].
  - unfold _quantize_normal_tensors. apply respects_bind; [tc_solve| |intros snapshot].
    + apply respects_gets; tc_solve.
    + apply respects_for_each; [tc_solve|]. apply normal_entry_keeps_records.
  - unfold _quantize_bias_tensors. apply respects_bind; [tc_solve| |intros pending].
    + apply respects_gets; tc_solve.
    + apply respects_for_each; [tc_solve|]. apply bias_entry_keeps_records.
  - induction fuel as [|fuel IH]; simpl; [done|].
    apply respects_bind; [tc_solve| |intros [|e pending]].
    + apply respects_gets; tc_solve.
    + apply respects_ret; tc_solve.
    + apply respects_bind; [tc_solve| |by intros _].
      unfold sharing_scan. apply respects_bind; [tc_solve| |intros snapshot].
      * apply respects_gets; tc_solve.
      * apply respects_for_each; [tc_solve|]. intros e'.
        eapply respects_weaken; [| |apply sharing_entry_keeps_unregistered]; done.
Qed.

End Records.

(** ** What the passes add to the graph *)

Lemma is_emitted_node_same (dom : option string) (n n' : NodeProto) :
  same_node n n' → is_emitted_node dom n → is_emitted_node dom n'.
Proof.
  intros (Hop & _ & Hax & Hto & Hdom & _) [(Hk & Hd & Ht)|(Hk & Hd & Ha)].
  - left. rewrite Hop, Hdom, Hto. done.
  - right. rewrite Hop, Hdom, Hax. done.
Qed.

#[local] Instance emission_frame_preorder : PreOrder emission_frame.
Proof.
  split.
  - intros s. split; [done|]. exists (graph_node (model s)), [].
    split; [by rewrite app_nil_r|]. split; [reflexivity|constructor].
  - intros s1 s2 s3 (d1 & k1 & a1 & e1 & f1 & m1) (d2 & k2 & a2 & e2 & f2 & m2).
    split; [congruence|]. rewrite e1 in f2.
    apply Forall2_app_inv_l in f2 as (k2a & k2b & Ha & Hb & ->).
    exists k2a, (k2b ++ a2). split; [by rewrite e2, app_assoc|].
    split; [by etrans|]. apply Forall_app. split.
    + clear -Hb m1. induction Hb as [|x y l l' Hxy _ IH]; [constructor|].
      apply Forall_cons in m1 as [Hx Hl]. constructor; [|by apply IH].
      by eapply is_emitted_node_same.
    + by rewrite <- d1.
Qed.

Lemma emission_frame_rewire (s s' : QDQQuantizer) :
  qdq_op_domain s' = qdq_op_domain s →
  Forall2 same_node (graph_node (model s)) (graph_node (model s')) →
  emission_frame s s'.
Proof.
  intros Hd Hn. split; [done|]. exists (graph_node (model s')), [].
  split; [by rewrite app_nil_r|]. split; [done|constructor].
Qed.

Lemma emission_frame_same (s s' : QDQQuantizer) :
  qdq_op_domain s' = qdq_op_domain s →
  graph_node (model s') = graph_node (model s) →
  emission_frame s s'.
Proof. intros Hd Hn. apply emission_frame_rewire; [done|]. rewrite Hn. reflexivity. Qed.

Lemma emission_frame_fmap (f : NodeProto → NodeProto) (s : QDQQuantizer) :
  (∀ n, same_node n (f n)) →
  emission_frame s (with_model (with_nodes (fmap f)) s).
Proof.
  intros Hf. apply emission_frame_rewire; [done|]. simpl.
  apply Forall2_fmap_r, Forall2_same_length_lookup_2; [done|].
  intros i x y ? ?. simplify_eq. apply Hf.
Qed.

Lemma emission_frame_alter (f : NodeProto → NodeProto) (i : nat) (s : QDQQuantizer) :
  (∀ n, same_node n (f n)) →
  emission_frame s (with_model (with_nodes (alter f i)) s).
Proof.
  intros Hf. apply emission_frame_rewire; [done|]. simpl.
  apply Forall2_same_length_lookup_2; [by rewrite length_alter|].
  intros j x y Hx Hy. rewrite list_lookup_alter in Hy.
  destruct (decide (i = j)) as [->|_].
  - rewrite Hx in Hy. simpl in Hy. simplify_eq. apply Hf.
  - by simplify_eq.
Qed.

Lemma emission_frame_add (ns : list NodeProto) (s : QDQQuantizer) :
  Forall (is_emitted_node (qdq_op_domain s)) ns →
  emission_frame s (with_model (ONNXModel.add_nodes ns) s).
Proof.
  intros Hns. split; [done|]. exists (graph_node (model s)), ns.
  split; [done|]. split; [reflexivity|done].
Qed.

Section Emitted.
Context `{!QuantUtils} `{!BaseQuantizer}.

Lemma q_node_emitted (s : QDQQuantizer) (i o nm sc zp : string) (ax : option Z) :
  is_emitted_node (qdq_op_domain s) (q_node s i o nm sc zp ax).
Proof. left. split; [by left|done]. Qed.

Lemma dq_node_emitted (s : QDQQuantizer) (i o nm sc zp : string) (ax : option Z) :
  is_emitted_node (qdq_op_domain s) (dq_node s i o nm sc zp ax).
Proof. left. split; [by right|done]. Qed.

Lemma emission_frame_replace_node_input (i : nat) (old new : string) (s : QDQQuantizer) :
  emission_frame s (with_model (ONNXModel.replace_node_input i old new) s).
Proof. apply emission_frame_alter, same_node_replace_input. Qed.

Lemma emission_frame_replace_input_of_all_nodes (old new : string) (s : QDQQuantizer) :
  emission_frame s (with_model (ONNXModel.replace_input_of_all_nodes old new) s).
Proof. apply emission_frame_fmap, same_node_replace_input. Qed.

Lemma emission_frame_replace_output_of_all_nodes (old new : string) (s : QDQQuantizer) :
  emission_frame s (with_model (ONNXModel.replace_output_of_all_nodes old new) s).
Proof. apply emission_frame_fmap, same_node_replace_output. Qed.

Lemma emission_frame_replace_input_of_nodes (old new : string) (names : gset string)
    (s : QDQQuantizer) :
  emission_frame s (with_model (ONNXModel.replace_input_of_nodes old new names) s).
Proof.
  apply emission_frame_fmap. intros n.
  case_bool_decide; [apply same_node_replace_input|reflexivity].
Qed.

Lemma emission_frame_q (s : QDQQuantizer) (i o nm sc zp : string) (ax : option Z) :
  emission_frame s (with_model (ONNXModel.add_nodes [q_node s i o nm sc zp ax]) s).
Proof. apply emission_frame_add, Forall_singleton, q_node_emitted. Qed.

Lemma emission_frame_dq (s : QDQQuantizer) (i o nm sc zp : string) (ax : option Z) :
  emission_frame s (with_model (ONNXModel.add_nodes [dq_node s i o nm sc zp ax]) s).
Proof. apply emission_frame_add, Forall_singleton, dq_node_emitted. Qed.

Lemma emission_frame_dq_node (s : QDQQuantizer) (i o nm sc zp : string) (ax : option Z) :
  emission_frame s (with_model (ONNXModel.add_node (dq_node s i o nm sc zp ax)) s).
Proof. apply emission_frame_dq. Qed.

Lemma emission_frame_qdq (s : QDQQuantizer) (i o nm i' o' nm' sc zp : string)
    (ax : option Z) :
  emission_frame s (with_model (ONNXModel.add_nodes
    [q_node s i o nm sc zp ax; dq_node s i' o' nm' sc zp ax]) s).
Proof.
  apply emission_frame_add, Forall_cons. split; [apply q_node_emitted|].
  apply Forall_singleton, dq_node_emitted.
Qed.

End Emitted.

Create HintDb emission.
#[local] Hint Resolve emission_frame_replace_node_input
  emission_frame_replace_input_of_all_nodes emission_frame_replace_output_of_all_nodes
  emission_frame_replace_input_of_nodes emission_frame_q emission_frame_dq
  emission_frame_dq_node emission_frame_qdq : emission.

(** Closes the obligations that [respects_walk] leaves for
    [emission_frame]. *)
Ltac emission_frame_walk :=
  respects_walk;
  try (first [ apply respects_modify | apply respects_call_impl; [tc_solve|] ];
       intros; first [ solve [auto with emission]
                     | by apply emission_frame_same
                     ]).

(** The dispatch of the bias pass on the node type of a record, as a chain
    of decisions. *)
Lemma node_type_cases {A} (nt : option string) (cast dq other : A) :
  match nt with
  | Some "Cast" => cast
  | None | Some "DequantizeLinear" => dq
  | Some _ => other
  end
  = if decide (nt = Some "Cast") then cast
    else if decide (nt = None ∨ nt = Some "DequantizeLinear") then dq
    else other.
Proof.
  destruct (decide (nt = Some "Cast")) as [->|Hc]; [done|].
  destruct (decide (nt = None ∨ nt = Some "DequantizeLinear")) as [[->| ->]|Hd];
    [done..|].
  repeat case_match; try done; subst; exfalso;
    first [by apply Hc | apply Hd; by right | apply Hd; by left].
Qed.

Section Emits.
Context `{!QuantUtils} `{!BaseQuantizer}.

Lemma run_policy_emits (T : Prop) (p : policy) :
  respects emission_frame T (run_policy p).
Proof. induction p; simpl; emission_frame_walk. Qed.

Lemma mark_nodes_emits (T : Prop) : respects emission_frame T mark_nodes.
Proof. pose proof run_policy_emits. emission_frame_walk. Qed.

Lemma quantize_normal_tensors_emits (T : Prop) :
  respects emission_frame T _quantize_normal_tensors.
Proof. emission_frame_walk. Qed.

Lemma sharing_scan_emits (T : Prop) : respects emission_frame T sharing_scan.
Proof. emission_frame_walk. Qed.

Lemma quantize_sharing_param_tensors_emits (fuel : nat) :
  respects emission_frame True (_quantize_sharing_param_tensors fuel).
Proof.
  induction fuel as [|fuel IH]; simpl; [done|].
  pose proof (sharing_scan_emits True). emission_frame_walk.
Qed.

Lemma quantize_bias_static_emits (T : Prop) (node bias inp weight : string)
    (beta : float) :
  respects emission_frame T (quantize_bias_static node bias inp weight beta).
Proof. emission_frame_walk. Qed.

Lemma quantize_bias_tensor_emits (T : Prop) (b : PendingBias) :
  respects emission_frame T (_quantize_bias_tensor b).
Proof.
  intros s. unfold _quantize_bias_tensor.
  unfold mbind at 1, M_mbind at 1, M_bind at 1, gets at 1.
  destruct (bool_decide (is_Some (quantized_value_map s !! pb_bias_name b)));
    [unfold mret, M_mret, M_ret; reflexivity|].
  unfold mbind at 1, M_mbind at 1, M_bind at 1.
  pose proof (quantize_bias_static_emits T (pb_node_name b) (pb_bias_name b)
                (pb_input_name b) (pb_weight_name b) (pb_beta b) s) as Hstatic.
  destruct (quantize_bias_static _ _ _ _ _ s) as [q s1| |]; [|done..].
  unfold quantized_value_map_at. msimpl.
  set (s2 := with_model (ONNXModel.remove_initializer
                (find_by_name (pb_bias_name b) (graph_initializer (model s1)))) s1).
  assert (emission_frame s s2) as Hs2.
  { etrans; [done|]. apply emission_frame_same; [done|]. subst s2. simpl.
    by destruct (find_by_name _ _). }
  destruct (quantized_value_map s1 !! pb_bias_name b) as [stored|]; simpl; [|done].
  assert (∀ n, is_emitted_node (qdq_op_domain s1) n →
               emission_frame s (with_model (ONNXModel.add_node n) s2)) as Hadd.
  { intros n Hn. etrans; [exact Hs2|].
    apply emission_frame_add, Forall_singleton. done. }
  rewrite node_type_cases.
  repeat case_match; simplify_eq/=; try done; apply Hadd.
  all: try (left; split; [by right|done]).
  all: by right.
Qed.

Lemma quantize_bias_tensors_emits (T : Prop) :
  respects emission_frame T _quantize_bias_tensors.
Proof.
  unfold _quantize_bias_tensors. apply respects_bind; [tc_solve| |intros pending].
  - apply respects_gets. tc_solve.
  - apply respects_for_each; [tc_solve|]. apply quantize_bias_tensor_emits.
Qed.

(** X15: however the passes end, the graph holds every node it held before
    them, at its position, with the same operator, name, attributes and
    domain and as many inputs and outputs (the rewiring only renames
    tensors), followed by the nodes the passes added; each added node is a
    QuantizeLinear or DequantizeLinear node in the Q/DQ domain of the
    quantizer, or a Cast node in the default domain; and the Q/DQ domain is
    the one the quantizer was built with. *)
Theorem passes_emit_only_qdq_nodes (fuel : nat) :
  respects emission_frame False mark_nodes ∧
  respects emission_frame False _quantize_normal_tensors ∧
  respects emission_frame True (_quantize_sharing_param_tensors fuel) ∧
  respects emission_frame False _quantize_bias_tensors ∧
  respects emission_frame True (quantize_passes fuel).
Proof.
  split; [apply mark_nodes_emits|].
  split; [apply quantize_normal_tensors_emits|].
  split; [apply quantize_sharing_param_tensors_emits|].
  split; [apply quantize_bias_tensors_emits|].
  pose proof (mark_nodes_emits True).
  pose proof (quantize_normal_tensors_emits True).
  pose proof (quantize_sharing_param_tensors_emits fuel).
  pose proof (quantize_bias_tensors_emits True).
  unfold quantize_passes. emission_frame_walk.
Qed.

End Emits.

(** * The bias pass and the shared weights *)


Section BiasPass.
Context `{!QuantUtils} `{!BaseQuantizer}.


(** X17: an initializer cannot share the parameters of another tensor.  When
    the sharing loop reaches such an entry with its provider resolved it
    raises [ValueError]; the entry has already left the registry then, and
    the model and the value store are as they were. *)
Theorem shared_weight_is_rejected (st : QDQQuantizer) (t : string)
    (info : QDQTensorQuantInfo) (p : QDQQuantParamProvider) (w : TensorProto)
    (pv : QDQTensorQuantizedValue) :
  quant_para_provider info = Some p →
  quantized_value_map st !! input_name p = Some pv →
  find_by_name t (graph_initializer (model st)) = Some w →
  odict.mem t (tensors_to_quantize st) = true →
  ∃ msg st', _quantize_sharing_param_tensor (t, info) st = Raise (ValueError msg) st' ∧
    tensors_to_quantize st' = odict.del t (tensors_to_quantize st) ∧
    model st' = model st ∧
    quantized_value_map st' = quantized_value_map st.
Proof.
  intros Hp Hpv Hw Hmem.
  unfold _quantize_sharing_param_tensor, del_tensors_to_quantize, is_input_a_initializer.
  msimpl. rewrite Hp. simpl. rewrite Hpv. simpl. rewrite Hmem. simpl. rewrite Hw. simpl.
  by eexists _, _.
Qed.

End BiasPass.

(** * The further properties on concrete states *)

#[local] Existing Instance Example.utils.
#[local] Existing Instance Example.base.

Lemma per_channel_registration_overwrites_witness :
  ∃ st', quantize_weight_tensor_per_channel "b" 1 (relu_quantizer ∅) = Ok tt st' ∧
         odict.get "b" (tensors_to_quantize st')
         = Some (mkInfo WEIGHT None (Some 1%Z) false FLOAT) ∧
         quantize_weight_tensor "b" st' = Ok tt st'.
Proof.
  destruct (per_channel_registration_overwrites (relu_quantizer ∅) "b"
              (mkTensor "b" FLOAT [1%Z] [SFloat 0.5%float]) 1 eq_refl eq_refl)
    as (st' & Hrun & Hget & _ & _ & Hagain & _).
  exists st'. split; [exact Hrun|]. split; [exact Hget|exact Hagain].
Defined.

Lemma bias_is_queued_iff_float_initializer_witness :
  ∃ st', quantize_bias_tensor "conv" "b" "x" "w" 1%float Cases.conv_resolved = Ok tt st' ∧
         bias_to_quantize st' = [Cases.conv_bias] ∧
         tensors_to_quantize st' = [].
Proof.
  destruct (bias_is_queued_iff_float_initializer Cases.conv_resolved
              "conv" "b" "x" "w" 1%float eq_refl)
    as (st' & Hrun & Hreg & _ & _ & Hqueue).
  exists st'. split; [exact Hrun|]. split; [exact Hqueue|exact Hreg].
Defined.

Lemma activation_without_parameters_raises_witness :
  ∃ msg st', _quantize_normal_tensor ("x", Cases.plain_entry)
               (Example.fork_marked false [] ∅) = Raise (ValueError msg) st' ∧
             model st' = model (Example.fork_marked false [] ∅).
Proof.
  assert (quantization_params (Example.fork_marked false [] ∅) ≫= (λ m, m !! "x")
          = None) as Hnone by reflexivity.
  destruct (activation_without_parameters_raises (Example.fork_marked false [] ∅) "x"
              Cases.plain_entry eq_refl eq_refl eq_refl Hnone)
    as (msg & st' & Hrun & Hmodel & _).
  exists msg, st'. split; [exact Hrun|exact Hmodel].
Defined.

Lemma converted_without_consumers_raises_witness :
  ∃ st', _quantize_normal_tensor ("a", Cases.plain_entry) Cases.converted_output
         = Raise (KeyError "a") st' ∧
         graph_node (model st') = graph_node (model Cases.converted_output).
Proof.
  destruct (converted_without_consumers_raises Cases.converted_output "a" eq_refl)
    as [_ Hpass].
  assert (np_float32 ≠ np_float64) as Hd by discriminate.
  destruct (Hpass Cases.plain_entry _
              (mkTQParams Example.qparams32 (Some Example.qparams32) None)
              Example.qparams32 np_float32 np_float32
              eq_refl eq_refl eq_refl eq_refl eq_refl eq_refl eq_refl Hd eq_refl Hd
              eq_refl)
    as (st' & Hrun & Hnodes & _).
  exists st'. split; [exact Hrun|exact Hnodes].
Defined.

Lemma converted_scale_type_mismatch_asserts_witness :
  ∃ st', _quantize_normal_tensor ("x", mkInfo ACTIVATION None None false FLOAT16)
           Cases.converted = Raise AssertionError st' ∧
         graph_node (model st') = graph_node (model Cases.converted).
Proof.
  assert (np_float32 ≠ np_float64) as Hd by discriminate.
  assert (FLOAT16 ≠ scale_elem_type np_float32) as Hty by discriminate.
  destruct (converted_scale_type_mismatch_asserts Cases.converted "x"
              (mkInfo ACTIVATION None None false FLOAT16) _
              (mkTQParams Example.qparams32 (Some Example.qparams32) None)
              Example.qparams32 np_float32 np_float32
              eq_refl eq_refl eq_refl eq_refl eq_refl eq_refl eq_refl Hd eq_refl Hd Hty)
    as (st' & Hrun & Hnodes & _).
  exists st'. split; [exact Hrun|exact Hnodes].
Defined.

Lemma normal_pass_quantizes_activation_witness :
  ∃ st', _quantize_normal_tensor ("x", Cases.plain_entry) Cases.registered = Ok tt st' ∧
         input <$> graph_node (model st')
           = [ ["x_DequantizeLinear_Output"]; ["x_DequantizeLinear_Output"];
               ["x"; "x_scale"; "x_zero_point"];
               ["x_QuantizeLinear_Output"; "x_scale"; "x_zero_point"] ] ∧
         tp_name <$> graph_initializer (model st') = ["x_zero_point"; "x_scale"] ∧
         odict.keys (tensors_to_quantize st') = ["a"].
Proof.
  assert (np_float32 ≠ np_float64) as Hd by discriminate.
  destruct (normal_pass_quantizes_activation Cases.registered "x" Cases.plain_entry _
              (Example.plain Example.qparams32) np_float32
              eq_refl eq_refl eq_refl eq_refl eq_refl eq_refl eq_refl Hd eq_refl eq_refl)
    as (st' & Hrun & Hinits & Hnodes & _ & Hreg).
  exists st'. split; [exact Hrun|]. split; [|split].
  - rewrite Hnodes. reflexivity.
  - rewrite Hinits. reflexivity.
  - rewrite Hreg. reflexivity.
Defined.

Lemma initializer_pair_emission_witness :
  let w := mkTensor "b" FLOAT [1%Z] [SFloat 0.5%float] in
  (∃ st', _add_qdq_pair_for_initializer w WEIGHT None (relu_quantizer ∅) = Ok tt st' ∧
          input <$> graph_node (model st')
            = [ ["x"]; ["b_quantized"; "b_scale"; "b_zero_point"] ]) ∧
  (∃ msg, _add_qdq_pair_for_initializer w WEIGHT (Some 0%Z) Cases.opset_12
          = Raise (ValueError msg) Cases.opset_12).
Proof.
  intros w. split.
  - destruct (initializer_pair_emission (relu_quantizer ∅) w WEIGHT) as [Hemit _].
    destruct (Hemit None "b_quantized" "b_zero_point" "b_scale"
                (graph_initializer relu_graph) eq_refl eq_refl)
      as (st' & Hrun & Hnodes & _).
    exists st'. split; [exact Hrun|]. rewrite Hnodes. reflexivity.
  - destruct (initializer_pair_emission Cases.opset_12 w WEIGHT) as [_ Hraise].
    apply (Hraise 0%Z). reflexivity.
Defined.

Lemma converted_activation_rewiring_witness :
  ∃ st', _add_qdq_ops_for_converted_activation "x" "x_scale" "x_zero_point" FLOAT
           "x_scale_convert" "x_zero_point_convert" (Some {["sigmoid"]})
           Cases.converted = Ok tt st' ∧
         name <$> drop 2 (graph_node (model st'))
           = [ "x_QuantizeLinear"; "x_DequantizeLinear";
               "x_convert_clone_DequantizeLinear"; "x_convert_QuantizeLinear";
               "x_convert_DequantizeLinear" ] ∧
         input <$> take 2 (graph_node (model st'))
           = [ ["x_DequantizeLinear_Output"]; ["x_convert_DequantizeLinear_Output"] ].
Proof.
  assert (Forall (λ nm, nm ∉ recv_node_names Cases.converted [0; 1]
                             ∪ default (recv_node_names Cases.converted [0; 1])
                                       (Some {["sigmoid"]}))
            [add_quant_suffix "x"; add_dequant_suffix "x";
             add_dequant_suffix ("x" +:+ "_convert_clone");
             add_quant_suffix ("x" +:+ "_convert")]) as Hnames.
  { apply (bool_decide_unpack _). vm_compute. exact I. }
  destruct (converted_activation_rewiring Cases.converted "x" "x_scale" "x_zero_point"
              FLOAT "x_scale_convert" "x_zero_point_convert" (Some {["sigmoid"]})
              [0; 1] eq_refl eq_refl Hnames)
    as (st' & Hrun & _ & Hadded & Hrewired).
  exists st'. split; [exact Hrun|]. split.
  - change 2 with (length (graph_node (model Cases.converted))).
    rewrite Hadded. vm_compute. reflexivity.
  - destruct (Hrewired 0 _ eq_refl) as (n0 & Hn0 & _ & _ & Hin0).
    destruct (Hrewired 1 _ eq_refl) as (n1 & Hn1 & _ & _ & Hin1).
    assert (length (graph_node (model st')) ≥ 2) as Hlen.
    { apply lookup_lt_Some in Hn1. lia. }
    destruct (graph_node (model st')) as [|m0 [|m1 rest]]; [simpl in Hlen; lia..|].
    simpl in Hn0, Hn1. injection Hn0 as ->. injection Hn1 as ->.
    simpl. rewrite Hin0, Hin1. vm_compute. reflexivity.
Defined.

Lemma normal_pass_leaves_shared_entries_witness :
  ∃ st', _quantize_normal_tensors Cases.registered = Ok tt st' ∧
         tensors_to_quantize st' = [("a", Example.sharing "x" "relu")] ∧
         is_Some (quantized_value_map st' !! "x").
Proof.
  assert (∃ st', _quantize_normal_tensors Cases.registered = Ok tt st') as [st' Hrun].
  { eexists. vm_compute. reflexivity. }
  assert (NoDup (odict.keys (tensors_to_quantize Cases.registered))) as Hdup.
  { apply (bool_decide_unpack _). vm_compute. exact I. }
  destruct (normal_pass_leaves_shared_entries Cases.registered st' Hdup
              (λ t _, lookup_empty t) Hrun) as (Hreg & Hres & _).
  exists st'. split; [exact Hrun|]. split; [exact Hreg|].
  apply (Hres "x" Cases.plain_entry); reflexivity.
Defined.


Lemma shared_weight_is_rejected_witness :
  ∃ msg st', _quantize_sharing_param_tensor ("b", Example.sharing "x" "relu")
               Cases.shared_weight = Raise (ValueError msg) st' ∧
             tensors_to_quantize st' = [].
Proof.
  destruct (shared_weight_is_rejected Cases.shared_weight "b"
              (Example.sharing "x" "relu") (mkProvider "x" "relu")
              (mkTensor "b" FLOAT [1%Z] [SFloat 0.5%float])
              (activation_value "x" "x_DequantizeLinear_Output" "x_scale"
                 "x_zero_point" (Some FLOAT))
              eq_refl eq_refl eq_refl eq_refl)
    as (msg & st' & Hrun & Hreg & _).
  exists msg, st'. split; [exact Hrun|]. rewrite Hreg. reflexivity.
Defined.
